(** * Global News Hub (script.js): feed acquisition and normalisation

    A shallow embedding of [src/script.js] and the properties of its
    transport layer ([fetchRSS], [fetchWithProxy]), its feed parser
    ([parseRSS]), its relative-time formatter ([formatTimeAgo]) and its
    per-source resolver ([fetchAndRenderSource]).

    Conventions of the embedding.
    - JavaScript strings are [string]s holding the UTF-8 encoding of the text.
    - A [Date] object is a [JSDate]: a time value in milliseconds, or the
      Invalid Date (time value NaN).
    - The browser is a [Host]: the network, the XML parser, the date parser,
      the clock and the behaviour of [outerHTML] on a detached element.
    - Asynchronous functions are [task]s: finite trees whose [Await] nodes are
      the suspension points at [await fetch(...)]. *)

From Stdlib Require Import String Ascii List ZArith Lia Bool Arith DecimalString.
Import ListNotations.
Open Scope string_scope.
Open Scope list_scope.

Set Implicit Arguments.

(* ================================================================== *)
(** * JavaScript strings *)
(* ================================================================== *)

Module JSString.

Fixpoint rev_acc (s acc : string) : string :=
  match s with
  | EmptyString => acc
  | String c s' => rev_acc s' (String c acc)
  end.

Definition rev (s : string) : string := rev_acc s EmptyString.

(** [strip_prefix p s] is [Some r] when [s = p ++ r]. *)
Fixpoint strip_prefix (p s : string) : option string :=
  match p with
  | EmptyString => Some s
  | String a p' =>
      match s with
      | EmptyString => None
      | String b s' => if Ascii.eqb a b then strip_prefix p' s' else None
      end
  end.

(** [strip_suffix p s] is [Some r] when [s = r ++ p]. *)
Definition strip_suffix (p s : string) : option string :=
  match strip_prefix (rev p) (rev s) with
  | Some r => Some (rev r)
  | None => None
  end.

Definition bytes (l : list nat) : string :=
  string_of_list_ascii (map ascii_of_nat l).

(** ECMAScript WhiteSpace and LineTerminator code points, UTF-8 encoded:
    TAB, LF, VT, FF, CR, SP, NBSP, U+1680, U+2000..U+200A, U+2028, U+2029,
    U+202F, U+205F, U+3000, U+FEFF.  [String.prototype.trim] and the regular
    expression class [\s] use this same set. *)
Definition white_space : list string :=
  map bytes
    ([ [9]; [10]; [11]; [12]; [13]; [32]; [194; 160]; [225; 154; 128] ]
     ++ map (fun k => [226; 128; 128 + k]) (seq 0 11)
     ++ [ [226; 128; 168]; [226; 128; 169]; [226; 128; 175];
          [226; 129; 159]; [227; 128; 128]; [239; 187; 191] ]).

Fixpoint strip_first (ps : list string) (s : string) : option string :=
  match ps with
  | [] => None
  | p :: ps' =>
      match strip_prefix p s with
      | Some r => Some r
      | None => strip_first ps' s
      end
  end.

Fixpoint drop_leading (ps : list string) (fuel : nat) (s : string) : string :=
  match fuel with
  | O => s
  | S fuel' =>
      match strip_first ps s with
      | Some r => drop_leading ps fuel' r
      | None => s
      end
  end.

Definition trimStart (s : string) : string :=
  drop_leading white_space (String.length s) s.

Definition trimEnd (s : string) : string :=
  rev (drop_leading (map rev white_space) (String.length s) (rev s)).

(** [String.prototype.trim]. *)
Definition trim (s : string) : string := trimEnd (trimStart s).

(** A string is falsy exactly when it is empty. *)
Definition truthy (s : string) : bool :=
  match s with EmptyString => false | _ => true end.

(** The replace call of lines 176 and 188: a dot-all pattern, anchored at
    both ends, made of optional white space, the opening marker of a CDATA
    section, a group of any characters, the closing marker and optional
    white space; the replacement is the group.  The white space in the
    pattern can only absorb white space, so the pattern matches exactly
    when the trimmed string starts with the opening marker and what follows
    it ends with the closing marker; the whole string is then replaced by
    the group, and otherwise left as it is. *)
Definition replace_cdata (s : string) : string :=
  match strip_prefix "<![CDATA[" (trim s) with
  | Some r =>
      match strip_suffix "]]>" r with
      | Some g => g
      | None => s
      end
  | None => s
  end.

(** Number to string, for integers. *)
Definition of_Z (z : Z) : string := NilZero.string_of_int (Z.to_int z).

Definition hex_digit (n : nat) : ascii :=
  ascii_of_nat (if Nat.ltb n 10 then 48 + n else 55 + n).

(** The characters [encodeURIComponent] leaves alone:
    A-Z a-z 0-9 - _ . ! ~ * ' ( ) *)
Definition uri_unreserved (c : ascii) : bool :=
  let n := nat_of_ascii c in
  (Nat.leb 65 n && Nat.leb n 90) || (Nat.leb 97 n && Nat.leb n 122)
  || (Nat.leb 48 n && Nat.leb n 57)
  || existsb (Nat.eqb n) [45; 95; 46; 33; 126; 42; 39; 40; 41].

(** [encodeURIComponent]: every other byte of the UTF-8 encoding becomes
    [%XX].  (A string here is well-formed UTF-8, so the URIError of a lone
    surrogate cannot arise.) *)
Fixpoint encodeURIComponent (s : string) : string :=
  match s with
  | EmptyString => EmptyString
  | String c s' =>
      if uri_unreserved c then String c (encodeURIComponent s')
      else
        let n := nat_of_ascii c in
        String "%" (String (hex_digit (n / 16)) (String (hex_digit (n mod 16))
                                                   (encodeURIComponent s')))
  end.

End JSString.

(* ================================================================== *)
(** * Values of the host: errors, dates, XML documents *)
(* ================================================================== *)

(** A thrown value: an [Error] object with its [name] and [message]. *)
Record JSError := mkError { err_name : string; message : string }.

(** [new Error(msg)]. *)
Definition Error (msg : string) : JSError := mkError "Error" msg.

(** How a call ends: it returns a value or throws. *)
Inductive outcome (A : Type) : Type :=
| Returned (a : A)
| Threw (e : JSError).
Arguments Threw {A} e.

(** A [Date] object: its time value, in milliseconds since the epoch, or the
    Invalid Date, whose time value is NaN. *)
Inductive JSDate : Type :=
| TimeValue (t : Z)
| InvalidDate.

(** The values [formatTimeAgo] may be handed. *)
Inductive JSValue : Type :=
| VDate (d : JSDate)
| VString (s : string)
| VNumber (z : Z)
| VUndefined.

(** A node of a parsed XML document: an element, with its local name, its
    attributes and its children in document order, or character data (text
    and CDATA sections alike). *)
#[warnings="-register-all"]
Inductive node : Type :=
| Element (localName : string) (attributes : list (string * string))
          (childNodes : list node)
| Text (data : string).

Module DOM.

(** The descendants of a node, in document order. *)
Fixpoint descendants (n : node) : list node :=
  match n with
  | Element _ _ cs => flat_map (fun c => c :: descendants c) cs
  | Text _ => []
  end.

(** [node.textContent]. *)
Fixpoint textContent (n : node) : string :=
  match n with
  | Element _ _ cs => String.concat "" (map textContent cs)
  | Text d => d
  end.

(** A selector that is a list of type selectors, as in
    ['pubDate, published, updated, date']: an element matches when its
    local name is one of them. *)
Definition matches (selector : list string) (n : node) : bool :=
  match n with
  | Element name _ _ => existsb (String.eqb name) selector
  | Text _ => false
  end.

(** [element.querySelectorAll(selector)]: the matching descendants. *)
Definition querySelectorAll (selector : list string) (n : node) : list node :=
  filter (matches selector) (descendants n).

(** [element.querySelector(selector)]: the first of them, or [null]. *)
Definition querySelector (selector : list string) (n : node) : option node :=
  hd_error (querySelectorAll selector n).

(** On the document itself the root element is a candidate too.  The
    document is given by its root element. *)
Definition document_querySelectorAll (selector : list string) (root : node)
  : list node :=
  filter (matches selector) (root :: descendants root).

Definition document_querySelector (selector : list string) (root : node)
  : option node :=
  hd_error (document_querySelectorAll selector root).

(** [element.getAttribute(name)]. *)
Definition getAttribute (name : string) (n : node) : option string :=
  match n with
  | Element _ attrs _ =>
      match find (fun a => String.eqb (fst a) name) attrs with
      | Some a => Some (snd a)
      | None => None
      end
  | Text _ => None
  end.

End DOM.

(* ================================================================== *)
(** * Configuration (lines 7-98) *)
(* ================================================================== *)

Record FeedConfig := {
  name : string;
  icon : string;
  color : string;
  tag : string;
  feeds : list string
}.

(** [RSS_FEEDS], in the order of its keys. *)
Definition RSS_FEEDS : list (string * FeedConfig) :=
  [ ("bloomberg",
     {| name := "彭博社"; icon := "📈"; color := "bloomberg"; tag := "财经热点";
        feeds := [ "https://rsshub.app/bloomberg";
                   "https://rsshub.app/bloomberg/markets";
                   "https://feeds.bloomberg.com/markets/news.rss" ] |});
    ("reuters",
     {| name := "路透社"; icon := "📡"; color := "reuters"; tag := "国际快讯";
        feeds := [ "https://rsshub.app/reuters/world";
                   "https://rsshub.app/reuters/theWire";
                   "https://www.reutersagency.com/feed/?taxonomy=best-topics&post_type=best" ] |});
    ("ap",
     {| name := "美联社"; icon := "📰"; color := "ap"; tag := "今日焦点";
        feeds := [ "https://rsshub.app/apnews/topics/apf-topnews";
                   "https://rsshub.app/apnews/topics/world-news" ] |});
    ("rfi",
     {| name := "法广"; icon := "📻"; color := "rfi"; tag := "国际视角";
        feeds := [ "https://rsshub.app/rfi/cn";
                   "https://www.rfi.fr/cn/rss" ] |});
    ("ft",
     {| name := "金融时报"; icon := "📊"; color := "ft"; tag := "深度分析";
        feeds := [ "https://rsshub.app/ft/chinese/hotstoryby7day";
                   "https://rsshub.app/ft/chinese/news" ] |});
    ("wsj",
     {| name := "华尔街日报"; icon := "💹"; color := "wsj"; tag := "财经热榜";
        feeds := [ "https://rsshub.app/wsj/en-us/world_news";
                   "https://feeds.a]dowjones.io/public/rss/RSSWorldNews" ] |});
    ("nikkei",
     {| name := "日经中文网"; icon := "🗾"; color := "nikkei"; tag := "亚洲视野";
        feeds := [ "https://rsshub.app/nikkei/cn/top";
                   "https://rsshub.app/nikkei/cn" ] |});
    ("zaobao",
     {| name := "联合早报"; icon := "🦁"; color := "zaobao"; tag := "东南亚";
        feeds := [ "https://rsshub.app/zaobao/realtime/china";
                   "https://rsshub.app/zaobao/realtime/world" ] |}) ].

(** [RSS_FEEDS[sourceKey]]: [None] stands for [undefined]. *)
Fixpoint lookup_feed (table : list (string * FeedConfig)) (sourceKey : string)
  : option FeedConfig :=
  match table with
  | [] => None
  | (k, config) :: rest =>
      if String.eqb k sourceKey then Some config else lookup_feed rest sourceKey
  end.

(** CORS proxy options: the empty prefix is the direct request. *)
Definition CORS_PROXIES : list string :=
  [ ""; "https://api.allorigins.win/raw?url="; "https://corsproxy.io/?" ].

(* ================================================================== *)
(** * The page, the host and the state of the program *)
(* ================================================================== *)

(** A parsed news item (lines 200-206). *)
Record NewsItem := {
  title : string;
  link : string;
  description : string;
  pubDate : JSDate;
  isHot : bool
}.

(** One [<li class="news-item">] of a rendered card (lines 275-281).  The
    heat figure of a hot row is random decoration and is left out.
    [row_link] is the link that line 276 writes between the quotation marks
    of [data-link]; the element has it as the value of that attribute when
    it holds no quotation mark (see [link_kept]). *)
Record NewsRow := {
  row_hot : bool;
  row_link : string;
  row_rank : nat;
  row_title : string
}.

(** The markup of a card, as the three [create...Card] functions build it:
    the [data-source] attribute, the configuration shown in the header, and
    what the body holds. *)
Inductive CardMarkup : Type :=
| NewsCard (sourceKey : string) (config : FeedConfig) (rows : list NewsRow)
           (updateTime : string)
| SkeletonCard (sourceKey : string) (config : FeedConfig)
| ErrorCard (sourceKey : string) (config : FeedConfig) (errorMsg : string).

Definition markup_source (m : CardMarkup) : string :=
  match m with
  | NewsCard k _ _ _ => k
  | SkeletonCard k _ => k
  | ErrorCard k _ _ => k
  end.

(** Whether the card has [.news-item] elements: the rows of a news card, the
    eight placeholder rows of a skeleton card, none in an error card. *)
Definition has_news_items (m : CardMarkup) : bool :=
  match m with
  | NewsCard _ _ rows _ => negb (Nat.eqb (List.length rows) 0)
  | SkeletonCard _ _ => true
  | ErrorCard _ _ _ => false
  end.

(** A card element of the page: the identity of the DOM node, the markup it
    was created from, and how many click listeners each of its news items
    carries. *)
Record CardElement := {
  node_id : nat;
  markup : CardMarkup;
  click_listeners : nat
}.

Definition data_source (c : CardElement) : string := markup_source (markup c).

Inductive ConsoleEntry : Type :=
| ConsoleLog (text : string)
| ConsoleWarn (text detail : string)
| ConsoleError (text : string).

(** What the program can change: the requests handed to [fetch] so far, the
    console, how often the clock was read, and the cards of the page in
    document order with the next unused node identity. *)
Record World := {
  requests : list string;
  console : list ConsoleEntry;
  clock_reads : nat;
  page : list CardElement;
  next_node : nat
}.

(** The body of a response, read by [response.text()]. *)
Inductive BodyRead : Type :=
| BodyText (text : string)
| BodyFailed (e : JSError).

(** How [fetch] settles: it rejects (network failure, or the abort of the
    timeout), or resolves with a response. *)
Inductive FetchResult : Type :=
| Rejected (e : JSError)
| Response (status : Z) (body : BodyRead).

(** [response.ok]. *)
Definition response_ok (status : Z) : bool :=
  (200 <=? status)%Z && (status <=? 299)%Z.

(** The browser and the network.
    - [fetch n url]: how the request number [n] of the session, for [url],
      settles.
    - [DOMParser_parseFromString text]: the root element of the document
      that [parseFromString(text, 'text/xml')] returns (on malformed input a
      document that holds a [parsererror] element).
    - [Date_parse text]: the time value of [new Date(text)], [None] for NaN.
    - [Date_now k]: the clock at its reading number [k].
    - [detached_outerHTML_throws]: setting [outerHTML] on an element that has
      no parent does nothing (the DOM standard) or throws
      NoModificationAllowedError (some engines); in neither case is the page
      changed. *)
Record Host := {
  fetch : nat -> string -> FetchResult;
  DOMParser_parseFromString : string -> node;
  Date_parse : string -> option Z;
  Date_now : nat -> Z;
  detached_outerHTML_throws : bool
}.

(* ================================================================== *)
(** * Asynchronous functions as tasks *)
(* ================================================================== *)

(** An asynchronous function is a finite tree.  [Get] and [Put] read and
    write the state between two suspension points; [Await url k] is the
    suspension at [await fetch(url, ...)], resumed by [k] with the way the
    request settled.  (The second suspension of [fetchRSS], at
    [await response.text()], touches no state and is folded into the same
    node: a [Response] carries the outcome of reading its body.) *)
Inductive task (A : Type) : Type :=
| Ret (a : A)
| Throw (e : JSError)
| Get (k : World -> task A)
| Put (w : World) (t : task A)
| Await (url : string) (k : FetchResult -> task A).
Arguments Throw {A} e.
Arguments Get {A} k.
Arguments Put {A} w t.
Arguments Await {A} url k.

Fixpoint bind {A B : Type} (t : task A) (f : A -> task B) : task B :=
  match t with
  | Ret a => f a
  | Throw e => Throw e
  | Get k => Get (fun w => bind (k w) f)
  | Put w t' => Put w (bind t' f)
  | Await url k => Await url (fun r => bind (k r) f)
  end.

(** [try { t } catch (error) { handler error }]. *)
Fixpoint try_catch {A : Type} (t : task A) (handler : JSError -> task A) : task A :=
  match t with
  | Ret a => Ret a
  | Throw e => handler e
  | Get k => Get (fun w => try_catch (k w) handler)
  | Put w t' => Put w (try_catch t' handler)
  | Await url k => Await url (fun r => try_catch (k r) handler)
  end.

Declare Scope task_scope.
Delimit Scope task_scope with task.
Bind Scope task_scope with task.
Notation "x <- t ;; k" := (bind t (fun x => k))
  (at level 61, t at next level, right associativity) : task_scope.
Notation "t ;; k" := (bind t (fun _ => k))
  (at level 61, right associativity) : task_scope.
Open Scope task_scope.

(** A synchronous change of the state. *)
Definition modify (f : World -> World) : task unit :=
  Get (fun w => Put (f w) (Ret tt)).

Definition issue (url : string) (w : World) : World :=
  {| requests := requests w ++ [url]; console := console w;
     clock_reads := clock_reads w; page := page w; next_node := next_node w |}.

Definition print (e : ConsoleEntry) (w : World) : World :=
  {| requests := requests w; console := console w ++ [e];
     clock_reads := clock_reads w; page := page w; next_node := next_node w |}.

Definition tick (n : nat) (w : World) : World :=
  {| requests := requests w; console := console w;
     clock_reads := clock_reads w + n; page := page w; next_node := next_node w |}.

Definition console_log (text : string) : task unit := modify (print (ConsoleLog text)).
Definition console_warn (text detail : string) : task unit :=
  modify (print (ConsoleWarn text detail)).
Definition console_error (text : string) : task unit :=
  modify (print (ConsoleError text)).

(** Where a task stands once it has run up to its next suspension point. *)
Inductive suspension (A : Type) : Type :=
| Finished (o : outcome A)
| Pending (url : string) (k : FetchResult -> task A).
Arguments Pending {A} url k.

(** Run a task up to its next suspension point: the code between two
    [await]s runs without interruption; at the [await] the request has been
    handed to [fetch]. *)
Fixpoint advance {A : Type} (t : task A) (w : World) : suspension A * World :=
  match t with
  | Ret a => (Finished (Returned a), w)
  | Throw e => (Finished (Threw e), w)
  | Get k => advance (k w) w
  | Put w' t' => advance t' w'
  | Await url k => (Pending url k, issue url w)
  end.

(** Run a task to its end with nothing else running in between: every
    request settles as the host says. *)
Fixpoint run (h : Host) {A : Type} (t : task A) (w : World) : outcome A * World :=
  match t with
  | Ret a => (Returned a, w)
  | Throw e => (Threw e, w)
  | Get k => run h (k w) w
  | Put w' t' => run h t' w'
  | Await url k =>
      run h (k (fetch h (List.length (requests w)) url)) (issue url w)
  end.

(* ================================================================== *)
(** * The cards of the page *)
(* ================================================================== *)

(** [document.querySelector('[data-source="sourceKey"]')]: a reference to the
    first card of that source, [None] for [null].  This is the selector on a
    page where the elements with a [data-source] attribute are the roots of
    the cards, and for a key that can stand between the quotation marks of
    the selector, as the keys of [RSS_FEEDS] can.  (A link with a quotation
    mark gives further attributes to a row of a news card, see [link_kept];
    a key with a quotation mark makes the selector invalid.) *)
Definition querySelector_card (sourceKey : string) (w : World) : option nat :=
  match find (fun c => String.eqb (data_source c) sourceKey) (page w) with
  | Some c => Some (node_id c)
  | None => None
  end.

(** Whether the referenced element is still in the page. *)
Definition attached (ref : nat) (w : World) : bool :=
  existsb (fun c => Nat.eqb (node_id c) ref) (page w).

Fixpoint replace_node (ref : nat) (new : CardElement) (cards : list CardElement)
  : list CardElement :=
  match cards with
  | [] => []
  | c :: rest =>
      if Nat.eqb (node_id c) ref then new :: rest
      else c :: replace_node ref new rest
  end.

(** The effect of [element.outerHTML = markup] on an element of the page: a
    new node, built from the markup, takes its place. *)
Definition write_outerHTML (ref : nat) (m : CardMarkup) (w : World) : World :=
  {| requests := requests w; console := console w; clock_reads := clock_reads w;
     page := replace_node ref
               {| node_id := next_node w; markup := m; click_listeners := 0 |}
               (page w);
     next_node := S (next_node w) |}.

Fixpoint listen_first (sourceKey : string) (cards : list CardElement)
  : list CardElement :=
  match cards with
  | [] => []
  | c :: rest =>
      if String.eqb (data_source c) sourceKey then
        (if has_news_items (markup c)
         then {| node_id := node_id c; markup := markup c;
                 click_listeners := S (click_listeners c) |}
         else c) :: rest
      else c :: listen_first sourceKey rest
  end.

Definition add_click_listeners (sourceKey : string) (w : World) : World :=
  {| requests := requests w; console := console w; clock_reads := clock_reads w;
     page := listen_first sourceKey (page w); next_node := next_node w |}.

Fixpoint skeletons_from (id : nat) (table : list (string * FeedConfig))
  : list CardElement :=
  match table with
  | [] => []
  | (key, config) :: rest =>
      {| node_id := id; markup := SkeletonCard key config; click_listeners := 0 |}
        :: skeletons_from (S id) rest
  end.

(** The effect of [cardsGrid.innerHTML = skeletonCards]: the cards of the
    grid are replaced by new skeleton nodes, one per source. *)
Definition reset_cards (w : World) : World :=
  {| requests := requests w; console := console w; clock_reads := clock_reads w;
     page := skeletons_from (next_node w) RSS_FEEDS;
     next_node := next_node w + List.length RSS_FEEDS |}.

(* ================================================================== *)
(** * The program *)
(* ================================================================== *)

(** [Array.prototype.forEach] (and [NodeList.prototype.forEach]), with the
    state the callback works on made explicit. *)
Fixpoint forEach {A S : Type} (callback : A -> nat -> S -> S) (l : list A)
  (index : nat) (s : S) : S :=
  match l with
  | [] => s
  | x :: rest => forEach callback rest (Datatypes.S index) (callback x index s)
  end.

(** Lines 216-234.  [now] is what [new Date()] returns at line 221. *)
Definition formatTimeAgo (now : Z) (date : JSValue) : string :=
  match date with
  | VDate (TimeValue t) =>
      let diffMs := (now - t)%Z in
      let diffMins := (diffMs / 60000)%Z in
      if (diffMins <? 0)%Z then "刚刚更新"
      else if (diffMins <? 1)%Z then "刚刚更新"
      else if (diffMins <? 60)%Z then JSString.of_Z diffMins ++ "分钟前更新"
      else
        let diffHours := (diffMins / 60)%Z in
        if (diffHours <? 24)%Z then JSString.of_Z diffHours ++ "小时前更新"
        else
          let diffDays := (diffHours / 24)%Z in
          JSString.of_Z diffDays ++ "天前更新"
  | _ => "刚刚更新"
  end.

(** Whether [formatTimeAgo] gets past its guard, and so reads the clock. *)
Definition is_valid_date (date : JSValue) : bool :=
  match date with
  | VDate (TimeValue _) => true
  | _ => false
  end.

(** Lines 270-301. *)
Fixpoint news_rows (items : list NewsItem) (index : nat) : list NewsRow :=
  match items with
  | [] => []
  | item :: rest =>
      {| row_hot := isHot item; row_link := link item;
         row_rank := index + 1; row_title := title item |}
        :: news_rows rest (S index)
  end.

Definition createNewsCard (sourceKey : string) (config : FeedConfig)
  (items : list NewsItem) (updateTime : string) : CardMarkup :=
  NewsCard sourceKey config (news_rows items 0) updateTime.

(** Lines 306-329. *)
Definition createSkeletonCard (sourceKey : string) (config : FeedConfig) : CardMarkup :=
  SkeletonCard sourceKey config.

(** Lines 334-352. *)
Definition createErrorCard (sourceKey : string) (config : FeedConfig)
  (errorMsg : string) : CardMarkup :=
  ErrorCard sourceKey config errorMsg.

Section Program.

Variable h : Host.

(** [new Date(text)]: never throws; an unparseable text gives the Invalid
    Date. *)
Definition new_Date_of_string (text : string) : JSDate :=
  match Date_parse h text with
  | Some t => TimeValue t
  | None => InvalidDate
  end.

(** The callback of lines 168-208.  Its state is the [items] array and the
    number of readings of the clock made so far. *)
Definition parseRSS_callback (item : node) (index : nat)
  (st : list NewsItem * nat) : list NewsItem * nat :=
  let (items, reads) := st in
  if Nat.leb 8 index then st
  else
    let titleEl := DOM.querySelector ["title"] item in
    let title0 :=
      match titleEl with
      | Some el => JSString.trim (DOM.textContent el)
      | None => ""
      end in
    let title1 := JSString.trim (JSString.replace_cdata title0) in
    let link1 :=
      match DOM.querySelector ["link"] item with
      | Some linkEl =>
          match DOM.getAttribute "href" linkEl with
          | Some href =>
              if JSString.truthy href then href
              else JSString.trim (DOM.textContent linkEl)
          | None => JSString.trim (DOM.textContent linkEl)
          end
      | None => ""
      end in
    let descEl := DOM.querySelector ["description"; "summary"; "content"] item in
    let description0 :=
      match descEl with
      | Some el => JSString.trim (DOM.textContent el)
      | None => ""
      end in
    let description1 := JSString.trim (JSString.replace_cdata description0) in
    let pubDateEl :=
      DOM.querySelector ["pubDate"; "published"; "updated"; "date"] item in
    let pubDate0 := TimeValue (Date_now h reads) in
    let pubDate1 :=
      match pubDateEl with
      | Some el => new_Date_of_string (DOM.textContent el)
      | None => pubDate0
      end in
    (if JSString.truthy title1
     then items ++ [ {| title := title1; link := link1;
                        description := description1; pubDate := pubDate1;
                        isHot := Nat.ltb index 3 |} ]
     else items,
     S reads).

(** The elements [parseRSS] walks: the [item] elements of the document, or
    its [entry] elements when it has no [item] (lines 161-166). *)
Definition itemElements_of (xmlDoc : node) : list node :=
  let itemElements := DOM.document_querySelectorAll ["item"] xmlDoc in
  if Nat.eqb (List.length itemElements) 0
  then DOM.document_querySelectorAll ["entry"] xmlDoc
  else itemElements.

(** Lines 148-211.  [reads] is the number of readings of the clock before
    the call; the result comes with that number after it. *)
Definition parseRSS (reads : nat) (xmlText : string)
  : outcome (list NewsItem) * nat :=
  let xmlDoc := DOMParser_parseFromString h xmlText in
  match DOM.document_querySelector ["parsererror"] xmlDoc with
  | Some _ => (Threw (Error "Failed to parse RSS XML"), reads)
  | None =>
      let (items, reads') :=
        forEach parseRSS_callback (itemElements_of xmlDoc) 0 ([], reads) in
      (Returned items, reads')
  end.

Definition set_clock_reads (n : nat) (w : World) : World :=
  {| requests := requests w; console := console w; clock_reads := n;
     page := page w; next_node := next_node w |}.

(** A call of [parseRSS] inside a task. *)
Definition call_parseRSS (xmlText : string) : task (list NewsItem) :=
  Get (fun w =>
    let (r, reads') := parseRSS (clock_reads w) xmlText in
    Put (set_clock_reads reads' w)
      match r with
      | Returned items => Ret items
      | Threw e => Throw e
      end).

(** [new Date()]. *)
Definition new_Date : task JSDate :=
  Get (fun w => Put (tick 1 w) (Ret (TimeValue (Date_now h (clock_reads w))))).

(** A call of [formatTimeAgo] inside a task: the clock is read once the
    guard of line 217 is passed. *)
Definition call_formatTimeAgo (date : JSValue) : task string :=
  Get (fun w =>
    let text := formatTimeAgo (Date_now h (clock_reads w)) date in
    if is_valid_date date then Put (tick 1 w) (Ret text) else Ret text).

(** Lines 103-126.  The timer only decides when the request is aborted;
    an aborted request is a rejected one. *)
Definition fetchRSS (url : string) : task string :=
  try_catch
    (Await url (fun response =>
       match response with
       | Rejected e => Throw e
       | Response status body =>
           if negb (response_ok status)
           then Throw (Error ("HTTP error! status: " ++ JSString.of_Z status))
           else
             match body with
             | BodyText text => Ret text
             | BodyFailed e => Throw e
             end
       end))
    (fun error => Throw error).

(** Line 134. *)
Definition fetchUrl_of (proxy url : string) : string :=
  if JSString.truthy proxy then proxy ++ JSString.encodeURIComponent url else url.

(** Lines 131-143: the loop over the remaining proxies. *)
Fixpoint fetchWithProxy_loop (proxies : list string) (url : string) : task string :=
  match proxies with
  | [] => Throw (Error "All proxies failed")
  | proxy :: rest =>
      try_catch
        (let fetchUrl := fetchUrl_of proxy url in
         result <- fetchRSS fetchUrl ;;
         Ret result)
        (fun error =>
           console_warn ("Proxy failed for " ++ url ++ ":") (message error) ;;
           fetchWithProxy_loop rest url)
  end.

Definition fetchWithProxy (url : string) : task string :=
  fetchWithProxy_loop CORS_PROXIES url.

(** [element.outerHTML = markup]. *)
Definition set_outerHTML (ref : nat) (m : CardMarkup) : task unit :=
  Get (fun w =>
    if attached ref w then Put (write_outerHTML ref m w) (Ret tt)
    else if detached_outerHTML_throws h
         then Throw (mkError "NoModificationAllowedError"
                             "This element has no parent node.")
         else Ret tt).

(** Lines 419-432. *)
Definition initNewsItemClickHandlers (sourceKey : string) : task unit :=
  modify (add_click_listeners sourceKey).

(** [lastError?.message || 'Unknown error'] (line 397). *)
Definition error_message_or_unknown (lastError : option JSError) : string :=
  match lastError with
  | Some e => if JSString.truthy (message e) then message e else "Unknown error"
  | None => "Unknown error"
  end.

(** Lines 365-400: the loop over the remaining feed URLs, then the error
    card. *)
Fixpoint fetchAndRenderSource_loop (sourceKey : string) (config : FeedConfig)
  (cardElement : nat) (feedUrls : list string) (lastError : option JSError)
  : task bool :=
  match feedUrls with
  | [] =>
      let errorCard :=
        createErrorCard sourceKey config (error_message_or_unknown lastError) in
      set_outerHTML cardElement errorCard ;;
      console_error ("❌ " ++ name config ++ ": All fetch attempts failed") ;;
      Ret false
  | feedUrl :: rest =>
      try_catch
        (console_log ("📡 Fetching " ++ name config ++ " from " ++ feedUrl ++ "...") ;;
         xmlText <- fetchWithProxy feedUrl ;;
         items <- call_parseRSS xmlText ;;
         (if Nat.eqb (List.length items) 0
          then Throw (Error "No items found in feed")
          else Ret tt) ;;
         latestDate <- match items with
                       | first :: _ => Ret (pubDate first)
                       | [] => new_Date
                       end ;;
         updateTime <- call_formatTimeAgo (VDate latestDate) ;;
         let newCard := createNewsCard sourceKey config items updateTime in
         set_outerHTML cardElement newCard ;;
         initNewsItemClickHandlers sourceKey ;;
         console_log ("✅ " ++ name config ++ ": Loaded "
                      ++ JSString.of_Z (Z.of_nat (List.length items)) ++ " items") ;;
         Ret true)
        (fun error =>
           console_warn ("❌ Failed to fetch " ++ name config ++ " from "
                         ++ feedUrl ++ ":") (message error) ;;
           fetchAndRenderSource_loop sourceKey config cardElement rest (Some error))
  end.

(** Lines 357-401.  With a card in the page and no configuration for the
    key, reading [config.feeds] throws a TypeError (its message is the
    engine's). *)
Definition fetchAndRenderSource (sourceKey : string) : task bool :=
  let config := lookup_feed RSS_FEEDS sourceKey in
  Get (fun w =>
    match querySelector_card sourceKey w with
    | None => Ret false
    | Some cardElement =>
        match config with
        | None =>
            Throw (mkError "TypeError"
                     "Cannot read properties of undefined (reading 'feeds')")
        | Some config =>
            fetchAndRenderSource_loop sourceKey config cardElement
              (feeds config) None
        end
    end).

(** Lines 406-414. *)
Definition retryFeed (sourceKey : string) : task unit :=
  let config := lookup_feed RSS_FEEDS sourceKey in
  Get (fun w =>
    match config with
    | None =>
        Throw (mkError "TypeError"
                 "Cannot read properties of undefined (reading 'color')")
    | Some config =>
        match querySelector_card sourceKey w with
        | None =>
            Throw (mkError "TypeError"
                     "Cannot set properties of null (setting 'outerHTML')")
        | Some cardElement =>
            set_outerHTML cardElement (createSkeletonCard sourceKey config) ;;
            fetchAndRenderSource sourceKey ;;
            Ret tt
        end
    end).

(** Lines 437-446. *)
Definition initializeCards : task unit := modify reset_cards.

End Program.

(* ================================================================== *)
(** * The event loop: calls in flight *)
(* ================================================================== *)

(** Lines 455-457: [Object.keys(RSS_FEEDS).map(fetchAndRenderSource)] runs
    each call, in the order of the keys, up to its first suspension point. *)
Fixpoint launch (h : Host) (keys : list string) (w : World)
  : list (suspension bool) * World :=
  match keys with
  | [] => ([], w)
  | key :: rest =>
      let (s, w1) := advance (fetchAndRenderSource h key) w in
      let (ss, w2) := launch h rest w1 in
      (s :: ss, w2)
  end.

(** Lines 451-457: the synchronous part of [fetchAllSources]. *)
Definition fetchAllSources_launch (h : Host) (w : World)
  : list (suspension bool) * World :=
  launch h (map fst RSS_FEEDS)
    (print (ConsoleLog "🌐 Fetching news from all sources...") w).

(** The request of a call in flight settles as [r], and the call then runs
    to its end with nothing else in between, its later requests settling as
    the host [h] says. *)
Definition complete (h : Host) {A : Type} (r : FetchResult) (s : suspension A)
  (w : World) : outcome A * World :=
  match s with
  | Finished o => (o, w)
  | Pending _ k => run h (k r) w
  end.

(* ================================================================== *)
(** * What the parser makes of one entry *)
(* ================================================================== *)

(** The title the callback computes for an entry (lines 172-176). *)
Definition entry_title (item : node) : string :=
  JSString.trim
    (JSString.replace_cdata
       match DOM.querySelector ["title"] item with
       | Some el => JSString.trim (DOM.textContent el)
       | None => ""
       end).

(** The date the callback computes for an entry (lines 191-197), [now] being
    the reading of the clock at line 192. *)
Definition entry_pubDate (h : Host) (now : Z) (item : node) : JSDate :=
  match DOM.querySelector ["pubDate"; "published"; "updated"; "date"] item with
  | Some el => new_Date_of_string h (DOM.textContent el)
  | None => TimeValue now
  end.

(** The items pushed for the entries [l], which sit at the raw positions
    [index], [index + 1], ... of the node list, the clock having been read
    [reads] times before. *)
Fixpoint collect (h : Host) (reads index : nat) (l : list node) : list NewsItem :=
  match l with
  | [] => []
  | e :: rest =>
      (if JSString.truthy (entry_title e)
       then fst (parseRSS_callback h e index ([], reads))
       else [])
        ++ collect h (S reads) (S index) rest
  end.

(** The raw positions of the entries that are kept. *)
Fixpoint kept_positions (index : nat) (l : list node) : list nat :=
  match l with
  | [] => []
  | e :: rest =>
      (if JSString.truthy (entry_title e) then [index] else [])
        ++ kept_positions (S index) rest
  end.

(* ================================================================== *)
(** * Test fixtures *)
(* ================================================================== *)

Module Fixture.

(** An RSS 2.0 [<item>] with a title and a link. *)
Definition rss_item (t : string) : node :=
  Element "item" []
    [ Element "title" [] [Text t];
      Element "link" [] [Text "https://example.org/story"] ].

Definition rss_item_dated (t date : string) : node :=
  Element "item" []
    [ Element "title" [] [Text t];
      Element "link" [] [Text "https://example.org/story"];
      Element "pubDate" [] [Text date] ].

(** An RSS 2.0 document: the channel has a title of its own. *)
Definition rss (entries : list node) : node :=
  Element "rss" [("version", "2.0")]
    [ Element "channel" []
        (Element "title" [] [Text "Example feed"] :: entries) ].

(** What browsers return for text that is not XML. *)
Definition parsererror_document : node :=
  Element "parsererror" [] [Text "XML Parsing Error: syntax error"].

Definition ten_items : node :=
  rss (map rss_item
         ["a0"; "a1"; "a2"; "a3"; "a4"; "a5"; "a6"; "a7"; "a8"; "a9"]).

(** Five entries, the one at position 2 with a title of white space. *)
Definition five_items_third_blank : node :=
  rss (map rss_item ["b0"; "b1"; "  "; "b3"; "b4"]).

(** Eight entries, the one at position 5 without text in its title. *)
Definition eight_items_one_blank : node :=
  rss (map rss_item ["c0"; "c1"; "c2"; "c3"; "c4"; ""; "c6"; "c7"]).

Definition undated_and_misdated : node :=
  rss [ rss_item "d0"; rss_item_dated "d1" "not a date";
        rss_item_dated "d2" "1970-01-01T00:00:01.000Z" ].

Definition no_entries : node := rss [].

Definition only_blank_titles : node := rss (map rss_item [""; " "]).

Definition documents : list (string * node) :=
  [ ("<ten items/>", ten_items);
    ("<five items, third blank/>", five_items_third_blank);
    ("<eight items, one blank/>", eight_items_one_blank);
    ("<undated and misdated/>", undated_and_misdated);
    ("<no entries/>", no_entries);
    ("<only blank titles/>", only_blank_titles) ].

Fixpoint document_of (table : list (string * node)) (text : string) : node :=
  match table with
  | [] => parsererror_document
  | (t, d) :: rest => if String.eqb t text then d else document_of rest text
  end.

(** A date parser for the one format every engine must accept, on the two
    instants the fixtures use. *)
Definition parse_date (text : string) : option Z :=
  if String.eqb text "1970-01-01T00:00:00.000Z" then Some 0%Z
  else if String.eqb text "1970-01-01T00:00:01.000Z" then Some 1000%Z
  else None.

(** A host for the examples: the documents above stand for the texts that
    name them, every other text is malformed; the clock advances by one
    millisecond per reading from a fixed instant; requests settle as
    [net] says. *)
Definition host (net : nat -> string -> FetchResult) (throws : bool) : Host :=
  {| fetch := net;
     DOMParser_parseFromString := document_of documents;
     Date_parse := parse_date;
     Date_now := fun k => (1700000000000 + Z.of_nat k)%Z;
     detached_outerHTML_throws := throws |}.

Definition offline : nat -> string -> FetchResult :=
  fun _ _ => Rejected (mkError "TypeError" "Failed to fetch").

Definition empty_world : World :=
  {| requests := []; console := []; clock_reads := 0; page := []; next_node := 0 |}.

(** The page once [initializeCards] has run on an empty grid. *)
Definition initial_world : World := reset_cards empty_world.

End Fixture.

(* ================================================================== *)
(** * Traces of the transport layer *)
(* ================================================================== *)

(** What a settled request gives the caller of [fetchRSS]. *)
Definition settled (r : FetchResult) : outcome string :=
  match r with
  | Rejected e => Threw e
  | Response status body =>
      if negb (response_ok status)
      then Threw (Error ("HTTP error! status: " ++ JSString.of_Z status))
      else
        match body with
        | BodyText text => Returned text
        | BodyFailed e => Threw e
        end
  end.

(** Requesting [urls] one after the other, the first as request number [n],
    up to and including the first request that succeeds: each URL requested,
    with how its request ended. *)
Fixpoint attempts (h : Host) (n : nat) (urls : list string)
  : list (string * outcome string) :=
  match urls with
  | [] => []
  | u :: rest =>
      let o := settled (fetch h n u) in
      (u, o) :: match o with
                | Returned _ => []
                | Threw _ => attempts h (S n) rest
                end
  end.

(** The warnings of lines 137-139, one per failed attempt of a trace. *)
Fixpoint proxy_warnings (url : string) (trace : list (string * outcome string))
  : list ConsoleEntry :=
  match trace with
  | [] => []
  | (_, Returned _) :: rest => proxy_warnings url rest
  | (_, Threw e) :: rest =>
      ConsoleWarn ("Proxy failed for " ++ url ++ ":") (message e)
        :: proxy_warnings url rest
  end.

(** The body of the attempt that succeeded, if one did. *)
Fixpoint trace_body (trace : list (string * outcome string)) : option string :=
  match trace with
  | [] => None
  | (_, Returned body) :: _ => Some body
  | (_, Threw _) :: rest => trace_body rest
  end.

(** The error of the last attempt of a trace in which every attempt failed. *)
Fixpoint trace_last_error (trace : list (string * outcome string)) : option JSError :=
  match trace with
  | [] => None
  | [(_, Threw e)] => Some e
  | _ :: rest => trace_last_error rest
  end.

Definition log (urls : list string) (entries : list ConsoleEntry) (w : World) : World :=
  {| requests := requests w ++ urls; console := console w ++ entries;
     clock_reads := clock_reads w; page := page w; next_node := next_node w |}.

(** A task that requests [urls] one at a time and in this order: it hands
    the first URL to [fetch] and is suspended; resumed with a success it
    finishes with that body without another request; resumed with a failure
    it goes on in the same way with the remaining URLs; with no URL left it
    finishes by throwing, without a request. *)
Fixpoint one_at_a_time (urls : list string) (t : task string) : Prop :=
  match urls with
  | [] => forall w, exists e w', advance t w = (Finished (Threw e), w')
                                 /\ requests w' = requests w
  | u :: rest =>
      forall w, exists k w',
        advance t w = (Pending u k, w')
        /\ requests w' = requests w ++ [u]
        /\ forall r,
             match settled r with
             | Returned body =>
                 forall w1, advance (k r) w1 = (Finished (Returned body), w1)
             | Threw _ => one_at_a_time rest (k r)
             end
  end.

(* ================================================================== *)
(** * Traces of the resolver *)
(* ================================================================== *)

(** Lines 369-374: the attempt on one endpoint, up to its items. *)
Definition attempt_endpoint (h : Host) (feedUrl : string) : task (list NewsItem) :=
  xmlText <- fetchWithProxy feedUrl ;;
  items <- call_parseRSS h xmlText ;;
  (if Nat.eqb (List.length items) 0
   then Throw (Error "No items found in feed")
   else Ret tt) ;;
  Ret items.

(** The walk of [fetchAndRenderSource] over its feed URLs, run from [w] with
    nothing in between: the items of the first endpoint that yields some,
    or else no items; the last error caught on the way; the state in which
    the walk ends. *)
Fixpoint endpoint_walk (h : Host) (config : FeedConfig) (feedUrls : list string)
  (lastError : option JSError) (w : World)
  : option (list NewsItem) * option JSError * World :=
  match feedUrls with
  | [] => (None, lastError, w)
  | feedUrl :: rest =>
      match
        run h (attempt_endpoint h feedUrl)
          (print (ConsoleLog ("📡 Fetching " ++ name config ++ " from "
                              ++ feedUrl ++ "...")) w)
      with
      | (Returned items, w1) => (Some items, lastError, w1)
      | (Threw e, w1) =>
          endpoint_walk h config rest (Some e)
            (print (ConsoleWarn ("❌ Failed to fetch " ++ name config ++ " from "
                                 ++ feedUrl ++ ":") (message e)) w1)
      end
  end.


(** The card shown for a source: the first one with its key. *)
Definition card_of (sourceKey : string) (w : World) : option CardElement :=
  find (fun c => String.eqb (data_source c) sourceKey) (page w).

(** The state after the rendering of lines 376-387, from the state [w] in
    which the items were parsed. *)
Definition rendered (h : Host) (sourceKey : string) (config : FeedConfig)
  (cardElement : nat) (items : list NewsItem) (w : World) : World :=
  let latestDate :=
    match items with
    | first :: _ => pubDate first
    | [] => TimeValue (Date_now h (clock_reads w))
    end in
  let w1 := match items with [] => tick 1 w | _ => w end in
  let updateTime := formatTimeAgo (Date_now h (clock_reads w1)) (VDate latestDate) in
  let w2 := if is_valid_date (VDate latestDate) then tick 1 w1 else w1 in
  print (ConsoleLog ("✅ " ++ name config ++ ": Loaded "
                     ++ JSString.of_Z (Z.of_nat (List.length items)) ++ " items"))
    (add_click_listeners sourceKey
       (write_outerHTML cardElement
          (createNewsCard sourceKey config items updateTime) w2)).

(** The state after the error card of lines 397-399. *)
Definition failed (sourceKey : string) (config : FeedConfig) (cardElement : nat)
  (lastError : option JSError) (w : World) : World :=
  print (ConsoleError ("❌ " ++ name config ++ ": All fetch attempts failed"))
    (write_outerHTML cardElement
       (createErrorCard sourceKey config (error_message_or_unknown lastError)) w).

(** The nodes of the page are distinct, and older than [next_node]. *)
Definition well_formed (w : World) : Prop :=
  NoDup (map node_id (page w))
  /\ Forall (fun c => node_id c < next_node w) (page w).

(* ================================================================== *)
(** * Overlapping cycles *)
(* ================================================================== *)

(** What the page shows: the markup of its cards, in order. *)
Definition shown (w : World) : list CardMarkup := map markup (page w).

(** A change of state that leaves every card in place with its markup. *)
Definition quiet (w w' : World) : Prop :=
  shown w' = shown w /\ map node_id (page w') = map node_id (page w).

(** A task all of whose writes, made while the element [c] is out of the
    page, are quiet.  The state in which the task is resumed after an
    [await] is arbitrary: other calls may have run in between. *)
Fixpoint safe (c : nat) {A : Type} (t : task A) (w : World) : Prop :=
  match t with
  | Ret _ => True
  | Throw _ => True
  | Get k => safe c (k w) w
  | Put w' t' => (attached c w = false -> quiet w w') /\ safe c t' w'
  | Await _ k => forall r w', safe c (k r) w'
  end.

(** The changes of the page that the program makes.
    - A write through a reference: the markup written carries the key under
      which the reference was found, and a node keeps its key for life, so
      the node replaced, if the reference is still in the page, has the key
      of the markup.
    - The reset of the grid by [initializeCards].
    - The click listeners of [initNewsItemClickHandlers].
    - Anything that leaves the page alone (requests, console, clock). *)
Inductive mutation (w : World) : World -> Prop :=
| mutation_write (ref : nat) (m : CardMarkup) :
    (forall c, In c (page w) -> node_id c = ref -> data_source c = markup_source m) ->
    mutation w (write_outerHTML ref m w)
| mutation_reset : mutation w (reset_cards w)
| mutation_listeners (sourceKey : string) :
    mutation w (add_click_listeners sourceKey w)
| mutation_elsewhere (w' : World) :
    page w' = page w -> next_node w' = next_node w -> mutation w w'.

(** Any number of such changes, in any order. *)
Inductive evolves (w : World) : World -> Prop :=
| evolves_refl : evolves w w
| evolves_step (w1 w2 : World) : evolves w w1 -> mutation w1 w2 -> evolves w w2.

(** The titles on the card of a source, when it is a news card. *)
Definition titles_shown (sourceKey : string) (w : World) : list string :=
  match option_map markup (card_of sourceKey w) with
  | Some (NewsCard _ _ rows _) => map row_title rows
  | _ => []
  end.

(** A task all of whose writes are changes of the page that the program
    makes, as long as the node [c], if it is in the page, has the key
    [sourceKey]. *)
Fixpoint tame (c : nat) (sourceKey : string) {A : Type} (t : task A) (w : World)
  : Prop :=
  match t with
  | Ret _ => True
  | Throw _ => True
  | Get k => tame c sourceKey (k w) w
  | Put w' t' =>
      ((forall d, In d (page w) -> node_id d = c -> data_source d = sourceKey) ->
       mutation w w')
      /\ tame c sourceKey t' w'
  | Await _ k => forall r w', tame c sourceKey (k r) w'
  end.

(** What holds of the card element [c] that a call for [sourceKey] found
    when it started, as the page evolves: nodes are distinct and older than
    [next_node]; [c] has been created; and if [c] is still in the page, it
    is still the card of the source. *)
Definition held (c : nat) (sourceKey : string) (w : World) : Prop :=
  well_formed w
  /\ c < next_node w
  /\ (attached c w = true -> querySelector_card sourceKey w = Some c).

(** The node [c] has been created and, if it is in the page, has the key
    [sourceKey]. *)
Definition keyed (c : nat) (sourceKey : string) (w : World) : Prop :=
  c < next_node w
  /\ forall d, In d (page w) -> node_id d = c -> data_source d = sourceKey.

(* ================================================================== *)
(** * Calls in flight, in general *)
(* ================================================================== *)


(** A call from its start to its end, with the rest of the program running
    at its suspension points.  [unfolds between t w rs o w']: started in the
    state [w], the task [t] ends with the outcome [o] in the state [w'];
    [rs] are the ways in which its requests settled, in their order; the
    state in which a request is handed to [fetch] and the state in which
    the call is resumed are related by [between]. *)
Inductive unfolds (between : World -> World -> Prop) {A : Type}
  : task A -> World -> list FetchResult -> outcome A -> World -> Prop :=
| unfolds_finished (t : task A) (w : World) (o : outcome A) (w' : World) :
    advance t w = (Finished o, w') -> unfolds between t w [] o w'
| unfolds_pending (t : task A) (w : World) (url : string)
    (k : FetchResult -> task A) (w1 : World) (r : FetchResult) (w2 : World)
    (rs : list FetchResult) (o : outcome A) (w' : World) :
    advance t w = (Pending url k, w1) ->
    between w1 w2 ->
    unfolds between (k r) w2 rs o w' ->
    unfolds between t w (r :: rs) o w'.


(* ================================================================== *)
(** * Further definitions: orders of requests, listeners, escaping *)
(* ================================================================== *)

(** The requests of the access strategies for one endpoint, in the order of
    [CORS_PROXIES]. *)
Definition strategies (feedUrl : string) : list string :=
  map (fun proxy => fetchUrl_of proxy feedUrl) CORS_PROXIES.

(** Requests that go through the endpoints in their order, each endpoint at
    most once, with for each endpoint reached its strategies from the first
    on, in their order. *)
Inductive tried_in_order : list string -> list string -> Prop :=
| tried_none (feedUrls : list string) : tried_in_order feedUrls []
| tried_next (feedUrl : string) (rest : list string) (k : nat) (rs : list string) :
    1 <= k ->
    tried_in_order rest rs ->
    tried_in_order (feedUrl :: rest) (firstn k (strategies feedUrl) ++ rs).

(** A card element with one more click listener on each of its news items,
    when it has any (lines 423-431). *)
Definition with_listener (d : CardElement) : CardElement :=
  if has_news_items (markup d)
  then {| node_id := node_id d; markup := markup d;
          click_listeners := S (click_listeners d) |}
  else d.

(** The first request of a cycle for one source: the first endpoint of its
    configuration, when the source has a card in the page. *)
Definition first_request (w : World) (entry : string * FeedConfig) : list string :=
  match querySelector_card (fst entry) w with
  | Some _ => firstn 1 (feeds (snd entry))
  | None => []
  end.

(** Lines 261-265.  The text becomes the only child, a text node, of a new
    [div], and the markup of the [div] is read back.  The serialisation of a
    text node replaces four characters and no other: the ampersand, the two
    angle brackets and the no-break space (U+00A0, the bytes 194 160 of
    UTF-8).  Quotation marks are replaced in attribute values only, not in
    a text node. *)
Fixpoint escapeHtml (text : string) : string :=
  match text with
  | EmptyString => EmptyString
  | String c rest =>
      if Ascii.eqb c "&" then "&amp;" ++ escapeHtml rest
      else if Ascii.eqb c "<" then "&lt;" ++ escapeHtml rest
      else if Ascii.eqb c ">" then "&gt;" ++ escapeHtml rest
      else
        match rest with
        | String d rest' =>
            if Ascii.eqb c (ascii_of_nat 194) && Ascii.eqb d (ascii_of_nat 160)
            then "&nbsp;" ++ escapeHtml rest'
            else String c (escapeHtml rest)
        | EmptyString => String c EmptyString
        end
  end.

(** The number of quotation marks (U+0022) in a string. *)
Definition quotation_marks (s : string) : nat :=
  List.length (filter (Ascii.eqb (ascii_of_nat 34)) (list_ascii_of_string s)).






(* ================================================================== *)
(** * Pages that their cards describe in full *)
(* ================================================================== *)

(** Line 276 writes [escapeHtml(item.link)] between quotation marks, as the
    value of the [data-link] attribute of a row, and [escapeHtml] leaves
    quotation marks as they are.  A link without quotation mark is read
    back as it is, and the row has the attributes that line 276 names and
    no other.  A link that holds one ends the value early, and what follows
    it is read as further attributes of the row, a [data-source] among them
    if the link says so: the row of a [NewsCard], which keeps the whole link
    and nothing else, then no longer describes the element in the page. *)
Definition link_kept (link : string) : Prop := quotation_marks link = 0.

Definition markup_kept (m : CardMarkup) : Prop :=
  match m with
  | NewsCard _ _ rows _ => Forall (fun row => link_kept (row_link row)) rows
  | SkeletonCard _ _ => True
  | ErrorCard _ _ _ => True
  end.

(** A page that its cards describe in full: no row has a link with a
    quotation mark. *)
Definition plain (w : World) : Prop := Forall markup_kept (shown w).




(** [keeps P t w Q]: every write of the task [t], taken up in the state [w]
    and resumed after each [await] in any state, leads from a state of
    which [P] holds to a state of which [P] holds; and [Q] holds of the
    value that the task returns, if it returns one. *)
Fixpoint keeps (P : World -> Prop) {A : Type} (t : task A) (w : World)
  (Q : A -> Prop) : Prop :=
  match t with
  | Ret a => Q a
  | Throw _ => True
  | Get k => keeps P (k w) w Q
  | Put w' t' => (P w -> P w') /\ keeps P t' w' Q
  | Await _ k => forall r w', keeps P (k r) w' Q
  end.




Unset Implicit Arguments.

(* ================================================================== *)
(** * Strings *)
(* ================================================================== *)

Example trim_example : JSString.trim "  Hello world
 " = "Hello world".
Proof. reflexivity. Qed.

Example trim_blank_example : JSString.trim "   " = "".
Proof. reflexivity. Qed.

(** A no-break space (U+00A0) is white space too. *)
Example trim_nbsp_example :
  JSString.trim (JSString.bytes [194; 160; 72; 105; 32]) = "Hi".
Proof. reflexivity. Qed.

Example replace_cdata_example :
  JSString.replace_cdata "<![CDATA[ Markets rally ]]>" = " Markets rally ".
Proof. reflexivity. Qed.

Example replace_cdata_too_short :
  JSString.replace_cdata "<![CDATA[]>" = "<![CDATA[]>".
Proof. reflexivity. Qed.

Example encodeURIComponent_example :
  JSString.encodeURIComponent "https://rsshub.app/ap?x=1"
  = "https%3A%2F%2Frsshub.app%2Fap%3Fx%3D1".
Proof. reflexivity. Qed.

(* ================================================================== *)
(** * The feed parser *)
(* ================================================================== *)

Section Parser.

Variable h : Host.

(** What the callback does with an entry inside the window. *)
Lemma parseRSS_callback_inside (item : node) (index : nat)
  (items : list NewsItem) (reads : nat) :
  index < 8 ->
  parseRSS_callback h item index (items, reads)
  = (if JSString.truthy (entry_title item)
     then items ++ fst (parseRSS_callback h item index ([], reads))
     else items,
     S reads).
Proof.
  intros Hi. unfold parseRSS_callback.
  destruct (Nat.leb_spec 8 index) as [Hge | _]; [lia |].
  fold (entry_title item).
  destruct (JSString.truthy (entry_title item)); reflexivity.
Qed.

(** Past the window the callback returns at once. *)
Lemma parseRSS_callback_outside (item : node) (index : nat)
  (st : list NewsItem * nat) :
  8 <= index -> parseRSS_callback h item index st = st.
Proof.
  intros Hi. unfold parseRSS_callback. destruct st as [items reads].
  destruct (Nat.leb_spec 8 index); [reflexivity | lia].
Qed.

Lemma forEach_outside (l : list node) (index : nat) (st : list NewsItem * nat) :
  8 <= index -> forEach (parseRSS_callback h) l index st = st.
Proof.
  revert index st. induction l as [| e l IH]; intros index st Hi; cbn [forEach].
  - reflexivity.
  - rewrite parseRSS_callback_outside by assumption. apply IH. lia.
Qed.

(** The item pushed for a kept entry. *)
Lemma pushed_item (item : node) (index reads : nat) :
  index < 8 -> JSString.truthy (entry_title item) = true ->
  exists x,
    fst (parseRSS_callback h item index ([], reads)) = [x]
    /\ title x = entry_title item
    /\ isHot x = Nat.ltb index 3
    /\ pubDate x = entry_pubDate h (Date_now h reads) item.
Proof.
  intros Hi Ht. unfold parseRSS_callback.
  destruct (Nat.leb_spec 8 index) as [Hge | _]; [lia |].
  fold (entry_title item). rewrite Ht. simpl.
  eexists. split; [reflexivity |]. simpl. repeat split.
Qed.

(** The whole walk only sees the first eight entries. *)
Lemma forEach_collect (l : list node) (index : nat) (items : list NewsItem)
  (reads : nat) :
  forEach (parseRSS_callback h) l index (items, reads)
  = (items ++ collect h reads index (firstn (8 - index) l),
     reads + List.length (firstn (8 - index) l)).
Proof.
  revert index items reads.
  induction l as [| e l IH]; intros index items reads; cbn [forEach].
  - rewrite firstn_nil. simpl. rewrite app_nil_r, Nat.add_0_r. reflexivity.
  - destruct (Nat.lt_ge_cases index 8) as [Hlt | Hge].
    + rewrite parseRSS_callback_inside by assumption.
      replace (8 - index) with (S (8 - S index)) by lia.
      cbn [firstn collect List.length].
      destruct (JSString.truthy (entry_title e)).
      * rewrite IH. rewrite <- app_assoc. f_equal. lia.
      * rewrite IH. cbn [app]. f_equal. lia.
    + rewrite parseRSS_callback_outside by assumption.
      rewrite forEach_outside by lia.
      replace (8 - index) with 0 by lia. simpl.
      rewrite app_nil_r, Nat.add_0_r. reflexivity.
Qed.

Lemma collect_length (reads index : nat) (l : list node) :
  index + List.length l <= 8 ->
  List.length (collect h reads index l)
  = List.length (filter (fun e => JSString.truthy (entry_title e)) l).
Proof.
  revert reads index.
  induction l as [| e l IH]; intros reads index Hl; cbn [collect filter].
  - reflexivity.
  - cbn [List.length] in Hl. rewrite length_app, IH by lia.
    destruct (JSString.truthy (entry_title e)) eqn:Ht.
    + destruct (@pushed_item e index reads) as (x & Hx & _); [lia | assumption |].
      rewrite Hx. reflexivity.
    + reflexivity.
Qed.

(** The hot flags of the items are decided by the raw positions. *)
Lemma collect_isHot (reads index : nat) (l : list node) :
  index + List.length l <= 8 ->
  map isHot (collect h reads index l)
  = map (fun i => Nat.ltb i 3) (kept_positions index l).
Proof.
  revert reads index.
  induction l as [| e l IH]; intros reads index Hl; cbn [collect kept_positions].
  - reflexivity.
  - cbn [List.length] in Hl. rewrite !map_app, IH by lia.
    destruct (JSString.truthy (entry_title e)) eqn:Ht.
    + destruct (@pushed_item e index reads) as (x & Hx & _ & Hhot & _);
        [lia | assumption |].
      rewrite Hx. cbn [map app]. rewrite Hhot. reflexivity.
    + reflexivity.
Qed.

Lemma kept_positions_all (index : nat) (l : list node) :
  Forall (fun e => JSString.truthy (entry_title e) = true) l ->
  kept_positions index l = seq index (List.length l).
Proof.
  intros Hall. revert index.
  induction Hall as [| e l He _ IH]; intros index; simpl.
  - reflexivity.
  - rewrite He, IH. reflexivity.
Qed.

Lemma filter_all (A : Type) (p : A -> bool) (l : list A) :
  Forall (fun x => p x = true) l -> filter p l = l.
Proof.
  induction 1 as [| x l Hx _ IH]; simpl; [reflexivity |].
  rewrite Hx, IH. reflexivity.
Qed.

Lemma filter_some_dropped (A : Type) (p : A -> bool) (l : list A) :
  Exists (fun x => p x = false) l -> List.length (filter p l) < List.length l.
Proof.
  induction 1 as [x l Hx | x l _ IH]; simpl.
  - rewrite Hx. pose proof (filter_length_le p l). lia.
  - destruct (p x); simpl; [lia |].
    pose proof (filter_length_le p l). lia.
Qed.

(** [parseRSS] on a document without [parsererror]. *)
Lemma parseRSS_well_formed (reads : nat) (xmlText : string) :
  DOM.document_querySelector ["parsererror"] (DOMParser_parseFromString h xmlText)
  = None ->
  parseRSS h reads xmlText
  = (Returned (collect h reads 0
                 (firstn 8 (itemElements_of (DOMParser_parseFromString h xmlText)))),
     reads + List.length
               (firstn 8 (itemElements_of (DOMParser_parseFromString h xmlText)))).
Proof.
  intros Hok. unfold parseRSS. rewrite Hok.
  rewrite forEach_collect. reflexivity.
Qed.

Lemma parseRSS_malformed (reads : nat) (xmlText : string) :
  DOM.document_querySelector ["parsererror"] (DOMParser_parseFromString h xmlText)
  <> None ->
  parseRSS h reads xmlText = (Threw (Error "Failed to parse RSS XML"), reads).
Proof.
  intros Hbad. unfold parseRSS.
  destruct (DOM.document_querySelector _ _); [reflexivity | congruence].
Qed.

End Parser.

Lemma collect_titles (h : Host) (reads index : nat) (l : list node) :
  index + List.length l <= 8 ->
  map title (collect h reads index l)
  = map entry_title (filter (fun e => JSString.truthy (entry_title e)) l).
Proof.
  revert reads index.
  induction l as [| e l IH]; intros reads index Hl; cbn [collect filter].
  - reflexivity.
  - cbn [List.length] in Hl. rewrite map_app, IH by lia.
    destruct (JSString.truthy (entry_title e)) eqn:Ht.
    + destruct (@pushed_item h e index reads) as (x & Hx & Htitle & _);
        [lia | assumption |].
      rewrite Hx. cbn [map app]. rewrite Htitle. reflexivity.
    + reflexivity.
Qed.

Lemma news_rows_ranks (items : list NewsItem) (index : nat) :
  map row_rank (news_rows items index) = seq (index + 1) (List.length items).
Proof.
  revert index. induction items as [| x items IH]; intros index; simpl.
  - reflexivity.
  - rewrite IH. replace (S index + 1) with (S (index + 1)) by lia. reflexivity.
Qed.

Lemma firstn_8_length (A : Type) (l : list A) : List.length (firstn 8 l) <= 8.
Proof. rewrite length_firstn. lia. Qed.

(** C4.  On every payload that parses, [parseRSS] returns at most eight
    items, and the window of eight is laid over the raw entries in document
    order: the items are exactly the titled entries among the first eight
    raw entries, and the card numbers them 1, 2, ... in that order.  So
    when there are at least eight raw entries (ten, say) and the first eight
    all have a title, eight items come back, the item at position [k] being
    raw entry [k], with the hot flag on the first three only; and when an
    entry among the first eight has an empty title, fewer than eight items
    come back, however many raw entries follow. *)
Theorem parseRSS_window (h : Host) (reads : nat) (xmlText : string) :
  DOM.document_querySelector ["parsererror"] (DOMParser_parseFromString h xmlText)
  = None ->
  exists items,
    fst (parseRSS h reads xmlText) = Returned items
    /\ List.length items <= 8
    /\ map title items
       = map entry_title
           (filter (fun e => JSString.truthy (entry_title e))
              (firstn 8 (itemElements_of (DOMParser_parseFromString h xmlText))))
    /\ map row_rank (news_rows items 0) = seq 1 (List.length items)
    /\ (8 <= List.length (itemElements_of (DOMParser_parseFromString h xmlText)) ->
        Forall (fun e => JSString.truthy (entry_title e) = true)
          (firstn 8 (itemElements_of (DOMParser_parseFromString h xmlText))) ->
        List.length items = 8
        /\ map title items
           = map entry_title
               (firstn 8 (itemElements_of (DOMParser_parseFromString h xmlText)))
        /\ map isHot items
           = [true; true; true; false; false; false; false; false])
    /\ (Exists (fun e => JSString.truthy (entry_title e) = false)
          (firstn 8 (itemElements_of (DOMParser_parseFromString h xmlText))) ->
        List.length items < 8).
Proof.
  intros Hok.
  set (window := firstn 8 (itemElements_of (DOMParser_parseFromString h xmlText))).
  assert (Hw : 0 + List.length window <= 8) by (apply firstn_8_length).
  exists (collect h reads 0 window).
  rewrite parseRSS_well_formed by assumption. fold window. cbn [fst].
  split; [reflexivity |].
  split.
  { rewrite collect_length by assumption.
    pose proof (filter_length_le (fun e => JSString.truthy (entry_title e)) window).
    simpl in Hw. lia. }
  split; [apply collect_titles; assumption |].
  split; [apply news_rows_ranks |].
  split.
  - intros Hlen Hall.
    assert (Hwl : List.length window = 8).
    { unfold window. rewrite length_firstn. lia. }
    rewrite collect_length, collect_titles, collect_isHot by assumption.
    rewrite filter_all by assumption.
    rewrite kept_positions_all by assumption.
    rewrite Hwl. repeat split; reflexivity.
  - intros Hsome. rewrite collect_length by assumption.
    pose proof (filter_some_dropped _ (fun e => JSString.truthy (entry_title e)) _ Hsome).
    simpl in Hw. lia.
Qed.

(** Ten titled entries: eight items, the first three hot.  Eight entries of
    which one has no title: fewer than eight items. *)
Lemma parseRSS_window_witness :
  (exists items,
     fst (parseRSS (Fixture.host Fixture.offline false) 0 "<ten items/>")
     = Returned items
     /\ List.length items = 8
     /\ map title items = ["a0"; "a1"; "a2"; "a3"; "a4"; "a5"; "a6"; "a7"]
     /\ map isHot items = [true; true; true; false; false; false; false; false])
  /\ (exists items,
        fst (parseRSS (Fixture.host Fixture.offline false) 0 "<eight items, one blank/>")
        = Returned items
        /\ List.length items < 8).
Proof.
  split.
  - destruct (parseRSS_window (Fixture.host Fixture.offline false) 0 "<ten items/>"
                eq_refl)
      as (items & Hret & _ & _ & _ & Hten & _).
    exists items. split; [exact Hret |].
    destruct Hten as (Hlen & Htitles & Hhot).
    + vm_compute. lia.
    + apply Forall_forall.
      apply (proj1 (forallb_forall (fun e => JSString.truthy (entry_title e)) _)).
      vm_compute. reflexivity.
    + split; [exact Hlen |]. split; [exact Htitles | exact Hhot].
  - destruct (parseRSS_window (Fixture.host Fixture.offline false) 0
                "<eight items, one blank/>" eq_refl)
      as (items & Hret & _ & _ & _ & _ & Hfewer).
    exists items. split; [exact Hret |]. apply Hfewer.
    apply Exists_exists.
    exists (Fixture.rss_item ""). split; [| reflexivity].
    vm_compute. do 5 right. left. reflexivity.
Defined.

(** Eight raw entries of which one has no title: seven items. *)
Example parseRSS_eight_raw_seven_items :
  exists items,
    fst (parseRSS (Fixture.host Fixture.offline false) 0 "<eight items, one blank/>")
    = Returned items
    /\ List.length items = 7.
Proof. eexists. split; reflexivity. Qed.

(** The hot flag of every item is decided by the raw position of its entry,
    not by the position of the item among those returned. *)
Lemma parseRSS_isHot_raw (h : Host) (reads : nat) (xmlText : string) :
  DOM.document_querySelector ["parsererror"] (DOMParser_parseFromString h xmlText)
  = None ->
  exists items,
    fst (parseRSS h reads xmlText) = Returned items
    /\ map isHot items
       = map (fun i => Nat.ltb i 3)
           (kept_positions 0
              (firstn 8 (itemElements_of (DOMParser_parseFromString h xmlText)))).
Proof.
  intros Hok. rewrite parseRSS_well_formed by assumption. cbn [fst].
  eexists. split; [reflexivity |].
  apply collect_isHot. apply firstn_8_length.
Qed.

(** C1.  The code at the payload of the claim: five entries, the one at
    position 2 with an empty title.  Four items come back, numbered in
    sequence, but the hot flag is computed from the raw position (line 205,
    [index < 3]), so only the first two of them are hot: the item at
    position 2 of the result is raw entry 3. *)
Theorem parseRSS_five_entries_third_blank :
  exists items,
    fst (parseRSS (Fixture.host Fixture.offline false) 0 "<five items, third blank/>")
    = Returned items
    /\ map title items = ["b0"; "b1"; "b3"; "b4"]
    /\ map row_rank (news_rows items 0) = [1; 2; 3; 4]
    /\ map isHot items = [true; true; false; false]
    /\ map isHot items <> map (fun rank => Nat.ltb rank 3) (seq 0 (List.length items)).
Proof.
  eexists. split; [reflexivity |].
  repeat split; try reflexivity. vm_compute. discriminate.
Qed.

(** The date of an entry: the clock when there is no date field, whatever
    [new Date(text)] gives when there is one, the Invalid Date included. *)
Lemma entry_pubDate_cases (h : Host) (now : Z) (item : node) :
  entry_pubDate h now item
  = match DOM.querySelector ["pubDate"; "published"; "updated"; "date"] item with
    | None => TimeValue now
    | Some el =>
        match Date_parse h (DOM.textContent el) with
        | Some t => TimeValue t
        | None => InvalidDate
        end
    end.
Proof. reflexivity. Qed.

(** C2.  The code at three entries: one without a date field, one whose date
    field does not parse, one whose date field parses.  The first gets the
    reading of the clock made for it during the parse; the second gets the
    Invalid Date: [new Date(text)] does not throw, so the [catch] of line 196
    never restores the default. *)
Theorem parseRSS_unparseable_date :
  exists items,
    fst (parseRSS (Fixture.host Fixture.offline false) 5 "<undated and misdated/>")
    = Returned items
    /\ map title items = ["d0"; "d1"; "d2"]
    /\ map pubDate items
       = [ TimeValue (Date_now (Fixture.host Fixture.offline false) 5);
           InvalidDate;
           TimeValue 1000 ].
Proof. eexists. split; [reflexivity |]. split; reflexivity. Qed.

(* ================================================================== *)
(** * The relative-time formatter *)
(* ================================================================== *)

Lemma minutes_lt (delta bound : Z) :
  (0 < bound)%Z ->
  ((delta / 60000 <? bound) = (delta <? 60000 * bound))%Z.
Proof.
  intros Hb.
  destruct (Z.ltb_spec (delta / 60000) bound) as [H1 | H1];
    destruct (Z.ltb_spec delta (60000 * bound)) as [H2 | H2];
    try reflexivity; exfalso.
  - apply (Z.div_le_lower_bound delta 60000 bound) in H2; lia.
  - apply (Z.div_lt_upper_bound delta 60000 bound) in H2; lia.
Qed.

Lemma hours_of_minutes (delta : Z) : (delta / 60000 / 60 = delta / 3600000)%Z.
Proof. rewrite Z.div_div by lia. reflexivity. Qed.

Lemma days_of_hours (delta : Z) : (delta / 60000 / 60 / 24 = delta / 86400000)%Z.
Proof. rewrite !Z.div_div by lia. reflexivity. Qed.

Lemma hours_lt (delta : Z) :
  ((delta / 3600000 <? 24) = (delta <? 86400000))%Z.
Proof.
  destruct (Z.ltb_spec (delta / 3600000) 24) as [H1 | H1];
    destruct (Z.ltb_spec delta 86400000) as [H2 | H2];
    try reflexivity; exfalso.
  - apply (Z.div_le_lower_bound delta 3600000 24) in H2; lia.
  - apply (Z.div_lt_upper_bound delta 3600000 24) in H2; lia.
Qed.

(** C5.  For a valid date [t] and the clock at [now], with
    [delta = now - t] in milliseconds: under one minute, a negative [delta]
    (a date in the future) included, the text is "just updated"; under
    sixty minutes it counts the whole minutes; under twenty-four hours the
    whole hours; otherwise the whole days.  Anything that is not a valid
    date gives "just updated".  A date ninety seconds back falls in the
    minutes bucket with the count 1. *)
Theorem formatTimeAgo_buckets (now : Z) (date : JSValue) :
  formatTimeAgo now date
  = match date with
    | VDate (TimeValue t) =>
        let delta := (now - t)%Z in
        if (delta <? 60000)%Z then "刚刚更新"
        else if (delta <? 3600000)%Z
             then (JSString.of_Z (delta / 60000) ++ "分钟前更新")%string
        else if (delta <? 86400000)%Z
             then (JSString.of_Z (delta / 3600000) ++ "小时前更新")%string
        else (JSString.of_Z (delta / 86400000) ++ "天前更新")%string
    | _ => "刚刚更新"
    end
  /\ formatTimeAgo now (VDate (TimeValue (now - 90000))) = "1分钟前更新"
  /\ formatTimeAgo now (VDate (TimeValue (now + 1))) = "刚刚更新".
Proof.
  split; [| split].
  - destruct date as [[t |] | s | z |]; try reflexivity.
    unfold formatTimeAgo. cbv zeta.
    set (delta := (now - t)%Z).
    rewrite days_of_hours, hours_of_minutes.
    rewrite (@minutes_lt delta 1), (@minutes_lt delta 60) by lia.
    rewrite hours_lt.
    change (60000 * 1)%Z with 60000%Z. change (60000 * 60)%Z with 3600000%Z.
    destruct (Z.ltb_spec (delta / 60000) 0) as [Hneg | Hpos].
    + destruct (Z.ltb_spec delta 60000) as [| Hge]; [reflexivity |].
      exfalso. assert (0 <= delta / 60000)%Z by (apply Z.div_pos; lia). lia.
    + reflexivity.
  - unfold formatTimeAgo. cbv zeta.
    replace (now - (now - 90000))%Z with 90000%Z by lia. reflexivity.
  - unfold formatTimeAgo. cbv zeta.
    replace (now - (now + 1))%Z with (-1)%Z by lia. reflexivity.
Qed.

Example formatTimeAgo_examples :
  formatTimeAgo 1700000000000 (VDate (TimeValue 1699999970000)) = "刚刚更新"
  /\ formatTimeAgo 1700000000000 (VDate (TimeValue 1699996400000)) = "1小时前更新"
  /\ formatTimeAgo 1700000000000 (VDate (TimeValue 1699800000000)) = "2天前更新"
  /\ formatTimeAgo 1700000000000 (VDate InvalidDate) = "刚刚更新"
  /\ formatTimeAgo 1700000000000 (VString "yesterday") = "刚刚更新".
Proof. repeat split. Qed.

(* ================================================================== *)
(** * Running tasks *)
(* ================================================================== *)

Lemma run_bind (h : Host) (A B : Type) (t : task A) (f : A -> task B) (w : World) :
  run h (bind t f) w
  = match run h t w with
    | (Returned a, w') => run h (f a) w'
    | (Threw e, w') => (Threw e, w')
    end.
Proof.
  revert w. induction t as [a | e | k IH | w0 t IH | url k IH]; intros w; simpl.
  - reflexivity.
  - reflexivity.
  - apply IH.
  - apply IH.
  - apply IH.
Qed.

Lemma run_try_catch (h : Host) (A : Type) (t : task A) (handler : JSError -> task A)
  (w : World) :
  run h (try_catch t handler) w
  = match run h t w with
    | (Returned a, w') => (Returned a, w')
    | (Threw e, w') => run h (handler e) w'
    end.
Proof.
  revert w. induction t as [a | e | k IH | w0 t IH | url k IH]; intros w; simpl.
  - reflexivity.
  - reflexivity.
  - apply IH.
  - apply IH.
  - apply IH.
Qed.

Lemma run_modify (h : Host) (f : World -> World) (w : World) :
  run h (modify f) w = (Returned tt, f w).
Proof. reflexivity. Qed.

Lemma log_nil (w : World) : log [] [] w = w.
Proof. destruct w. unfold log. simpl. rewrite !app_nil_r. reflexivity. Qed.

Lemma log_log (us1 us2 : list string) (es1 es2 : list ConsoleEntry) (w : World) :
  log us2 es2 (log us1 es1 w) = log (us1 ++ us2) (es1 ++ es2) w.
Proof. unfold log. simpl. rewrite !app_assoc. reflexivity. Qed.

Lemma requests_log_length (us : list string) (es : list ConsoleEntry) (w : World) :
  List.length (requests (log us es w)) = List.length (requests w) + List.length us.
Proof. unfold log. cbn [requests]. apply length_app. Qed.

Lemma issue_log (u : string) (w : World) : issue u w = log [u] [] w.
Proof. unfold issue, log. simpl. rewrite app_nil_r. reflexivity. Qed.

Lemma print_log (e : ConsoleEntry) (w : World) : print e w = log [] [e] w.
Proof. unfold print, log. simpl. rewrite app_nil_r. reflexivity. Qed.

(* ================================================================== *)
(** * The transport layer *)
(* ================================================================== *)

Lemma run_fetchRSS (h : Host) (url : string) (w : World) :
  run h (fetchRSS url) w
  = (settled (fetch h (List.length (requests w)) url), issue url w).
Proof.
  unfold fetchRSS. simpl.
  destruct (fetch h (List.length (requests w)) url) as [e | status body]; simpl.
  - reflexivity.
  - destruct (negb (response_ok status)); simpl; [reflexivity |].
    destruct body; reflexivity.
Qed.

(** The loop of [fetchWithProxy], run from any state: it makes the attempts
    of the trace and nothing else, warns once per failure, and ends with the
    body of the successful attempt or, without one, with its fixed error. *)
Lemma run_fetchWithProxy_loop (h : Host) (url : string) (proxies : list string)
  (w : World) :
  let trace :=
    attempts h (List.length (requests w))
      (map (fun proxy => fetchUrl_of proxy url) proxies) in
  run h (fetchWithProxy_loop proxies url) w
  = (match trace_body trace with
     | Some body => Returned body
     | None => Threw (Error "All proxies failed")
     end,
     log (map fst trace) (proxy_warnings url trace) w).
Proof.
  revert w. induction proxies as [| proxy rest IH]; intros w; cbn zeta.
  - simpl. rewrite log_nil. reflexivity.
  - cbn [fetchWithProxy_loop]. rewrite run_try_catch, run_bind, run_fetchRSS.
    cbn [map attempts].
    destruct (settled (fetch h (List.length (requests w)) (fetchUrl_of proxy url)))
      as [body | e].
    + cbn. rewrite issue_log. reflexivity.
    + rewrite run_bind. unfold console_warn. rewrite run_modify. rewrite IH.
      cbn zeta. rewrite print_log, issue_log, !log_log.
      rewrite requests_log_length. cbn [List.length app].
      rewrite Nat.add_1_r. reflexivity.
Qed.

Lemma attempts_prefix (h : Host) (n : nat) (urls : list string) :
  map fst (attempts h n urls) = firstn (List.length (attempts h n urls)) urls.
Proof.
  revert n. induction urls as [| u rest IH]; intros n; cbn [attempts].
  - reflexivity.
  - destruct (settled (fetch h n u)); cbn.
    + reflexivity.
    + f_equal. apply IH.
Qed.

(** The attempt at position [j] of a trace is request number [n + j]. *)
Lemma attempts_numbered (h : Host) (n : nat) (urls : list string) (j : nat)
  (u : string) (o : outcome string) :
  nth_error (attempts h n urls) j = Some (u, o) ->
  nth_error urls j = Some u /\ o = settled (fetch h (n + j) u).
Proof.
  revert n j. induction urls as [| u0 rest IH]; intros n j; cbn [attempts].
  - destruct j; discriminate.
  - destruct j as [| j]; cbn [nth_error].
    + intros [= <- <-]. rewrite Nat.add_0_r. split; reflexivity.
    + destruct (settled (fetch h n u0)).
      * destruct j; discriminate.
      * intros Hj. apply IH in Hj. replace (n + S j) with (S n + j) by lia.
        exact Hj.
Qed.

(** No attempt follows one that succeeded. *)
Lemma attempts_stop (h : Host) (n : nat) (urls : list string) (j : nat)
  (u body : string) :
  nth_error (attempts h n urls) j = Some (u, Returned body) ->
  List.length (attempts h n urls) = S j
  /\ trace_body (attempts h n urls) = Some body.
Proof.
  revert n j. induction urls as [| u0 rest IH]; intros n j; cbn [attempts].
  - destruct j; discriminate.
  - destruct j as [| j]; cbn [nth_error].
    + intros [= <- Ho]. rewrite Ho. split; reflexivity.
    + destruct (settled (fetch h n u0)) eqn:Ho.
      * destruct j; discriminate.
      * intros Hj. apply IH in Hj. destruct Hj as [Hlen Hbody].
        cbn [List.length trace_body]. split; [f_equal; exact Hlen | exact Hbody].
Qed.

(** A trace with a body ends with the attempt that gave it. *)
Lemma trace_body_last (h : Host) (n : nat) (urls : list string) (body : string) :
  trace_body (attempts h n urls) = Some body ->
  exists j u,
    nth_error (attempts h n urls) j = Some (u, Returned body)
    /\ List.length (attempts h n urls) = S j
    /\ forall i, i < j -> exists ui e, nth_error (attempts h n urls) i = Some (ui, Threw e).
Proof.
  revert n. induction urls as [| u0 rest IH]; intros n; cbn [attempts].
  - discriminate.
  - destruct (settled (fetch h n u0)) as [b | e] eqn:Ho; cbn [trace_body].
    + intros [= <-]. exists 0, u0. split; [reflexivity |].
      split; [reflexivity |]. intros i Hi. lia.
    + intros Hb. destruct (IH _ Hb) as (j & u & Hj & Hlen & Hbefore).
      exists (S j), u. split; [exact Hj |].
      split; [cbn; f_equal; exact Hlen |].
      intros [| i] Hi.
      * exists u0, e. reflexivity.
      * apply Hbefore. lia.
Qed.

(** A trace without a body tried every URL, and each attempt failed. *)
Lemma trace_body_none (h : Host) (n : nat) (urls : list string) :
  trace_body (attempts h n urls) = None ->
  map fst (attempts h n urls) = urls
  /\ forall i, i < List.length urls ->
       exists ui e, nth_error (attempts h n urls) i = Some (ui, Threw e).
Proof.
  revert n. induction urls as [| u0 rest IH]; intros n; cbn [attempts].
  - intros _. split; [reflexivity |]. intros i Hi. simpl in Hi. lia.
  - destruct (settled (fetch h n u0)) as [b | e] eqn:Ho; cbn [trace_body].
    + discriminate.
    + intros Hb. destruct (IH _ Hb) as [Hall Hfail]. split.
      * cbn. f_equal. exact Hall.
      * intros [| i] Hi.
        -- exists u0, e. reflexivity.
        -- apply Hfail. simpl in Hi. lia.
Qed.

Lemma advance_after_warning (A : Type) (text detail : string) (t : task A) (w : World) :
  advance (console_warn text detail ;; t) w
  = advance t (print (ConsoleWarn text detail) w).
Proof. reflexivity. Qed.

Lemma one_at_a_time_after_warning (urls : list string) (t : task string)
  (text detail : string) :
  one_at_a_time urls t -> one_at_a_time urls (console_warn text detail ;; t).
Proof.
  destruct urls as [| u rest]; cbn [one_at_a_time]; intros Ht w.
  - destruct (Ht (print (ConsoleWarn text detail) w)) as (e & w' & Ha & Hr).
    exists e, w'. rewrite advance_after_warning. split; assumption.
  - destruct (Ht (print (ConsoleWarn text detail) w)) as (k & w' & Ha & Hr & Hk).
    exists k, w'. rewrite advance_after_warning. repeat split; assumption.
Qed.

Lemma fetchWithProxy_loop_one_at_a_time (url : string) (proxies : list string) :
  one_at_a_time (map (fun proxy => fetchUrl_of proxy url) proxies)
    (fetchWithProxy_loop proxies url).
Proof.
  induction proxies as [| proxy rest IH]; cbn [map one_at_a_time].
  - intros w. exists (Error "All proxies failed"), w. split; reflexivity.
  - intros w. cbn [fetchWithProxy_loop]. unfold fetchRSS.
    cbn [try_catch bind advance].
    eexists. eexists. split; [reflexivity |].
    split; [reflexivity |].
    intros r. destruct r as [e | status body]; cbn [settled].
    + cbn [try_catch bind]. apply one_at_a_time_after_warning, IH.
    + destruct (negb (response_ok status)); [| destruct body as [text | e]].
      * cbn [try_catch bind]. apply one_at_a_time_after_warning, IH.
      * intros w1. reflexivity.
      * cbn [try_catch bind]. apply one_at_a_time_after_warning, IH.
Qed.

(** An attempt is only made once every earlier one has failed. *)
Lemma attempts_after_failures (h : Host) (n : nat) (urls : list string) (j : nat)
  (u : string) (o : outcome string) :
  nth_error (attempts h n urls) j = Some (u, o) ->
  forall i, i < j -> exists ui e, nth_error (attempts h n urls) i = Some (ui, Threw e).
Proof.
  revert n j. induction urls as [| u0 rest IH]; intros n j; cbn [attempts].
  - destruct j; discriminate.
  - destruct j as [| j]; cbn [nth_error].
    + intros _ i Hi. lia.
    + destruct (settled (fetch h n u0)) as [b | e].
      * destruct j; discriminate.
      * intros Hj [| i] Hi.
        -- exists u0, e. reflexivity.
        -- cbn [nth_error]. apply (IH _ _ Hj). lia.
Qed.

Lemma attempts_all_fail (h : Host) (n : nat) (urls : list string)
  (errors : list JSError) :
  List.length errors = List.length urls ->
  (forall j u e, nth_error urls j = Some u -> nth_error errors j = Some e ->
                 settled (fetch h (n + j) u) = Threw e) ->
  attempts h n urls = combine urls (map (@Threw string) errors).
Proof.
  revert n errors. induction urls as [| u rest IH]; intros n errors Hlen Hfail.
  - reflexivity.
  - destruct errors as [| e errors]; [discriminate |].
    cbn [attempts map combine].
    assert (H0 : settled (fetch h n u) = Threw e).
    { rewrite <- (Nat.add_0_r n). apply Hfail; reflexivity. }
    rewrite H0. f_equal. apply IH.
    + simpl in Hlen. lia.
    + intros j u' e' Hu He. replace (S n + j) with (n + S j) by lia.
      apply Hfail; assumption.
Qed.

Lemma failed_trace (url : string) (urls : list string) (errors : list JSError) :
  List.length errors = List.length urls ->
  trace_body (combine urls (map (@Threw string) errors)) = None
  /\ map fst (combine urls (map (@Threw string) errors)) = urls
  /\ proxy_warnings url (combine urls (map (@Threw string) errors))
     = map (fun e => ConsoleWarn ("Proxy failed for " ++ url ++ ":") (message e)) errors.
Proof.
  revert errors. induction urls as [| u rest IH]; intros [| e errors] Hlen;
    try discriminate.
  - repeat split.
  - simpl in Hlen. destruct (IH errors) as (Hb & Hf & Hw); [lia |].
    cbn [map combine trace_body proxy_warnings fst].
    rewrite Hb, Hf, Hw. repeat split.
Qed.

(** C7.  From any state and whatever the network does, [fetchWithProxy]
    makes the attempts of one trace and no other request: the trace runs
    through the declared strategies from the first on, in their order; the
    attempt at position [j] is the request made just after the [j] earlier
    ones, and it is made only when each of those has failed; a success ends
    the trace and its body is the result; a failure of the whole call means
    that all declared strategies were tried and failed.  As a task the call
    has one request in flight at a time: the next one is handed to [fetch]
    only by the continuation of a failed one. *)
Theorem fetchWithProxy_in_declared_order (h : Host) (url : string) (w : World) :
  exists trace : list (string * outcome string),
    snd (run h (fetchWithProxy url) w)
    = log (map fst trace) (proxy_warnings url trace) w
    /\ map fst trace
       = firstn (List.length trace)
           (map (fun proxy => fetchUrl_of proxy url) CORS_PROXIES)
    /\ (forall j u o,
          nth_error trace j = Some (u, o) ->
          o = settled (fetch h (List.length (requests w) + j) u)
          /\ forall i, i < j -> exists ui e, nth_error trace i = Some (ui, Threw e))
    /\ match fst (run h (fetchWithProxy url) w) with
       | Returned body =>
           exists j u,
             nth_error trace j = Some (u, Returned body)
             /\ List.length trace = S j
       | Threw e =>
           e = Error "All proxies failed"
           /\ map fst trace = map (fun proxy => fetchUrl_of proxy url) CORS_PROXIES
           /\ forall i, i < List.length CORS_PROXIES ->
                exists ui ei, nth_error trace i = Some (ui, Threw ei)
       end
    /\ one_at_a_time (map (fun proxy => fetchUrl_of proxy url) CORS_PROXIES)
         (fetchWithProxy url).
Proof.
  set (declared := map (fun proxy => fetchUrl_of proxy url) CORS_PROXIES).
  exists (attempts h (List.length (requests w)) declared).
  unfold fetchWithProxy. rewrite run_fetchWithProxy_loop. cbn zeta. fold declared.
  cbn [fst snd].
  split; [reflexivity |].
  split; [apply attempts_prefix |].
  split.
  { intros j u o Hj. split.
    - eapply attempts_numbered; eassumption.
    - eapply attempts_after_failures; eassumption. }
  split.
  - destruct (trace_body (attempts h (List.length (requests w)) declared))
      as [body |] eqn:Hb.
    + destruct (trace_body_last _ _ _ _ Hb) as (j & u & Hj & Hlen & _).
      exists j, u. split; assumption.
    + destruct (trace_body_none _ _ _ Hb) as [Hall Hfail].
      split; [reflexivity |]. split; [exact Hall |].
      intros i Hi. apply Hfail. unfold declared. rewrite length_map. exact Hi.
  - apply fetchWithProxy_loop_one_at_a_time.
Qed.

(** The direct request fails, the first relay answers. *)
Example fetchWithProxy_second_strategy :
  let net := fun (n : nat) (u : string) =>
               if Nat.eqb n 1 then Response 200 (BodyText "<ten items/>")
               else Response 503 (BodyText "") in
  run (Fixture.host net false) (fetchWithProxy "https://rsshub.app/rfi/cn")
    Fixture.empty_world
  = (Returned "<ten items/>",
     log [ "https://rsshub.app/rfi/cn";
           "https://api.allorigins.win/raw?url=https%3A%2F%2Frsshub.app%2Frfi%2Fcn" ]
         [ ConsoleWarn "Proxy failed for https://rsshub.app/rfi/cn:"
             "HTTP error! status: 503" ]
         Fixture.empty_world).
Proof. reflexivity. Qed.

(** C3, as the code has it.  When every strategy fails, [fetchWithProxy]
    throws an [Error] whose message is the fixed text "All proxies failed".
    The errors of the attempts are not part of it: the message of each one
    is written to the console as a warning, in the order of the attempts,
    and that is all that is kept of them. *)
Theorem fetchWithProxy_all_strategies_fail (h : Host) (url : string) (w : World)
  (errors : list JSError) :
  List.length errors = List.length CORS_PROXIES ->
  (forall j proxy e,
     nth_error CORS_PROXIES j = Some proxy -> nth_error errors j = Some e ->
     settled (fetch h (List.length (requests w) + j) (fetchUrl_of proxy url))
     = Threw e) ->
  run h (fetchWithProxy url) w
  = (Threw (Error "All proxies failed"),
     log (map (fun proxy => fetchUrl_of proxy url) CORS_PROXIES)
       (map (fun e => ConsoleWarn ("Proxy failed for " ++ url ++ ":") (message e))
          errors)
       w).
Proof.
  intros Hlen Hfail.
  unfold fetchWithProxy. rewrite run_fetchWithProxy_loop. cbn zeta.
  rewrite (@attempts_all_fail h _ _ errors).
  - destruct (@failed_trace url (map (fun proxy => fetchUrl_of proxy url) CORS_PROXIES)
                errors) as (Hb & Hf & Hw).
    + rewrite length_map. exact Hlen.
    + rewrite Hb, Hf, Hw. reflexivity.
  - rewrite length_map. exact Hlen.
  - intros j u e Hu He.
    rewrite nth_error_map in Hu.
    destruct (nth_error CORS_PROXIES j) as [proxy |] eqn:Hp; [| discriminate].
    assert (Heq : u = fetchUrl_of proxy url) by (unfold option_map in Hu; congruence).
    subst u.
    apply (Hfail j proxy e Hp He).
Qed.

(** With the network down, three attempts, three warnings, the fixed error. *)
Lemma fetchWithProxy_all_strategies_fail_witness :
  run (Fixture.host Fixture.offline false) (fetchWithProxy "https://rsshub.app/rfi/cn")
    Fixture.empty_world
  = (Threw (Error "All proxies failed"),
     log [ "https://rsshub.app/rfi/cn";
           "https://api.allorigins.win/raw?url=https%3A%2F%2Frsshub.app%2Frfi%2Fcn";
           "https://corsproxy.io/?https%3A%2F%2Frsshub.app%2Frfi%2Fcn" ]
       [ ConsoleWarn "Proxy failed for https://rsshub.app/rfi/cn:" "Failed to fetch";
         ConsoleWarn "Proxy failed for https://rsshub.app/rfi/cn:" "Failed to fetch";
         ConsoleWarn "Proxy failed for https://rsshub.app/rfi/cn:" "Failed to fetch" ]
       Fixture.empty_world).
Proof.
  apply (@fetchWithProxy_all_strategies_fail
           (Fixture.host Fixture.offline false) "https://rsshub.app/rfi/cn"
           Fixture.empty_world
           [ mkError "TypeError" "Failed to fetch";
             mkError "TypeError" "Failed to fetch";
             mkError "TypeError" "Failed to fetch" ]).
  - reflexivity.
  - intros j proxy e Hp He.
    destruct j as [| [| [| j]]];
      [ injection He as <-; reflexivity
      | injection He as <-; reflexivity
      | injection He as <-; reflexivity
      | destruct j; discriminate He ].
Defined.

(** C3 as stated fails: the error thrown when every strategy has failed does
    not carry the last underlying error.  With every request answered by
    status 503, and with every request rejected by the network, the last
    underlying errors differ, yet the same error is thrown; so nothing read
    off the thrown error can give back the last underlying one. *)
Lemma fetchWithProxy_error_without_cause :
  let url := "https://rsshub.app/rfi/cn" in
  let declared := map (fun proxy => fetchUrl_of proxy url) CORS_PROXIES in
  let busy := Fixture.host (fun _ _ => Response 503 (BodyText "")) false in
  let down := Fixture.host Fixture.offline false in
  trace_last_error (attempts busy 0 declared)
  = Some (Error "HTTP error! status: 503")
  /\ trace_last_error (attempts down 0 declared)
     = Some (mkError "TypeError" "Failed to fetch")
  /\ fst (run busy (fetchWithProxy url) Fixture.empty_world)
     = Threw (Error "All proxies failed")
  /\ fst (run down (fetchWithProxy url) Fixture.empty_world)
     = Threw (Error "All proxies failed")
  /\ ~ (exists last_error_of : outcome string -> option JSError,
          last_error_of (fst (run busy (fetchWithProxy url) Fixture.empty_world))
          = trace_last_error (attempts busy 0 declared)
          /\ last_error_of (fst (run down (fetchWithProxy url) Fixture.empty_world))
             = trace_last_error (attempts down 0 declared)).
Proof.
  cbn zeta. repeat split.
  intros (f & Hbusy & Hdown).
  change (fst (run (Fixture.host (fun _ _ => Response 503 (BodyText "")) false)
                 (fetchWithProxy "https://rsshub.app/rfi/cn") Fixture.empty_world))
    with (@Threw string (Error "All proxies failed")) in Hbusy.
  change (fst (run (Fixture.host Fixture.offline false)
                 (fetchWithProxy "https://rsshub.app/rfi/cn") Fixture.empty_world))
    with (@Threw string (Error "All proxies failed")) in Hdown.
  rewrite Hbusy in Hdown. vm_compute in Hdown. discriminate.
Qed.

(* ================================================================== *)
(** * The source resolver *)
(* ================================================================== *)

Lemma run_call_parseRSS (h : Host) (xmlText : string) (w : World) :
  run h (call_parseRSS h xmlText) w
  = (fst (parseRSS h (clock_reads w) xmlText),
     set_clock_reads (snd (parseRSS h (clock_reads w) xmlText)) w).
Proof.
  unfold call_parseRSS. cbn [run].
  destruct (parseRSS h (clock_reads w) xmlText) as [[items | e] reads']; reflexivity.
Qed.

Lemma run_call_formatTimeAgo (h : Host) (date : JSValue) (w : World) :
  run h (call_formatTimeAgo h date) w
  = (Returned (formatTimeAgo (Date_now h (clock_reads w)) date),
     if is_valid_date date then tick 1 w else w).
Proof.
  unfold call_formatTimeAgo. cbn [run]. destruct (is_valid_date date); reflexivity.
Qed.

Lemma run_set_outerHTML_attached (h : Host) (ref : nat) (m : CardMarkup) (w : World) :
  attached ref w = true ->
  run h (set_outerHTML h ref m) w = (Returned tt, write_outerHTML ref m w).
Proof. intros Ha. unfold set_outerHTML. cbn [run]. rewrite Ha. reflexivity. Qed.


(** The attempt on one endpoint, spelled out. *)
Lemma run_attempt_endpoint (h : Host) (feedUrl : string) (w : World) :
  run h (attempt_endpoint h feedUrl) w
  = match run h (fetchWithProxy feedUrl) w with
    | (Threw e, w1) => (Threw e, w1)
    | (Returned xmlText, w1) =>
        let w2 := set_clock_reads (snd (parseRSS h (clock_reads w1) xmlText)) w1 in
        match fst (parseRSS h (clock_reads w1) xmlText) with
        | Threw e => (Threw e, w2)
        | Returned items =>
            if Nat.eqb (List.length items) 0
            then (Threw (Error "No items found in feed"), w2)
            else (Returned items, w2)
        end
    end.
Proof.
  unfold attempt_endpoint. rewrite run_bind.
  destruct (run h (fetchWithProxy feedUrl) w) as [[xmlText | e] w1]; [| reflexivity].
  rewrite run_bind, run_call_parseRSS. cbn zeta.
  destruct (fst (parseRSS h (clock_reads w1) xmlText)) as [items | e]; [| reflexivity].
  rewrite run_bind.
  destruct (Nat.eqb (List.length items) 0); reflexivity.
Qed.

(** An attempt leaves the page alone. *)
Lemma attempt_endpoint_page (h : Host) (feedUrl : string) (w : World) :
  page (snd (run h (attempt_endpoint h feedUrl) w)) = page w
  /\ next_node (snd (run h (attempt_endpoint h feedUrl) w)) = next_node w.
Proof.
  rewrite run_attempt_endpoint. unfold fetchWithProxy.
  rewrite run_fetchWithProxy_loop. cbn zeta.
  destruct (trace_body _) as [xmlText |]; [| split; reflexivity].
  destruct (fst (parseRSS h _ xmlText)) as [items | e]; [| split; reflexivity].
  destruct (Nat.eqb (List.length items) 0); split; reflexivity.
Qed.

(** An attempt that yields items yields at least one; one that fails does
    so with one of three errors. *)
Lemma attempt_endpoint_outcome (h : Host) (feedUrl : string) (w : World) :
  match fst (run h (attempt_endpoint h feedUrl) w) with
  | Returned items => items <> []
  | Threw e =>
      e = Error "All proxies failed"
      \/ e = Error "Failed to parse RSS XML"
      \/ e = Error "No items found in feed"
  end.
Proof.
  rewrite run_attempt_endpoint. unfold fetchWithProxy.
  rewrite run_fetchWithProxy_loop. cbn zeta.
  destruct (trace_body _) as [xmlText |]; [| left; reflexivity].
  set (w1 := log _ _ w).
  destruct (fst (parseRSS h (clock_reads w1) xmlText)) as [items | e] eqn:Hp.
  - destruct items as [| x items]; cbn.
    + right. right. reflexivity.
    + discriminate.
  - cbn. right. left.
    unfold parseRSS in Hp.
    destruct (DOM.document_querySelector _ _).
    + cbn in Hp. congruence.
    + destruct (forEach _ _ _ _). discriminate.
Qed.

Lemma attached_same_page (ref : nat) (w w' : World) :
  page w' = page w -> attached ref w' = attached ref w.
Proof. intros Hp. unfold attached. rewrite Hp. reflexivity. Qed.

(** One turn of the loop, for a card that is in the page. *)
Lemma run_loop_step (h : Host) (sourceKey : string) (config : FeedConfig)
  (cardElement : nat) (feedUrl : string) (rest : list string)
  (lastError : option JSError) (w : World) :
  attached cardElement w = true ->
  run h (fetchAndRenderSource_loop h sourceKey config cardElement (feedUrl :: rest)
           lastError) w
  = match
      run h (attempt_endpoint h feedUrl)
        (print (ConsoleLog ("📡 Fetching " ++ name config ++ " from "
                            ++ feedUrl ++ "...")) w)
    with
    | (Returned items, w1) =>
        (Returned true, rendered h sourceKey config cardElement items w1)
    | (Threw e, w1) =>
        run h (fetchAndRenderSource_loop h sourceKey config cardElement rest (Some e))
          (print (ConsoleWarn ("❌ Failed to fetch " ++ name config ++ " from "
                               ++ feedUrl ++ ":") (message e)) w1)
    end.
Proof.
  intros Ha. cbn [fetchAndRenderSource_loop].
  set (w0 := print (ConsoleLog ("📡 Fetching " ++ name config ++ " from "
                                ++ feedUrl ++ "...")) w).
  pose proof (attempt_endpoint_page h feedUrl w0) as [Hpage _].
  pose proof (attempt_endpoint_outcome h feedUrl w0) as Hout.
  rewrite run_attempt_endpoint in Hpage, Hout |- *.
  rewrite run_try_catch, run_bind. unfold console_log at 1. rewrite run_modify.
  fold w0. rewrite run_bind.
  destruct (run h (fetchWithProxy feedUrl) w0) as [[xmlText | e] w1].
  2:{ rewrite run_bind. unfold console_warn. rewrite run_modify. reflexivity. }
  rewrite run_bind, run_call_parseRSS. cbn zeta in Hpage, Hout |- *.
  set (w2 := set_clock_reads (snd (parseRSS h (clock_reads w1) xmlText)) w1) in *.
  destruct (fst (parseRSS h (clock_reads w1) xmlText)) as [items | e].
  2:{ rewrite run_bind. unfold console_warn. rewrite run_modify. reflexivity. }
  rewrite run_bind.
  destruct items as [| first items].
  { cbn [List.length Nat.eqb run]. rewrite run_bind. unfold console_warn.
    rewrite run_modify. reflexivity. }
  cbn [List.length Nat.eqb run]. rewrite run_bind. cbn [run].
  rewrite run_bind, run_call_formatTimeAgo.
  cbn [snd] in Hpage.
  set (w3 := if is_valid_date (VDate (pubDate first)) then tick 1 w2 else w2).
  assert (Ha3 : attached cardElement w3 = true).
  { rewrite <- Ha. apply attached_same_page.
    unfold w3. destruct (is_valid_date _); cbn [tick page]; exact Hpage. }
  rewrite run_bind, run_set_outerHTML_attached by exact Ha3.
  rewrite run_bind. unfold initNewsItemClickHandlers. rewrite run_modify.
  rewrite run_bind. unfold console_log. rewrite run_modify.
  reflexivity.
Qed.

Lemma run_loop_end (h : Host) (sourceKey : string) (config : FeedConfig)
  (cardElement : nat) (lastError : option JSError) (w : World) :
  attached cardElement w = true ->
  run h (fetchAndRenderSource_loop h sourceKey config cardElement [] lastError) w
  = (Returned false, failed sourceKey config cardElement lastError w).
Proof.
  intros Ha. cbn [fetchAndRenderSource_loop].
  rewrite run_bind, run_set_outerHTML_attached by exact Ha.
  rewrite run_bind. unfold console_error. rewrite run_modify. reflexivity.
Qed.

Lemma walk_page (h : Host) (config : FeedConfig) (feedUrls : list string)
  (lastError : option JSError) (w : World) :
  page (snd (endpoint_walk h config feedUrls lastError w)) = page w
  /\ next_node (snd (endpoint_walk h config feedUrls lastError w)) = next_node w.
Proof.
  revert lastError w. induction feedUrls as [| feedUrl rest IH]; intros lastError w.
  - split; reflexivity.
  - cbn [endpoint_walk].
    set (w0 := print _ w).
    pose proof (attempt_endpoint_page h feedUrl w0) as [Hp Hn].
    destruct (run h (attempt_endpoint h feedUrl) w0) as [[items | e] w1].
    + cbn [snd] in *. split; assumption.
    + cbn [snd] in Hp, Hn.
      destruct (IH (Some e) (print (ConsoleWarn ("❌ Failed to fetch " ++ name config
                  ++ " from " ++ feedUrl ++ ":") (message e)) w1)) as [Hp' Hn'].
      rewrite Hp', Hn'. cbn [print page next_node]. split; assumption.
Qed.

(** The loop, for a card that is in the page, is the walk followed by the
    rendering of its result. *)
Lemma run_loop (h : Host) (sourceKey : string) (config : FeedConfig)
  (cardElement : nat) (feedUrls : list string) (lastError : option JSError)
  (w : World) :
  attached cardElement w = true ->
  run h (fetchAndRenderSource_loop h sourceKey config cardElement feedUrls lastError) w
  = match endpoint_walk h config feedUrls lastError w with
    | (Some items, _, w1) =>
        (Returned true, rendered h sourceKey config cardElement items w1)
    | (None, lastError', w1) =>
        (Returned false, failed sourceKey config cardElement lastError' w1)
    end.
Proof.
  revert lastError w. induction feedUrls as [| feedUrl rest IH]; intros lastError w Ha.
  - apply run_loop_end. exact Ha.
  - rewrite run_loop_step by exact Ha. cbn [endpoint_walk].
    set (w0 := print _ w).
    pose proof (attempt_endpoint_page h feedUrl w0) as [Hp _].
    destruct (run h (attempt_endpoint h feedUrl) w0) as [[items | e] w1].
    + reflexivity.
    + apply IH. rewrite <- Ha. apply attached_same_page. exact Hp.
Qed.

Lemma querySelector_card_attached (sourceKey : string) (w : World) (ref : nat) :
  querySelector_card sourceKey w = Some ref -> attached ref w = true.
Proof.
  unfold querySelector_card, attached.
  destruct (find _ (page w)) as [c |] eqn:Hf; [| discriminate].
  intros [= <-]. apply find_some in Hf. destruct Hf as [Hin _].
  apply existsb_exists. exists c. split; [exact Hin | apply Nat.eqb_refl].
Qed.

(** [fetchAndRenderSource] run from any state. *)
Lemma run_fetchAndRenderSource (h : Host) (sourceKey : string) (w : World) :
  run h (fetchAndRenderSource h sourceKey) w
  = match querySelector_card sourceKey w with
    | None => (Returned false, w)
    | Some cardElement =>
        match lookup_feed RSS_FEEDS sourceKey with
        | None =>
            (Threw (mkError "TypeError"
                      "Cannot read properties of undefined (reading 'feeds')"), w)
        | Some config =>
            match endpoint_walk h config (feeds config) None w with
            | (Some items, _, w1) =>
                (Returned true, rendered h sourceKey config cardElement items w1)
            | (None, lastError, w1) =>
                (Returned false, failed sourceKey config cardElement lastError w1)
            end
        end
    end.
Proof.
  unfold fetchAndRenderSource. cbn [run].
  destruct (querySelector_card sourceKey w) as [cardElement |] eqn:Hq; [| reflexivity].
  destruct (lookup_feed RSS_FEEDS sourceKey) as [config |]; [| reflexivity].
  apply run_loop. eapply querySelector_card_attached; eassumption.
Qed.

(** The endpoint behind the items of a walk. *)
Lemma walk_yield (h : Host) (config : FeedConfig) (feedUrls : list string)
  (lastError : option JSError) (w : World) (items : list NewsItem) :
  fst (fst (endpoint_walk h config feedUrls lastError w)) = Some items ->
  items <> []
  /\ exists feedUrl wi,
       In feedUrl feedUrls
       /\ fst (run h (attempt_endpoint h feedUrl) wi) = Returned items.
Proof.
  revert lastError w. induction feedUrls as [| feedUrl rest IH]; intros lastError w.
  - discriminate.
  - cbn [endpoint_walk].
    set (w0 := print _ w).
    pose proof (attempt_endpoint_outcome h feedUrl w0) as Hout.
    destruct (run h (attempt_endpoint h feedUrl) w0) as [[items0 | e] w1] eqn:Hrun.
    + cbn [fst]. intros [= <-]. split; [exact Hout |].
      exists feedUrl, w0. split; [left; reflexivity |]. rewrite Hrun. reflexivity.
    + intros Hw. destruct (IH _ _ Hw) as (Hne & u & wi & Hin & Hr).
      split; [exact Hne |]. exists u, wi. split; [right; exact Hin | exact Hr].
Qed.

Lemma registered_feeds_nonempty (sourceKey : string) (config : FeedConfig) :
  lookup_feed RSS_FEEDS sourceKey = Some config -> feeds config <> [].
Proof.
  unfold RSS_FEEDS. cbn [lookup_feed].
  repeat (destruct (String.eqb _ sourceKey);
          [intros [= <-]; discriminate |]).
  discriminate.
Qed.

Lemma trace_body_settled (h : Host) (n : nat) (urls : list string) (body : string) :
  trace_body (attempts h n urls) = Some body ->
  exists m u, settled (fetch h m u) = Returned body.
Proof.
  intros Hb. destruct (trace_body_last _ _ _ _ Hb) as (j & u & Hj & _ & _).
  apply attempts_numbered in Hj. destruct Hj as [_ Hs].
  exists (n + j), u. symmetry. exact Hs.
Qed.

Lemma card_of_print (sourceKey : string) (e : ConsoleEntry) (w : World) :
  card_of sourceKey (print e w) = card_of sourceKey w.
Proof. reflexivity. Qed.

(** After a write through the reference that [querySelector] gave for a
    source, the card of the source is the new node. *)
Lemma card_of_write (sourceKey : string) (ref : nat) (m : CardMarkup) (w : World) :
  NoDup (map node_id (page w)) ->
  querySelector_card sourceKey w = Some ref ->
  markup_source m = sourceKey ->
  card_of sourceKey (write_outerHTML ref m w)
  = Some {| node_id := next_node w; markup := m; click_listeners := 0 |}.
Proof.
  unfold querySelector_card, card_of, write_outerHTML. cbn [page].
  generalize (next_node w) as fresh. intros fresh.
  induction (page w) as [| c rest IH]; intros Hnd Hq Hm; cbn [find] in Hq.
  - discriminate.
  - cbn [replace_node]. cbn [map] in Hnd. apply NoDup_cons_iff in Hnd.
    destruct Hnd as [Hnotin Hnd].
    destruct (String.eqb (data_source c) sourceKey) eqn:Hk.
    + injection Hq as <-. rewrite Nat.eqb_refl. cbn [find].
      unfold data_source at 1. cbn [markup]. rewrite Hm, String.eqb_refl.
      reflexivity.
    + destruct (find _ rest) as [c' |] eqn:Hf; [| discriminate].
      injection Hq as <-.
      destruct (Nat.eqb_spec (node_id c) (node_id c')) as [Heq | Hneq].
      * exfalso. apply Hnotin. rewrite Heq. apply in_map.
        apply find_some in Hf. apply Hf.
      * cbn [find]. rewrite Hk. apply IH; [exact Hnd | reflexivity | exact Hm].
Qed.



(** The second endpoint of "rfi" answers through the first relay: the call
    returns [true] and the card shows the eight items. *)
Example fetchAndRenderSource_second_endpoint :
  let net := fun (n : nat) (u : string) =>
               if Nat.eqb n 4 then Response 200 (BodyText "<ten items/>")
               else Response 503 (BodyText "") in
  let h := Fixture.host net false in
  exists w',
    run h (fetchAndRenderSource h "rfi") Fixture.initial_world = (Returned true, w')
    /\ List.length (requests w') = 5
    /\ match option_map markup (card_of "rfi" w') with
       | Some (NewsCard _ _ rows updateTime) =>
           map row_title rows = ["a0"; "a1"; "a2"; "a3"; "a4"; "a5"; "a6"; "a7"]
           /\ map row_hot rows = [true; true; true; false; false; false; false; false]
           /\ updateTime = "刚刚更新"
       | _ => False
       end.
Proof.
  cbn zeta. eexists. split; [vm_compute; reflexivity |].
  vm_compute. repeat split.
Qed.

Lemma collect_none (h : Host) (reads index : nat) (l : list node) :
  Forall (fun e => JSString.truthy (entry_title e) = false) l ->
  collect h reads index l = [].
Proof.
  intros Hall. revert reads index.
  induction Hall as [| e l He _ IH]; intros reads index; cbn [collect].
  - reflexivity.
  - rewrite He, IH. reflexivity.
Qed.

(** C8 as stated fails: on a well-formed payload whose two entries both have
    a blank title, [parseRSS] does not fail, it returns the empty list. *)
Lemma parseRSS_empty_is_not_an_error :
  DOM.document_querySelector ["parsererror"]
    (DOMParser_parseFromString (Fixture.host Fixture.offline false)
       "<only blank titles/>") = None
  /\ fst (parseRSS (Fixture.host Fixture.offline false) 0 "<only blank titles/>")
     = Returned []
  /\ ~ (exists e,
          fst (parseRSS (Fixture.host Fixture.offline false) 0 "<only blank titles/>")
          = Threw e).
Proof.
  split; [reflexivity |]. split; [reflexivity |].
  intros [e He]. discriminate He.
Qed.

(** C8, as the code has it.  For a payload that parses and in which no entry
    among the first eight has a title, [parseRSS] returns the empty list,
    as a success.  It is the resolver that takes an empty list for a failure
    of the endpoint: the attempt ends with the error "No items found in
    feed", which is caught like any other error of the attempt, and the
    loop goes on with the next endpoint, keeping it as the last error. *)
Theorem empty_feed_fails_in_the_resolver (h : Host) (sourceKey : string)
  (config : FeedConfig) (cardElement : nat) (feedUrl : string) (rest : list string)
  (lastError : option JSError) (w : World) (xmlText : string) :
  let w0 := print (ConsoleLog ("📡 Fetching " ++ name config ++ " from "
                               ++ feedUrl ++ "...")) w in
  fst (run h (fetchWithProxy feedUrl) w0) = Returned xmlText ->
  DOM.document_querySelector ["parsererror"] (DOMParser_parseFromString h xmlText)
  = None ->
  Forall (fun e => JSString.truthy (entry_title e) = false)
    (firstn 8 (itemElements_of (DOMParser_parseFromString h xmlText))) ->
  attached cardElement w = true ->
  (forall reads, fst (parseRSS h reads xmlText) = Returned [])
  /\ fst (run h (attempt_endpoint h feedUrl) w0) = Threw (Error "No items found in feed")
  /\ run h (fetchAndRenderSource_loop h sourceKey config cardElement (feedUrl :: rest)
              lastError) w
     = run h (fetchAndRenderSource_loop h sourceKey config cardElement rest
                (Some (Error "No items found in feed")))
         (print (ConsoleWarn ("❌ Failed to fetch " ++ name config ++ " from "
                              ++ feedUrl ++ ":") "No items found in feed")
            (snd (run h (attempt_endpoint h feedUrl) w0))).
Proof.
  intros w0 Hfetch Hok Hblank Ha.
  assert (Hparse : forall reads, fst (parseRSS h reads xmlText) = Returned []).
  { intros reads. rewrite parseRSS_well_formed by exact Hok.
    cbn [fst]. rewrite collect_none by exact Hblank. reflexivity. }
  assert (Hattempt : fst (run h (attempt_endpoint h feedUrl) w0)
                     = Threw (Error "No items found in feed")).
  { rewrite run_attempt_endpoint.
    destruct (run h (fetchWithProxy feedUrl) w0) as [o w1].
    cbn [fst] in Hfetch. subst o. cbn zeta. rewrite Hparse. reflexivity. }
  split; [exact Hparse |]. split; [exact Hattempt |].
  rewrite run_loop_step by exact Ha. fold w0.
  destruct (run h (attempt_endpoint h feedUrl) w0) as [o w1].
  cbn [fst] in Hattempt. subst o. reflexivity.
Qed.

(** Both endpoints of "rfi" answer with a feed of blank titles: the error
    card shows the message of the resolver. *)
Lemma empty_feed_fails_in_the_resolver_witness :
  let h := Fixture.host (fun _ _ => Response 200 (BodyText "<only blank titles/>"))
             false in
  let config := {| name := "法广"; icon := "📻"; color := "rfi"; tag := "国际视角";
                   feeds := [ "https://rsshub.app/rfi/cn";
                              "https://www.rfi.fr/cn/rss" ] |} in
  (forall reads, fst (parseRSS h reads "<only blank titles/>") = Returned [])
  /\ fst (run h (fetchAndRenderSource_loop h "rfi" config 3 (feeds config) None)
            Fixture.initial_world)
     = Returned false
  /\ option_map markup
       (card_of "rfi"
          (snd (run h (fetchAndRenderSource_loop h "rfi" config 3 (feeds config) None)
                  Fixture.initial_world)))
     = Some (ErrorCard "rfi" config "No items found in feed").
Proof.
  cbn zeta.
  destruct (empty_feed_fails_in_the_resolver
              (Fixture.host (fun _ _ => Response 200 (BodyText "<only blank titles/>"))
                 false)
              "rfi"
              {| name := "法广"; icon := "📻"; color := "rfi"; tag := "国际视角";
                 feeds := [ "https://rsshub.app/rfi/cn";
                            "https://www.rfi.fr/cn/rss" ] |}
              3 "https://rsshub.app/rfi/cn" ["https://www.rfi.fr/cn/rss"] None
              Fixture.initial_world "<only blank titles/>")
    as (Hparse & _ & Hloop).
  - reflexivity.
  - reflexivity.
  - apply Forall_forall. intros e He. apply negb_true_iff. revert e He.
    apply (proj1 (forallb_forall
                    (fun e => negb (JSString.truthy (entry_title e))) _)).
    vm_compute. reflexivity.
  - reflexivity.
  - split; [exact Hparse |].
    cbn [feeds]. rewrite Hloop. split; vm_compute; reflexivity.
Defined.

(* ================================================================== *)
(** * Overlapping cycles: a late completion *)
(* ================================================================== *)

Lemma quiet_refl (w : World) : quiet w w.
Proof. split; reflexivity. Qed.

Lemma quiet_trans (w1 w2 w3 : World) : quiet w1 w2 -> quiet w2 w3 -> quiet w1 w3.
Proof. intros [H1 H2] [H3 H4]. split; congruence. Qed.

Lemma quiet_same_page (w w' : World) : page w' = page w -> quiet w w'.
Proof. intros Hp. unfold quiet, shown. rewrite Hp. split; reflexivity. Qed.

Lemma attached_In (ref : nat) (w : World) :
  attached ref w = true <-> In ref (map node_id (page w)).
Proof.
  unfold attached. rewrite existsb_exists, in_map_iff. split.
  - intros (c & Hin & Heq). apply Nat.eqb_eq in Heq. exists c. split; assumption.
  - intros (c & Heq & Hin). exists c. split; [exact Hin | apply Nat.eqb_eq, Heq].
Qed.

Lemma attached_ids (ref : nat) (w w' : World) :
  map node_id (page w') = map node_id (page w) -> attached ref w' = attached ref w.
Proof.
  intros Hids. apply eq_true_iff_eq. rewrite !attached_In, Hids. reflexivity.
Qed.

Lemma quiet_attached (ref : nat) (w w' : World) :
  quiet w w' -> attached ref w' = attached ref w.
Proof. intros [_ Hids]. apply attached_ids. exact Hids. Qed.

Lemma listen_first_markup (sourceKey : string) (cards : list CardElement) :
  map markup (listen_first sourceKey cards) = map markup cards
  /\ map node_id (listen_first sourceKey cards) = map node_id cards.
Proof.
  induction cards as [| c rest [IHm IHi]]; cbn [listen_first].
  - split; reflexivity.
  - destruct (String.eqb (data_source c) sourceKey).
    + destruct (has_news_items (markup c)); split; reflexivity.
    + cbn [map]. rewrite IHm, IHi. split; reflexivity.
Qed.

Lemma quiet_add_click_listeners (sourceKey : string) (w : World) :
  quiet w (add_click_listeners sourceKey w).
Proof.
  unfold quiet, shown, add_click_listeners. cbn [page].
  apply listen_first_markup.
Qed.

Section Safe.

Variable c : nat.

Lemma safe_bind (A B : Type) (t : task A) (f : A -> task B) (w : World) :
  safe c t w -> (forall a w', safe c (f a) w') -> safe c (bind t f) w.
Proof.
  intros Ht Hf. revert w Ht.
  induction t as [a | e | k IH | w0 t IH | url k IH]; intros w Ht; cbn [bind safe] in *.
  - apply Hf.
  - exact I.
  - apply IH. exact Ht.
  - destruct Ht as [Hq Ht]. split; [exact Hq | apply IH; exact Ht].
  - intros r w'. apply IH. apply Ht.
Qed.

Lemma safe_try_catch (A : Type) (t : task A) (handler : JSError -> task A)
  (w : World) :
  safe c t w -> (forall e w', safe c (handler e) w') ->
  safe c (try_catch t handler) w.
Proof.
  intros Ht Hh. revert w Ht.
  induction t as [a | e | k IH | w0 t IH | url k IH]; intros w Ht;
    cbn [try_catch safe] in *.
  - exact I.
  - apply Hh.
  - apply IH. exact Ht.
  - destruct Ht as [Hq Ht]. split; [exact Hq | apply IH; exact Ht].
  - intros r w'. apply IH. apply Ht.
Qed.

Lemma safe_modify (f : World -> World) (w : World) :
  (forall w0, quiet w0 (f w0)) -> safe c (modify f) w.
Proof. intros Hf. cbn. split; [intros _; apply Hf | exact I]. Qed.

Lemma safe_print (e : ConsoleEntry) (w : World) : safe c (modify (print e)) w.
Proof. apply safe_modify. intros w0. apply quiet_same_page. reflexivity. Qed.

(** A safe task run to its end, from a state without [c], is quiet. *)
Lemma safe_run (h : Host) (A : Type) (t : task A) (w : World) :
  safe c t w -> attached c w = false -> quiet w (snd (run h t w)).
Proof.
  revert w. induction t as [a | e | k IH | w0 t IH | url k IH];
    intros w Ht Hc; cbn [run safe] in *.
  - apply quiet_refl.
  - apply quiet_refl.
  - apply IH; assumption.
  - destruct Ht as [Hq Ht]. specialize (Hq Hc).
    apply (quiet_trans _ _ _ Hq). apply IH; [exact Ht |].
    rewrite (quiet_attached c _ _ Hq). exact Hc.
  - apply (quiet_trans _ (issue url w)).
    + apply quiet_same_page. reflexivity.
    + apply IH; [apply Ht | exact Hc].
Qed.


(** The continuation of a safe task at its suspension point is safe. *)
Lemma safe_advance (A : Type) (t : task A) (w w1 : World) (url : string)
  (k : FetchResult -> task A) :
  safe c t w -> advance t w = (Pending url k, w1) ->
  forall r w', safe c (k r) w'.
Proof.
  revert w. induction t as [a | e | k0 IH | w0 t IH | url0 k0 IH];
    intros w Ht Ha; cbn [advance safe] in *.
  - discriminate.
  - discriminate.
  - eapply IH; eassumption.
  - destruct Ht as [_ Ht]. eapply IH; eassumption.
  - injection Ha as _ Hk _. subst k0. exact Ht.
Qed.


Lemma safe_fetchRSS (url : string) (w : World) : safe c (fetchRSS url) w.
Proof.
  unfold fetchRSS. cbn [try_catch safe]. intros r w'.
  destruct r as [e | status body]; [exact I |].
  destruct (negb (response_ok status)); [exact I |].
  destruct body; exact I.
Qed.

Lemma safe_fetchWithProxy_loop (proxies : list string) (url : string) (w : World) :
  safe c (fetchWithProxy_loop proxies url) w.
Proof.
  revert w. induction proxies as [| proxy rest IH]; intros w;
    cbn [fetchWithProxy_loop].
  - exact I.
  - apply safe_try_catch.
    + apply safe_bind; [apply safe_fetchRSS | intros; exact I].
    + intros e w'. apply safe_bind; [apply safe_print | intros; apply IH].
Qed.

Lemma safe_call_parseRSS (h : Host) (xmlText : string) (w : World) :
  safe c (call_parseRSS h xmlText) w.
Proof.
  unfold call_parseRSS. cbn [safe].
  destruct (parseRSS h (clock_reads w) xmlText) as [[items | e] reads'];
    cbn [safe]; (split; [intros _; apply quiet_same_page; reflexivity | exact I]).
Qed.

Lemma safe_new_Date (h : Host) (w : World) : safe c (new_Date h) w.
Proof.
  cbn. split; [intros _; apply quiet_same_page; reflexivity | exact I].
Qed.

Lemma safe_call_formatTimeAgo (h : Host) (date : JSValue) (w : World) :
  safe c (call_formatTimeAgo h date) w.
Proof.
  unfold call_formatTimeAgo. cbn [safe].
  destruct (is_valid_date date); cbn [safe]; [| exact I].
  split; [intros _; apply quiet_same_page; reflexivity | exact I].
Qed.

(** A write through [c] itself changes nothing once [c] is out of the
    page. *)
Lemma safe_set_outerHTML (h : Host) (m : CardMarkup) (w : World) :
  safe c (set_outerHTML h c m) w.
Proof.
  unfold set_outerHTML. cbn [safe].
  destruct (attached c w) eqn:Ha; cbn [safe].
  - split; [intros Hf; congruence | exact I].
  - destruct (detached_outerHTML_throws h); exact I.
Qed.

Lemma safe_initNewsItemClickHandlers (sourceKey : string) (w : World) :
  safe c (initNewsItemClickHandlers sourceKey) w.
Proof.
  apply safe_modify. intros w0. apply quiet_add_click_listeners.
Qed.

(** The loop of [fetchAndRenderSource] writes through its card element
    only. *)
Lemma safe_loop (h : Host) (sourceKey : string) (config : FeedConfig)
  (feedUrls : list string) (lastError : option JSError) (w : World) :
  safe c (fetchAndRenderSource_loop h sourceKey config c feedUrls lastError) w.
Proof.
  revert lastError w. induction feedUrls as [| feedUrl rest IH];
    intros lastError w; cbn [fetchAndRenderSource_loop].
  - apply safe_bind; [apply safe_set_outerHTML |]. intros _ w1.
    apply safe_bind; [apply safe_print |]. intros; exact I.
  - apply safe_try_catch.
    + apply safe_bind; [apply safe_print |]. intros _ w1.
      apply safe_bind; [apply safe_fetchWithProxy_loop |]. intros xmlText w2.
      apply safe_bind; [apply safe_call_parseRSS |]. intros items w3.
      apply safe_bind.
      { destruct (Nat.eqb (List.length items) 0); exact I. }
      intros _ w4. apply safe_bind.
      { destruct items; [apply safe_new_Date | exact I]. }
      intros latestDate w5.
      apply safe_bind; [apply safe_call_formatTimeAgo |]. intros updateTime w6.
      apply safe_bind; [apply safe_set_outerHTML |]. intros _ w7.
      apply safe_bind; [apply safe_initNewsItemClickHandlers |]. intros _ w8.
      apply safe_bind; [apply safe_print |]. intros; exact I.
    + intros e w1. apply safe_bind; [apply safe_print |]. intros _ w2. apply IH.
Qed.

End Safe.

(** A call of [fetchAndRenderSource] in flight holds the card element it
    found when it started, and its continuation is safe for that element. *)
Lemma in_flight_safe (h : Host) (sourceKey : string) (w0 w1 : World) (url : string)
  (k : FetchResult -> task bool) :
  advance (fetchAndRenderSource h sourceKey) w0 = (Pending url k, w1) ->
  exists cardElement,
    querySelector_card sourceKey w0 = Some cardElement
    /\ forall r w', safe cardElement (k r) w'.
Proof.
  unfold fetchAndRenderSource. cbn [advance].
  destruct (querySelector_card sourceKey w0) as [cardElement |]; [| discriminate].
  destruct (lookup_feed RSS_FEEDS sourceKey) as [config |]; [| discriminate].
  intros Ha. exists cardElement. split; [reflexivity |].
  eapply safe_advance; [apply safe_loop | exact Ha].
Qed.


(* ------------------------------------------------------------------ *)
(** ** The element held by a call in flight, while the page evolves *)

Section Held.

(** The element found for the source when the call started. *)
Variable c : nat.
Variable sourceKey : string.


Lemma held_start (w : World) :
  well_formed w -> querySelector_card sourceKey w = Some c -> held c sourceKey w.
Proof.
  intros [Hnd Hold] Hq. split; [split; assumption |]. split; [| intros _; exact Hq].
  apply querySelector_card_attached in Hq. apply attached_In in Hq.
  apply in_map_iff in Hq. destruct Hq as (d & Hid & Hin).
  rewrite Forall_forall in Hold. rewrite <- Hid. apply Hold. exact Hin.
Qed.

Lemma replace_node_absent (ref : nat) (new : CardElement) (cards : list CardElement) :
  ~ In ref (map node_id cards) -> replace_node ref new cards = cards.
Proof.
  induction cards as [| d rest IH]; cbn [replace_node map]; intros Hn.
  - reflexivity.
  - destruct (Nat.eqb_spec (node_id d) ref) as [Heq | Hneq].
    + exfalso. apply Hn. left. exact Heq.
    + f_equal. apply IH. intros Hin. apply Hn. right. exact Hin.
Qed.

(** The nodes after a write: the one written through is gone, a new one
    has come, the others are as before. *)
Lemma replace_node_ids (ref : nat) (new : CardElement) (cards : list CardElement)
  (x : nat) :
  NoDup (map node_id cards) ->
  In x (map node_id (replace_node ref new cards)) ->
  x = node_id new \/ (x <> ref /\ In x (map node_id cards)).
Proof.
  induction cards as [| d rest IH]; cbn [replace_node map]; intros Hnd Hin.
  - contradiction.
  - apply NoDup_cons_iff in Hnd. destruct Hnd as [Hnotin Hnd].
    destruct (Nat.eqb_spec (node_id d) ref) as [Heq | Hneq].
    + cbn [map] in Hin. destruct Hin as [Hx | Hx].
      * left. symmetry. exact Hx.
      * right. split; [| right; exact Hx].
        intros ->. apply Hnotin. rewrite Heq. exact Hx.
    + cbn [map] in Hin. destruct Hin as [Hx | Hx].
      * right. split; [congruence | left; exact Hx].
      * destruct (IH Hnd Hx) as [Hnew | [Hne Hold]].
        -- left. exact Hnew.
        -- right. split; [exact Hne | right; exact Hold].
Qed.

Lemma replace_node_NoDup (ref : nat) (new : CardElement) (cards : list CardElement) :
  NoDup (map node_id cards) ->
  ~ In (node_id new) (map node_id cards) ->
  NoDup (map node_id (replace_node ref new cards)).
Proof.
  induction cards as [| d rest IH]; cbn [replace_node map]; intros Hnd Hfresh.
  - constructor.
  - apply NoDup_cons_iff in Hnd. destruct Hnd as [Hnotin Hnd].
    destruct (Nat.eqb_spec (node_id d) ref) as [Heq | Hneq]; cbn [map].
    + constructor; [| exact Hnd]. intros Hin. apply Hfresh. right. exact Hin.
    + constructor.
      * intros Hin. apply replace_node_ids in Hin; [| exact Hnd].
        destruct Hin as [Hnew | [_ Hold]].
        -- apply Hfresh. left. exact Hnew.
        -- apply Hnotin. exact Hold.
      * apply IH; [exact Hnd |]. intros Hin. apply Hfresh. right. exact Hin.
Qed.

Lemma replace_node_bound (ref : nat) (new : CardElement) (cards : list CardElement)
  (bound : nat) :
  Forall (fun d => node_id d < bound) cards ->
  node_id new < bound ->
  Forall (fun d => node_id d < bound) (replace_node ref new cards).
Proof.
  intros Hall Hnew. induction Hall as [| d rest Hd Hrest IH]; cbn [replace_node].
  - constructor.
  - destruct (Nat.eqb (node_id d) ref); constructor; assumption.
Qed.

(** A write through another reference leaves the card of the source
    where it is. *)
Lemma replace_node_find (ref : nat) (new : CardElement) (cards : list CardElement)
  (d0 : CardElement) :
  (forall d, In d cards -> node_id d = ref -> data_source d = data_source new) ->
  find (fun d => String.eqb (data_source d) sourceKey) cards = Some d0 ->
  node_id d0 <> ref ->
  find (fun d => String.eqb (data_source d) sourceKey) (replace_node ref new cards)
  = Some d0.
Proof.
  induction cards as [| d rest IH]; cbn [replace_node find]; intros Hkey Hf Hne.
  - discriminate.
  - destruct (Nat.eqb_spec (node_id d) ref) as [Heq | Hneq].
    + cbn [find]. rewrite <- (Hkey d (or_introl eq_refl) Heq).
      destruct (String.eqb (data_source d) sourceKey).
      * injection Hf as <-. contradiction.
      * exact Hf.
    + cbn [find]. destruct (String.eqb (data_source d) sourceKey).
      * exact Hf.
      * apply IH; [| exact Hf | exact Hne].
        intros d1 Hin. apply Hkey. right. exact Hin.
Qed.

Lemma held_write (ref : nat) (m : CardMarkup) (w : World) :
  (forall d, In d (page w) -> node_id d = ref -> data_source d = markup_source m) ->
  held c sourceKey w -> held c sourceKey (write_outerHTML ref m w).
Proof.
  intros Hkey ([Hnd Hold] & Hc & Hcard).
  set (new := {| node_id := next_node w; markup := m; click_listeners := 0 |}).
  assert (Hfresh : ~ In (node_id new) (map node_id (page w))).
  { intros Hin. apply in_map_iff in Hin. destruct Hin as (d & Hid & Hin).
    rewrite Forall_forall in Hold. specialize (Hold d Hin).
    cbn [new node_id] in Hid. lia. }
  split; [split |]; cbn [write_outerHTML page next_node].
  - apply replace_node_NoDup; assumption.
  - apply replace_node_bound; [| cbn; lia].
    eapply Forall_impl; [| exact Hold]. cbn. intros d Hd. lia.
  - split; [lia |].
    intros Ha. apply attached_In in Ha. cbn [write_outerHTML page] in Ha.
    apply replace_node_ids in Ha; [| exact Hnd].
    destruct Ha as [Hnew | [Hne Hin]].
    { cbn [node_id] in Hnew. lia. }
    apply attached_In in Hin. specialize (Hcard Hin).
    unfold querySelector_card in Hcard |- *.
    destruct (find _ (page w)) as [d0 |] eqn:Hf; [| discriminate].
    injection Hcard as Hid.
    pose proof (replace_node_find ref new (page w) d0) as Hfind.
    cbn [write_outerHTML page]. fold new. rewrite Hfind.
    + rewrite Hid. reflexivity.
    + exact Hkey.
    + exact Hf.
    + rewrite Hid. exact Hne.
Qed.

Lemma skeletons_ids (id : nat) (table : list (string * FeedConfig)) :
  map node_id (skeletons_from id table) = seq id (List.length table).
Proof.
  revert id. induction table as [| [key config] rest IH]; intros id;
    cbn [skeletons_from map List.length seq].
  - reflexivity.
  - rewrite IH. reflexivity.
Qed.

Lemma held_reset (w : World) : held c sourceKey w -> held c sourceKey (reset_cards w).
Proof.
  intros ([Hnd Hold] & Hc & Hcard).
  split; [split |]; cbn [reset_cards page next_node].
  - rewrite skeletons_ids. apply seq_NoDup.
  - apply Forall_forall. intros d Hin.
    apply (in_map node_id) in Hin. rewrite skeletons_ids in Hin.
    apply in_seq in Hin. lia.
  - split; [lia |]. intros Ha. exfalso.
    apply attached_In in Ha. cbn [reset_cards page] in Ha.
    rewrite skeletons_ids in Ha. apply in_seq in Ha. lia.
Qed.

Lemma listen_first_find (key : string) (cards : list CardElement) :
  option_map node_id
    (find (fun d => String.eqb (data_source d) sourceKey) (listen_first key cards))
  = option_map node_id
      (find (fun d => String.eqb (data_source d) sourceKey) cards).
Proof.
  induction cards as [| d rest IH]; cbn [listen_first find].
  - reflexivity.
  - destruct (String.eqb (data_source d) key) eqn:Hk.
    + destruct (has_news_items (markup d)); cbn [find].
      * unfold data_source at 1. cbn [markup]. fold (data_source d).
        destruct (String.eqb (data_source d) sourceKey); reflexivity.
      * reflexivity.
    + cbn [find]. destruct (String.eqb (data_source d) sourceKey);
        [reflexivity | exact IH].
Qed.

Lemma querySelector_card_listeners (key : string) (w : World) :
  querySelector_card sourceKey (add_click_listeners key w)
  = querySelector_card sourceKey w.
Proof.
  unfold querySelector_card. cbn [add_click_listeners page].
  pose proof (listen_first_find key (page w)) as Hf.
  destruct (find _ (listen_first key (page w)));
    destruct (find _ (page w)); cbn [option_map] in Hf; congruence.
Qed.

Lemma held_listeners (key : string) (w : World) :
  held c sourceKey w -> held c sourceKey (add_click_listeners key w).
Proof.
  intros ([Hnd Hold] & Hc & Hcard).
  destruct (listen_first_markup key (page w)) as [_ Hids].
  split; [split |]; cbn [add_click_listeners page next_node].
  - rewrite Hids. exact Hnd.
  - apply Forall_forall. intros d Hin.
    apply (in_map node_id) in Hin. rewrite Hids in Hin.
    apply in_map_iff in Hin. destruct Hin as (d' & Hid & Hin').
    rewrite Forall_forall in Hold. rewrite <- Hid. apply Hold. exact Hin'.
  - split; [exact Hc |]. intros Ha.
    rewrite querySelector_card_listeners. apply Hcard.
    rewrite <- Ha. symmetry. apply attached_ids. exact Hids.
Qed.

Lemma held_mutation (w w' : World) : mutation w w' -> held c sourceKey w -> held c sourceKey w'.
Proof.
  intros Hm Hh. destruct Hm as [ref m Hkey | | key | w' Hp Hn].
  - apply held_write; assumption.
  - apply held_reset; assumption.
  - apply held_listeners; assumption.
  - destruct Hh as ([Hnd Hold] & Hc & Hcard).
    unfold held, well_formed, querySelector_card, attached.
    rewrite Hp, Hn. repeat split; assumption.
Qed.

Lemma held_evolves (w w' : World) : evolves w w' -> held c sourceKey w -> held c sourceKey w'.
Proof.
  induction 1 as [| w1 w2 _ IH Hm]; intros Hh.
  - exact Hh.
  - eapply held_mutation; [exact Hm | apply IH; exact Hh].
Qed.

(** Once the source shows another card, [c] is out of the page. *)
Lemma held_replaced (w : World) :
  held c sourceKey w -> querySelector_card sourceKey w <> Some c -> attached c w = false.
Proof.
  intros (_ & _ & Hcard) Hq.
  destruct (attached c w) eqn:Ha; [| reflexivity].
  exfalso. apply Hq. apply Hcard. reflexivity.
Qed.

End Held.

Lemma initial_world_well_formed : well_formed Fixture.initial_world.
Proof.
  split.
  - change (map node_id (page Fixture.initial_world))
      with (map node_id (skeletons_from 0 RSS_FEEDS)).
    rewrite skeletons_ids. apply seq_NoDup.
  - apply Forall_forall. intros d Hin.
    apply (in_map node_id) in Hin.
    change (map node_id (page Fixture.initial_world))
      with (map node_id (skeletons_from 0 RSS_FEEDS)) in Hin.
    rewrite skeletons_ids in Hin. apply in_seq in Hin.
    change (next_node Fixture.initial_world) with (0 + List.length RSS_FEEDS).
    lia.
Qed.

(** Once the card element that a task writes through has been replaced in
    the page, running the task to its end changes the markup of no card. *)
Lemma replaced_element_quiet (c : nat) (sourceKey : string) (h : Host)
  (t : task bool) (w0 w2 : World) :
  well_formed w0 ->
  querySelector_card sourceKey w0 = Some c ->
  evolves w0 w2 ->
  querySelector_card sourceKey w2 <> Some c ->
  safe c t w2 ->
  shown (snd (run h t w2)) = shown w2.
Proof.
  intros Hwf Hq Hev Hnew Hsafe.
  assert (Hheld : held c sourceKey w2).
  { eapply held_evolves; [exact Hev |]. apply held_start; assumption. }
  pose proof (held_replaced c sourceKey w2 Hheld Hnew) as Hout.
  destruct (safe_run c h bool t w2 Hsafe Hout) as [Hshown _].
  exact Hshown.
Qed.



(** The order of the claim, run on the fixtures: both cycles have a call
    for "rfi" in flight, the second cycle's completes first and is recorded,
    the first cycle's completes late.  The card keeps the second cycle's
    items, whether the engine ignores the write to the detached element or
    throws on it. *)
Example late_completion_on_fixtures (throws : bool) :
  let h := Fixture.host Fixture.offline throws in
  let cycle1 := advance (fetchAndRenderSource h "rfi") Fixture.initial_world in
  let cycle2 := advance (fetchAndRenderSource h "rfi") (snd cycle1) in
  let done2 := complete h (Response 200 (BodyText "<five items, third blank/>"))
                 (fst cycle2) (snd cycle2) in
  let done1 := complete h (Response 200 (BodyText "<ten items/>"))
                 (fst cycle1) (snd done2) in
  titles_shown "rfi" (snd done2) = ["b0"; "b1"; "b3"; "b4"]
  /\ titles_shown "rfi" (snd done1) = ["b0"; "b1"; "b3"; "b4"].
Proof. destruct throws; split; vm_compute; reflexivity. Qed.

(** Writes are not ordered by cycle either.  Two fan-out cycles are
    launched one after the other, so that each has a call for "rfi" (the
    fourth key) in flight, holding the same card element.  The first
    cycle's call completes first and its result is recorded.  The second
    cycle's call, the newer one, completes next: its write goes to an
    element that is out of the page and is lost, although no newer result
    was recorded; the page keeps the older cycle's items. *)
Example newer_cycle_result_dropped :
  let h := Fixture.host Fixture.offline false in
  let cycle1 := fetchAllSources_launch h Fixture.initial_world in
  let cycle2 := fetchAllSources_launch h (snd cycle1) in
  let call1 := nth 3 (fst cycle1) (Finished (Returned false)) in
  let call2 := nth 3 (fst cycle2) (Finished (Returned false)) in
  let done1 := complete h (Response 200 (BodyText "<ten items/>")) call1 (snd cycle2) in
  let done2 := complete h (Response 200 (BodyText "<five items, third blank/>"))
                 call2 (snd done1) in
  nth_error (map fst RSS_FEEDS) 3 = Some "rfi"
  /\ fst done1 = Returned true
  /\ titles_shown "rfi" (snd done1)
     = ["a0"; "a1"; "a2"; "a3"; "a4"; "a5"; "a6"; "a7"]
  /\ fst done2 = Returned true
  /\ titles_shown "rfi" (snd done2)
     = ["a0"; "a1"; "a2"; "a3"; "a4"; "a5"; "a6"; "a7"].
Proof. cbn zeta. repeat split; vm_compute; reflexivity. Qed.


(** Where the engine throws on the write to a detached element, the late
    completion of a call that had found its feed ends by throwing: the
    error of the write is caught at line 390, the remaining endpoints are
    tried, and the write of the error card, outside any [try], throws
    again. *)
Example late_completion_may_throw :
  let h := Fixture.host Fixture.offline true in
  let cycle1 := advance (fetchAndRenderSource h "rfi") Fixture.initial_world in
  let cycle2 := advance (fetchAndRenderSource h "rfi") (snd cycle1) in
  let done2 := complete h (Response 200 (BodyText "<five items, third blank/>"))
                 (fst cycle2) (snd cycle2) in
  let done1 := complete h (Response 200 (BodyText "<ten items/>"))
                 (fst cycle1) (snd done2) in
  fst done1
  = Threw (mkError "NoModificationAllowedError" "This element has no parent node.")
  /\ titles_shown "rfi" (snd done1) = ["b0"; "b1"; "b3"; "b4"].
Proof. split; vm_compute; reflexivity. Qed.

(** The late completion is not without effect on the newer card where the
    engine ignores the write to the detached element: line 385 runs all the
    same and attaches a second set of click listeners to the card in the
    page. *)
Example late_completion_listeners :
  let h := Fixture.host Fixture.offline false in
  let cycle1 := advance (fetchAndRenderSource h "rfi") Fixture.initial_world in
  let cycle2 := advance (fetchAndRenderSource h "rfi") (snd cycle1) in
  let done2 := complete h (Response 200 (BodyText "<five items, third blank/>"))
                 (fst cycle2) (snd cycle2) in
  let done1 := complete h (Response 200 (BodyText "<ten items/>"))
                 (fst cycle1) (snd done2) in
  option_map click_listeners (card_of "rfi" (snd done2)) = Some 1
  /\ option_map click_listeners (card_of "rfi" (snd done1)) = Some 2.
Proof. split; vm_compute; reflexivity. Qed.

(* ------------------------------------------------------------------ *)
(** ** The calls of the program evolve the page *)

Lemma evolves_trans (w1 w2 w3 : World) : evolves w1 w2 -> evolves w2 w3 -> evolves w1 w3.
Proof.
  intros H12 H23. induction H23 as [| wa wb _ IH Hm].
  - exact H12.
  - eapply evolves_step; [exact IH | exact Hm].
Qed.

Lemma evolves_one (w w' : World) : mutation w w' -> evolves w w'.
Proof. intros Hm. eapply evolves_step; [apply evolves_refl | exact Hm]. Qed.

Section Keyed.

Variable c : nat.
Variable sourceKey : string.


Lemma replace_node_In (ref : nat) (new : CardElement) (cards : list CardElement)
  (d : CardElement) :
  In d (replace_node ref new cards) -> d = new \/ In d cards.
Proof.
  induction cards as [| d0 rest IH]; cbn [replace_node]; intros Hin.
  - contradiction.
  - destruct (Nat.eqb (node_id d0) ref).
    + destruct Hin as [<- | Hin]; [left; reflexivity | right; right; exact Hin].
    + destruct Hin as [<- | Hin]; [right; left; reflexivity |].
      destruct (IH Hin) as [-> | Hold]; [left; reflexivity | right; right; exact Hold].
Qed.

Lemma listen_first_In (key : string) (cards : list CardElement) (d : CardElement) :
  In d (listen_first key cards) ->
  exists d', In d' cards /\ node_id d' = node_id d /\ data_source d' = data_source d.
Proof.
  induction cards as [| d0 rest IH]; cbn [listen_first]; intros Hin.
  - contradiction.
  - destruct (String.eqb (data_source d0) key).
    + destruct Hin as [<- | Hin].
      * exists d0. split; [left; reflexivity |].
        destruct (has_news_items (markup d0)); split; reflexivity.
      * exists d. split; [right; exact Hin | split; reflexivity].
    + destruct Hin as [<- | Hin].
      * exists d0. split; [left; reflexivity | split; reflexivity].
      * destruct (IH Hin) as (d' & Hin' & Hid & Hkey).
        exists d'. split; [right; exact Hin' | split; assumption].
Qed.

Lemma keyed_mutation (w w' : World) : mutation w w' -> keyed c sourceKey w -> keyed c sourceKey w'.
Proof.
  intros Hm [Hc Hkey]. destruct Hm as [ref m _ | | key | w' Hp Hn].
  - split; cbn [write_outerHTML page next_node]; [lia |].
    intros d Hin Hid. apply replace_node_In in Hin.
    destruct Hin as [-> | Hin]; [cbn [node_id] in Hid; lia |].
    apply Hkey; assumption.
  - split; cbn [reset_cards page next_node]; [lia |].
    intros d Hin Hid. exfalso.
    apply (in_map node_id) in Hin. rewrite skeletons_ids in Hin.
    apply in_seq in Hin. lia.
  - split; cbn [add_click_listeners page next_node]; [exact Hc |].
    intros d Hin Hid. apply listen_first_In in Hin.
    destruct Hin as (d' & Hin' & Hid' & Hkey').
    rewrite <- Hkey'. apply Hkey; [exact Hin' | congruence].
  - unfold keyed. rewrite Hp, Hn. split; assumption.
Qed.

Lemma keyed_evolves (w w' : World) : evolves w w' -> keyed c sourceKey w -> keyed c sourceKey w'.
Proof.
  induction 1 as [| w1 w2 _ IH Hm]; intros Hk.
  - exact Hk.
  - eapply keyed_mutation; [exact Hm | apply IH; exact Hk].
Qed.

Lemma keyed_start (w : World) :
  well_formed w -> querySelector_card sourceKey w = Some c -> keyed c sourceKey w.
Proof.
  intros [Hnd Hold] Hq. unfold querySelector_card in Hq.
  destruct (find _ (page w)) as [d0 |] eqn:Hf; [| discriminate].
  injection Hq as Hid. apply find_some in Hf. destruct Hf as [Hin0 Hk0].
  apply String.eqb_eq in Hk0.
  rewrite Forall_forall in Hold. split.
  - rewrite <- Hid. apply Hold. exact Hin0.
  - intros d Hin Hd.
    assert (d = d0) as ->; [| exact Hk0].
    clear Hold Hk0. revert Hnd Hin Hin0 Hd Hid.
    induction (page w) as [| x rest IH]; cbn [map]; intros Hnd Hin Hin0 Hd Hid.
    + contradiction.
    + apply NoDup_cons_iff in Hnd. destruct Hnd as [Hnotin Hnd].
      destruct Hin as [-> | Hin]; destruct Hin0 as [-> | Hin0].
      * reflexivity.
      * exfalso. apply Hnotin. rewrite Hd, <- Hid. apply in_map. exact Hin0.
      * exfalso. apply Hnotin. rewrite Hid, <- Hd. apply in_map. exact Hin.
      * apply IH; assumption.
Qed.

Lemma tame_bind (A B : Type) (t : task A) (f : A -> task B) (w : World) :
  tame c sourceKey t w -> (forall a w', tame c sourceKey (f a) w') ->
  tame c sourceKey (bind t f) w.
Proof.
  intros Ht Hf. revert w Ht.
  induction t as [a | e | k IH | w0 t IH | url k IH]; intros w Ht; cbn [bind tame] in *.
  - apply Hf.
  - exact I.
  - apply IH. exact Ht.
  - destruct Ht as [Hq Ht]. split; [exact Hq | apply IH; exact Ht].
  - intros r w'. apply IH. apply Ht.
Qed.

Lemma tame_try_catch (A : Type) (t : task A) (handler : JSError -> task A)
  (w : World) :
  tame c sourceKey t w -> (forall e w', tame c sourceKey (handler e) w') ->
  tame c sourceKey (try_catch t handler) w.
Proof.
  intros Ht Hh. revert w Ht.
  induction t as [a | e | k IH | w0 t IH | url k IH]; intros w Ht;
    cbn [try_catch tame] in *.
  - exact I.
  - apply Hh.
  - apply IH. exact Ht.
  - destruct Ht as [Hq Ht]. split; [exact Hq | apply IH; exact Ht].
  - intros r w'. apply IH. apply Ht.
Qed.

Lemma tame_elsewhere (f : World -> World) (w : World) :
  (forall w0, page (f w0) = page w0 /\ next_node (f w0) = next_node w0) ->
  tame c sourceKey (modify f) w.
Proof.
  intros Hf. cbn. split; [| exact I]. intros _.
  destruct (Hf w) as [Hp Hn]. apply mutation_elsewhere; assumption.
Qed.

Lemma tame_print (e : ConsoleEntry) (w : World) :
  tame c sourceKey (modify (print e)) w.
Proof. apply tame_elsewhere. intros w0. split; reflexivity. Qed.

(** A tame task run to its end evolves the page. *)
Lemma tame_run (h : Host) (A : Type) (t : task A) (w : World) :
  tame c sourceKey t w -> keyed c sourceKey w -> evolves w (snd (run h t w)).
Proof.
  revert w. induction t as [a | e | k IH | w0 t IH | url k IH];
    intros w Ht Hk; cbn [run tame] in *.
  - apply evolves_refl.
  - apply evolves_refl.
  - apply IH; assumption.
  - destruct Ht as [Hm Ht]. destruct Hk as [Hc Hkey]. specialize (Hm Hkey).
    eapply evolves_trans; [apply evolves_one; exact Hm |].
    apply IH; [exact Ht |]. eapply keyed_mutation; [exact Hm | split; assumption].
  - assert (Hm : mutation w (issue url w)).
    { apply mutation_elsewhere; reflexivity. }
    eapply evolves_trans; [apply evolves_one; exact Hm |].
    apply IH; [apply Ht |]. eapply keyed_mutation; eassumption.
Qed.

Lemma tame_advance_evolves (A : Type) (t : task A) (w : World) :
  tame c sourceKey t w -> keyed c sourceKey w -> evolves w (snd (advance t w)).
Proof.
  revert w. induction t as [a | e | k IH | w0 t IH | url k IH];
    intros w Ht Hk; cbn [advance tame snd] in *.
  - apply evolves_refl.
  - apply evolves_refl.
  - apply IH; assumption.
  - destruct Ht as [Hm Ht]. destruct Hk as [Hc Hkey]. specialize (Hm Hkey).
    eapply evolves_trans; [apply evolves_one; exact Hm |].
    apply IH; [exact Ht |]. eapply keyed_mutation; [exact Hm | split; assumption].
  - apply evolves_one. apply mutation_elsewhere; reflexivity.
Qed.

Lemma tame_advance (A : Type) (t : task A) (w w1 : World) (url : string)
  (k : FetchResult -> task A) :
  tame c sourceKey t w -> advance t w = (Pending url k, w1) ->
  forall r w', tame c sourceKey (k r) w'.
Proof.
  revert w. induction t as [a | e | k0 IH | w0 t IH | url0 k0 IH];
    intros w Ht Ha; cbn [advance tame] in *.
  - discriminate.
  - discriminate.
  - eapply IH; eassumption.
  - destruct Ht as [_ Ht]. eapply IH; eassumption.
  - injection Ha as _ Hk _. subst k0. exact Ht.
Qed.

Lemma tame_fetchWithProxy_loop (proxies : list string) (url : string) (w : World) :
  tame c sourceKey (fetchWithProxy_loop proxies url) w.
Proof.
  revert w. induction proxies as [| proxy rest IH]; intros w;
    cbn [fetchWithProxy_loop].
  - exact I.
  - apply tame_try_catch.
    + apply tame_bind; [| intros; exact I].
      unfold fetchRSS. cbn [try_catch tame]. intros r w'.
      destruct r as [e | status body]; [exact I |].
      destruct (negb (response_ok status)); [exact I |].
      destruct body; exact I.
    + intros e w'. apply tame_bind; [apply tame_print | intros; apply IH].
Qed.

Lemma tame_set_outerHTML (h : Host) (m : CardMarkup) (w : World) :
  markup_source m = sourceKey -> tame c sourceKey (set_outerHTML h c m) w.
Proof.
  intros Hm. unfold set_outerHTML. cbn [tame].
  destruct (attached c w); cbn [tame].
  - split; [| exact I]. intros Hkey. apply mutation_write.
    intros d Hin Hid. rewrite Hm. apply Hkey; assumption.
  - destruct (detached_outerHTML_throws h); exact I.
Qed.

Lemma tame_loop (h : Host) (config : FeedConfig) (feedUrls : list string)
  (lastError : option JSError) (w : World) :
  tame c sourceKey
    (fetchAndRenderSource_loop h sourceKey config c feedUrls lastError) w.
Proof.
  revert lastError w. induction feedUrls as [| feedUrl rest IH];
    intros lastError w; cbn [fetchAndRenderSource_loop].
  - apply tame_bind; [apply tame_set_outerHTML; reflexivity |]. intros _ w1.
    apply tame_bind; [apply tame_print |]. intros; exact I.
  - apply tame_try_catch.
    + apply tame_bind; [apply tame_print |]. intros _ w1.
      apply tame_bind; [apply tame_fetchWithProxy_loop |]. intros xmlText w2.
      apply tame_bind.
      { unfold call_parseRSS. cbn [tame].
        destruct (parseRSS h (clock_reads w2) xmlText) as [[items | e] reads'];
          cbn [tame];
          (split; [intros _; apply mutation_elsewhere; reflexivity | exact I]). }
      intros items w3. apply tame_bind.
      { destruct (Nat.eqb (List.length items) 0); exact I. }
      intros _ w4. apply tame_bind.
      { destruct items; [| exact I].
        cbn. split; [intros _; apply mutation_elsewhere; reflexivity | exact I]. }
      intros latestDate w5. apply tame_bind.
      { unfold call_formatTimeAgo. cbn [tame].
        destruct (is_valid_date (VDate latestDate)); cbn [tame]; [| exact I].
        split; [intros _; apply mutation_elsewhere; reflexivity | exact I]. }
      intros updateTime w6.
      apply tame_bind; [apply tame_set_outerHTML; reflexivity |]. intros _ w7.
      apply tame_bind.
      { cbn. split; [intros _; apply mutation_listeners | exact I]. }
      intros _ w8. apply tame_bind; [apply tame_print |]. intros; exact I.
    + intros e w1. apply tame_bind; [apply tame_print |]. intros _ w2. apply IH.
Qed.

End Keyed.

(** Starting a call evolves the page (it only logs and hands a request to
    [fetch]), and so does running a call in flight to its end, at whatever
    later state of the evolving page. *)
Lemma in_flight_evolves (h : Host) (sourceKey : string) (w0 w1 : World) (url : string)
  (k : FetchResult -> task bool) :
  well_formed w0 ->
  advance (fetchAndRenderSource h sourceKey) w0 = (Pending url k, w1) ->
  evolves w0 w1
  /\ forall w r, evolves w0 w -> evolves w (snd (run h (k r) w)).
Proof.
  intros Hwf Hflight.
  assert (Hsplit : exists c config,
             querySelector_card sourceKey w0 = Some c
             /\ advance (fetchAndRenderSource_loop h sourceKey config c (feeds config)
                           None) w0 = (Pending url k, w1)).
  { unfold fetchAndRenderSource in Hflight. cbn [advance] in Hflight.
    destruct (querySelector_card sourceKey w0) as [c |]; [| discriminate].
    destruct (lookup_feed RSS_FEEDS sourceKey) as [config |]; [| discriminate].
    exists c, config. split; [reflexivity | exact Hflight]. }
  destruct Hsplit as (c & config & Hq & Hloop).
  pose proof (keyed_start c sourceKey w0 Hwf Hq) as Hk0.
  pose proof (tame_loop c sourceKey h config (feeds config) None w0) as Htame.
  split.
  - pose proof (tame_advance_evolves c sourceKey bool _ w0 Htame Hk0) as Hev.
    rewrite Hloop in Hev. exact Hev.
  - intros w r Hev. eapply tame_run.
    + eapply tame_advance; [exact Htame | exact Hloop].
    + eapply keyed_evolves; [exact Hev | exact Hk0].
Qed.

Lemma well_formed_mutation (w w' : World) :
  mutation w w' -> well_formed w -> well_formed w'.
Proof.
  intros Hm [Hnd Hold]. destruct Hm as [ref m _ | | key | w' Hp Hn].
  - split; cbn [write_outerHTML page next_node].
    + apply replace_node_NoDup; [exact Hnd |].
      intros Hin. apply in_map_iff in Hin. destruct Hin as (d & Hid & Hin).
      rewrite Forall_forall in Hold. specialize (Hold d Hin).
      cbn [node_id] in Hid. lia.
    + apply replace_node_bound; [| cbn; lia].
      eapply Forall_impl; [| exact Hold]. cbn. intros d Hd. lia.
  - split; cbn [reset_cards page next_node].
    + rewrite skeletons_ids. apply seq_NoDup.
    + apply Forall_forall. intros d Hin.
      apply (in_map node_id) in Hin. rewrite skeletons_ids in Hin.
      apply in_seq in Hin. lia.
  - destruct (listen_first_markup key (page w)) as [_ Hids].
    split; cbn [add_click_listeners page next_node].
    + rewrite Hids. exact Hnd.
    + apply Forall_forall. intros d Hin.
      apply (in_map node_id) in Hin. rewrite Hids in Hin.
      apply in_map_iff in Hin. destruct Hin as (d' & Hid & Hin').
      rewrite Forall_forall in Hold. rewrite <- Hid. apply Hold. exact Hin'.
  - unfold well_formed. rewrite Hp, Hn. split; assumption.
Qed.

Lemma well_formed_evolves (w w' : World) :
  evolves w w' -> well_formed w -> well_formed w'.
Proof.
  induction 1 as [| w1 w2 _ IH Hm]; intros Hwf.
  - exact Hwf.
  - eapply well_formed_mutation; [exact Hm | apply IH; exact Hwf].
Qed.

(** Two overlapping cycles, in full.  The first cycle starts a call for the
    source; the page evolves; the second cycle starts its call for the
    source; the page evolves; the second call runs to its end, and the page
    evolves again, to a state where the source shows another card than the
    one the first call found.  The first call, completing then, changes the
    markup of no card. *)
Corollary two_cycles_late_completion (h : Host) (sourceKey : string)
  (w0 w1 wa wb wc wd : World) (url1 url2 : string)
  (k1 k2 : FetchResult -> task bool) (r1 r2 : FetchResult) :
  well_formed w0 ->
  advance (fetchAndRenderSource h sourceKey) w0 = (Pending url1 k1, w1) ->
  evolves w1 wa ->
  advance (fetchAndRenderSource h sourceKey) wa = (Pending url2 k2, wb) ->
  evolves wb wc ->
  evolves (snd (run h (k2 r2) wc)) wd ->
  querySelector_card sourceKey wd <> querySelector_card sourceKey w0 ->
  shown (snd (run h (k1 r1) wd)) = shown wd.
Proof.
  intros Hwf0 Hstart1 Hev1 Hstart2 Hev2 Hev3 Hnew.
  destruct (in_flight_evolves h sourceKey w0 w1 url1 k1 Hwf0 Hstart1) as [Hadv1 _].
  assert (Hwfa : well_formed wa).
  { eapply well_formed_evolves; [| exact Hwf0].
    eapply evolves_trans; [exact Hadv1 | exact Hev1]. }
  destruct (in_flight_evolves h sourceKey wa wb url2 k2 Hwfa Hstart2) as [Hadv2 Hrun2].
  destruct (in_flight_safe h sourceKey w0 w1 url1 k1 Hstart1) as (c & Hq & Hsafe).
  rewrite Hq in Hnew.
  apply (replaced_element_quiet c sourceKey h (k1 r1) w0 wd Hwf0 Hq);
    [| exact Hnew | apply Hsafe].
  eapply evolves_trans; [| exact Hev3].
  eapply evolves_trans; [| apply Hrun2; eapply evolves_trans; [exact Hadv2 | exact Hev2]].
  eapply evolves_trans; [exact Hadv1 |].
  eapply evolves_trans; [exact Hev1 |].
  eapply evolves_trans; [exact Hadv2 | exact Hev2].
Qed.

(* ================================================================== *)
(** * Strings: trimming twice *)
(* ================================================================== *)

Section StringFacts.

Open Scope string_scope.

Lemma append_nil_r (s : string) : (s ++ "")%string = s.
Proof. induction s as [| a s IH]; cbn; [reflexivity | rewrite IH; reflexivity]. Qed.

Lemma append_assoc (a b c : string) : ((a ++ b) ++ c)%string = (a ++ (b ++ c))%string.
Proof. induction a as [| x a IH]; cbn; [reflexivity | rewrite IH; reflexivity]. Qed.

Lemma length_append (a b : string) :
  String.length (a ++ b)%string = String.length a + String.length b.
Proof. induction a as [| x a IH]; cbn; [reflexivity | rewrite IH; reflexivity]. Qed.

Lemma rev_acc_append (s acc : string) :
  JSString.rev_acc s acc = (JSString.rev s ++ acc)%string.
Proof.
  unfold JSString.rev. revert acc.
  induction s as [| a s IH]; intros acc; cbn [JSString.rev_acc].
  - reflexivity.
  - rewrite (IH (String a acc)), (IH (String a "")), append_assoc. reflexivity.
Qed.

Lemma rev_cons (a : ascii) (s : string) :
  JSString.rev (String a s) = (JSString.rev s ++ String a "")%string.
Proof. unfold JSString.rev at 1. cbn [JSString.rev_acc]. apply rev_acc_append. Qed.

Lemma rev_append (a b : string) :
  JSString.rev (a ++ b)%string = (JSString.rev b ++ JSString.rev a)%string.
Proof.
  induction a as [| x a IH]; cbn [append].
  - change (JSString.rev "") with "". rewrite append_nil_r. reflexivity.
  - rewrite !rev_cons, IH, append_assoc. reflexivity.
Qed.

Lemma rev_involutive (s : string) : JSString.rev (JSString.rev s) = s.
Proof.
  induction s as [| a s IH]; [reflexivity |].
  rewrite rev_cons, rev_append, IH. reflexivity.
Qed.

Lemma length_rev (s : string) : String.length (JSString.rev s) = String.length s.
Proof.
  induction s as [| a s IH]; [reflexivity |].
  rewrite rev_cons, length_append, IH. cbn. lia.
Qed.

Lemma strip_prefix_Some (p s r : string) :
  JSString.strip_prefix p s = Some r -> s = (p ++ r)%string.
Proof.
  revert s. induction p as [| a p IH]; intros s; cbn [JSString.strip_prefix append].
  - intros [= ->]. reflexivity.
  - destruct s as [| b s]; [discriminate |].
    destruct (Ascii.eqb_spec a b) as [-> | _]; [| discriminate].
    intros Hs. rewrite (IH _ Hs). reflexivity.
Qed.

Lemma strip_prefix_append (p s r x : string) :
  JSString.strip_prefix p s = Some r ->
  JSString.strip_prefix p (s ++ x)%string = Some (r ++ x)%string.
Proof.
  revert s. induction p as [| a p IH]; intros s; cbn [JSString.strip_prefix].
  - intros [= ->]. reflexivity.
  - destruct s as [| b s]; [discriminate |]. cbn [append].
    destruct (Ascii.eqb a b); [apply IH | discriminate].
Qed.

Lemma strip_first_append (ps : list string) (s r x : string) :
  JSString.strip_first ps s = Some r ->
  JSString.strip_first ps (s ++ x)%string <> None.
Proof.
  induction ps as [| p ps IH]; cbn [JSString.strip_first]; [discriminate |].
  destruct (JSString.strip_prefix p s) as [r0 |] eqn:Hp.
  - intros _. rewrite (strip_prefix_append _ _ _ x Hp). discriminate.
  - intros Hs. destruct (JSString.strip_prefix p (s ++ x)); [discriminate |].
    apply IH. exact Hs.
Qed.

Lemma strip_first_shorter (ps : list string) (s r : string) :
  Forall (fun p => p <> "") ps ->
  JSString.strip_first ps s = Some r ->
  String.length r < String.length s /\ exists d, s = (d ++ r)%string.
Proof.
  induction 1 as [| p ps Hp _ IH]; cbn [JSString.strip_first]; [discriminate |].
  destruct (JSString.strip_prefix p s) as [r0 |] eqn:Hs.
  - intros [= <-]. apply strip_prefix_Some in Hs. subst s. split.
    + rewrite length_append. destruct p; [congruence | cbn; lia].
    + exists p. reflexivity.
  - exact IH.
Qed.

Lemma strip_first_empty (ps : list string) :
  Forall (fun p => p <> "") ps -> JSString.strip_first ps "" = None.
Proof.
  induction 1 as [| p ps Hp _ IH]; cbn [JSString.strip_first]; [reflexivity |].
  destruct p; [congruence |]. cbn [JSString.strip_prefix]. exact IH.
Qed.

(** What is left once the leading pieces are dropped starts with none of
    them, and is the end of the string. *)
Lemma drop_leading_clean (ps : list string) (fuel : nat) (s : string) :
  Forall (fun p => p <> "") ps ->
  String.length s <= fuel ->
  JSString.strip_first ps (JSString.drop_leading ps fuel s) = None
  /\ exists d, s = (d ++ JSString.drop_leading ps fuel s)%string.
Proof.
  intros Hps. revert s. induction fuel as [| fuel IH]; intros s Hlen;
    cbn [JSString.drop_leading].
  - destruct s; [| cbn in Hlen; lia]. split; [| exists ""; reflexivity].
    apply strip_first_empty. exact Hps.
  - destruct (JSString.strip_first ps s) as [r |] eqn:Hs.
    + destruct (strip_first_shorter ps s r Hps Hs) as [Hshort [d Hd]].
      destruct (IH r) as [Hclean [d' Hd']]; [lia |].
      split; [exact Hclean |]. exists (d ++ d')%string.
      rewrite append_assoc, <- Hd'. exact Hd.
    + split; [exact Hs | exists ""; reflexivity].
Qed.

Lemma drop_leading_fixed (ps : list string) (fuel : nat) (s : string) :
  JSString.strip_first ps s = None -> JSString.drop_leading ps fuel s = s.
Proof. intros Hs. destruct fuel; cbn [JSString.drop_leading]; [| rewrite Hs]; reflexivity. Qed.

Lemma white_space_nonempty : Forall (fun p => p <> "") JSString.white_space.
Proof.
  apply Forall_forall. intros p Hin.
  assert (Hb : forallb (fun p => negb (String.eqb p "")) JSString.white_space = true)
    by reflexivity.
  rewrite forallb_forall in Hb. specialize (Hb p Hin).
  intros ->. discriminate Hb.
Qed.

Lemma white_space_rev_nonempty :
  Forall (fun p => p <> "") (map JSString.rev JSString.white_space).
Proof.
  apply Forall_forall. intros p Hin.
  assert (Hb : forallb (fun p => negb (String.eqb p ""))
                 (map JSString.rev JSString.white_space) = true)
    by reflexivity.
  rewrite forallb_forall in Hb. specialize (Hb p Hin).
  intros ->. discriminate Hb.
Qed.

(** A trimmed string starts with no white space and ends with none. *)
Lemma trim_clean (s : string) :
  JSString.strip_first JSString.white_space (JSString.trim s) = None
  /\ JSString.strip_first (map JSString.rev JSString.white_space)
       (JSString.rev (JSString.trim s)) = None.
Proof.
  unfold JSString.trim.
  set (t := JSString.trimStart s).
  assert (Ht : JSString.strip_first JSString.white_space t = None).
  { apply drop_leading_clean; [apply white_space_nonempty | apply Nat.le_refl]. }
  unfold JSString.trimEnd.
  destruct (drop_leading_clean (map JSString.rev JSString.white_space)
              (String.length t) (JSString.rev t) white_space_rev_nonempty)
    as [Hclean [d Hd]].
  { rewrite length_rev. apply Nat.le_refl. }
  set (r := JSString.drop_leading _ _ _) in *.
  split.
  - destruct (JSString.strip_first JSString.white_space (JSString.rev r))
      as [x |] eqn:Hx; [| reflexivity].
    exfalso.
    apply (strip_first_append _ _ _ (JSString.rev d)) in Hx.
    apply Hx. rewrite <- rev_append, <- Hd, rev_involutive. exact Ht.
  - rewrite rev_involutive. exact Hclean.
Qed.

(** Trimming a trimmed string changes nothing. *)
Lemma trim_trim (s : string) : JSString.trim (JSString.trim s) = JSString.trim s.
Proof.
  destruct (trim_clean s) as [Hstart Hend].
  set (u := JSString.trim s) in *.
  unfold JSString.trim, JSString.trimStart.
  rewrite (drop_leading_fixed _ _ _ Hstart).
  unfold JSString.trimEnd.
  rewrite (drop_leading_fixed _ _ _ Hend). apply rev_involutive.
Qed.

End StringFacts.

(* ================================================================== *)
(** * What every write of a call keeps *)
(* ================================================================== *)

Section Keeps.

Variable P : World -> Prop.

(** [P] does not depend on the requests, the console or the clock. *)
Hypothesis P_elsewhere :
  forall w w', page w' = page w -> next_node w' = next_node w -> P w -> P w'.

Lemma keeps_weaken (A : Type) (t : task A) (w : World) (Q Q' : A -> Prop) :
  (forall a, Q a -> Q' a) -> keeps P t w Q -> keeps P t w Q'.
Proof.
  intros HQ. revert w.
  induction t as [a | e | k IH | w0 t IH | url k IH]; intros w Ht; cbn [keeps] in *.
  - apply HQ. exact Ht.
  - exact I.
  - apply IH. exact Ht.
  - destruct Ht as [Hp Ht]. split; [exact Hp | apply IH; exact Ht].
  - intros r w'. apply IH. apply Ht.
Qed.













(** The writes of a resolution, through its card element [c]. *)
Variable c : nat.
Variable sourceKey : string.

Hypothesis P_write :
  forall m w, markup_source m = sourceKey -> markup_kept m ->
              P w -> P (write_outerHTML c m w).

Hypothesis P_listeners : forall w, P w -> P (add_click_listeners sourceKey w).




End Keeps.

(* ================================================================== *)
(** * Plain pages *)
(* ================================================================== *)





Lemma plain_reset (w : World) : plain (reset_cards w).
Proof.
  unfold plain, shown, reset_cards. cbn [page].
  generalize (next_node w). generalize RSS_FEEDS.
  induction l as [| [key config] rest IH]; intros id; cbn [skeletons_from map].
  - constructor.
  - constructor; [exact I | apply IH].
Qed.








(* ================================================================== *)
(** * More of the resolver: how a resolution ends *)
(* ================================================================== *)

Lemma parseRSS_length (h : Host) (reads : nat) (xmlText : string)
  (items : list NewsItem) :
  fst (parseRSS h reads xmlText) = Returned items -> List.length items <= 8.
Proof.
  destruct (DOM.document_querySelector ["parsererror"]
              (DOMParser_parseFromString h xmlText)) as [e |] eqn:Hp.
  - rewrite parseRSS_malformed by congruence. discriminate.
  - rewrite parseRSS_well_formed by exact Hp. cbn [fst]. intros Heq.
    assert (Hitems : items
                     = collect h reads 0
                         (firstn 8 (itemElements_of
                                      (DOMParser_parseFromString h xmlText))))
      by congruence.
    rewrite Hitems. clear Heq Hitems.
    rewrite collect_length by apply firstn_8_length.
    pose proof (filter_length_le (fun e => JSString.truthy (entry_title e))
                  (firstn 8 (itemElements_of (DOMParser_parseFromString h xmlText)))).
    pose proof (firstn_8_length _
                  (itemElements_of (DOMParser_parseFromString h xmlText))).
    lia.
Qed.

Lemma attempt_endpoint_length (h : Host) (feedUrl : string) (w : World)
  (items : list NewsItem) :
  fst (run h (attempt_endpoint h feedUrl) w) = Returned items ->
  1 <= List.length items <= 8.
Proof.
  intros Hr.
  pose proof (attempt_endpoint_outcome h feedUrl w) as Hne. rewrite Hr in Hne.
  split; [destruct items; [congruence | cbn; lia] |].
  rewrite run_attempt_endpoint in Hr.
  destruct (run h (fetchWithProxy feedUrl) w) as [[xmlText | e] w1];
    [| discriminate].
  cbn zeta in Hr.
  destruct (fst (parseRSS h (clock_reads w1) xmlText)) as [items0 | e] eqn:Hp;
    [| discriminate].
  destruct (Nat.eqb (List.length items0) 0); [discriminate |].
  cbn [fst] in Hr. injection Hr as <-. eapply parseRSS_length. exact Hp.
Qed.

Lemma walk_length (h : Host) (config : FeedConfig) (feedUrls : list string)
  (lastError : option JSError) (w : World) (items : list NewsItem) :
  fst (fst (endpoint_walk h config feedUrls lastError w)) = Some items ->
  1 <= List.length items <= 8.
Proof.
  intros Hw. destruct (walk_yield _ _ _ _ _ _ Hw) as (_ & u & wi & _ & Hr).
  eapply attempt_endpoint_length. exact Hr.
Qed.

(** The last error of a walk that yields nothing, over at least one
    endpoint, is one of the three errors of an attempt. *)
Lemma walk_last_error (h : Host) (config : FeedConfig) (feedUrls : list string)
  (lastError : option JSError) (w : World) :
  fst (fst (endpoint_walk h config feedUrls lastError w)) = None ->
  feedUrls <> [] ->
  exists e,
    snd (fst (endpoint_walk h config feedUrls lastError w)) = Some e
    /\ (e = Error "All proxies failed"
        \/ e = Error "Failed to parse RSS XML"
        \/ e = Error "No items found in feed").
Proof.
  revert lastError w. induction feedUrls as [| feedUrl rest IH];
    intros lastError w Hnone Hne; [congruence |].
  cbn [endpoint_walk] in *.
  set (w0 := print _ w) in *.
  pose proof (attempt_endpoint_outcome h feedUrl w0) as Hout.
  destruct (run h (attempt_endpoint h feedUrl) w0) as [[items | e] w1].
  - discriminate Hnone.
  - cbn [fst] in Hout. destruct rest as [| feedUrl' rest'].
    + cbn [endpoint_walk fst snd]. exists e. split; [reflexivity | exact Hout].
    + apply IH; [exact Hnone | discriminate].
Qed.

Lemma listen_first_card (sourceKey key' : string) (cards : list CardElement) :
  find (fun d => String.eqb (data_source d) key') (listen_first sourceKey cards)
  = if String.eqb sourceKey key'
    then option_map with_listener
           (find (fun d => String.eqb (data_source d) key') cards)
    else find (fun d => String.eqb (data_source d) key') cards.
Proof.
  induction cards as [| d rest IH]; cbn [listen_first find].
  - destruct (String.eqb sourceKey key'); reflexivity.
  - destruct (String.eqb (data_source d) sourceKey) eqn:Hk.
    + apply String.eqb_eq in Hk.
      assert (Hsame : data_source (with_listener d) = data_source d).
      { unfold with_listener. destruct (has_news_items (markup d)); reflexivity. }
      change (if has_news_items (markup d)
              then {| node_id := node_id d; markup := markup d;
                      click_listeners := S (click_listeners d) |}
              else d) with (with_listener d).
      cbn [find]. rewrite Hsame, Hk.
      destruct (String.eqb sourceKey key'); reflexivity.
    + cbn [find].
      destruct (String.eqb (data_source d) key') eqn:Hk'.
      * apply String.eqb_eq in Hk'. rewrite <- Hk', String.eqb_sym, Hk.
        reflexivity.
      * exact IH.
Qed.

Lemma card_of_listeners (sourceKey key' : string) (w : World) :
  card_of key' (add_click_listeners sourceKey w)
  = if String.eqb sourceKey key'
    then option_map with_listener (card_of key' w)
    else card_of key' w.
Proof. apply listen_first_card. Qed.


Lemma news_rows_fields (items : list NewsItem) (index : nat) :
  map row_title (news_rows items index) = map title items
  /\ map row_link (news_rows items index) = map link items
  /\ map row_hot (news_rows items index) = map isHot items.
Proof.
  revert index. induction items as [| x items IH]; intros index; cbn [news_rows map].
  - repeat split.
  - destruct (IH (S index)) as (Ht & Hl & Hh). rewrite Ht, Hl, Hh. repeat split.
Qed.

(** The card of the source after the rendering of a non-empty list: the
    label is computed from the date of the first item and the reading of
    the clock that follows the parsing. *)
Lemma card_of_rendered (h : Host) (sourceKey : string) (config : FeedConfig)
  (c : nat) (first : NewsItem) (others : list NewsItem) (w : World) :
  NoDup (map node_id (page w)) ->
  querySelector_card sourceKey w = Some c ->
  card_of sourceKey (rendered h sourceKey config c (first :: others) w)
  = Some {| node_id := next_node w;
            markup := createNewsCard sourceKey config (first :: others)
                        (formatTimeAgo (Date_now h (clock_reads w))
                           (VDate (pubDate first)));
            click_listeners := 1 |}.
Proof.
  intros Hnd Hq.
  unfold rendered. cbn zeta. rewrite card_of_print, card_of_listeners.
  rewrite String.eqb_refl.
  destruct (is_valid_date (VDate (pubDate first)));
    (rewrite (card_of_write sourceKey c); [reflexivity | exact Hnd | exact Hq | reflexivity]).
Qed.

Lemma news_rows_links (items : list NewsItem) (index : nat) :
  Forall2 (fun row item => link_kept (link item) -> row_link row = link item)
    (news_rows items index) items.
Proof.
  revert index. induction items as [| x items IH]; intros index; cbn [news_rows].
  - constructor.
  - constructor; [intros _; reflexivity | apply IH].
Qed.

(** X1.  A resolution that runs without another call in between settles the
    card of its source, for a registered source whose card is in the page:
    it never throws and never leaves the card as it found it.  Either it
    returns [true] and the card is a new node holding a news card for the
    items that the walk yielded, between one and eight of them: one row per
    item, in their order, numbered from 1, with the title and the hot flag
    of the item, and with its link when the link holds no quotation mark;
    the label is that of the date of the first item at the reading of the
    clock that follows the walk; each row has one click listener.  Or it
    returns [false] and the card is a new node holding the error card,
    whose message is one of the three messages of a failed attempt.  The
    page the call starts from is one that its cards describe in full, so
    that the element found by the key is the card of the source. *)
Theorem fetchAndRenderSource_settles (h : Host) (sourceKey : string)
  (config : FeedConfig) (c : nat) (w : World) :
  lookup_feed RSS_FEEDS sourceKey = Some config ->
  querySelector_card sourceKey w = Some c ->
  NoDup (map node_id (page w)) ->
  plain w ->
  (exists items first rows w',
     run h (fetchAndRenderSource h sourceKey) w = (Returned true, w')
     /\ fst (fst (endpoint_walk h config (feeds config) None w)) = Some items
     /\ 1 <= List.length items <= 8
     /\ hd_error items = Some first
     /\ card_of sourceKey w'
        = Some {| node_id := next_node w;
                  markup :=
                    NewsCard sourceKey config rows
                      (formatTimeAgo
                         (Date_now h
                            (clock_reads
                               (snd (endpoint_walk h config (feeds config) None w))))
                         (VDate (pubDate first)));
                  click_listeners := 1 |}
     /\ map row_rank rows = seq 1 (List.length items)
     /\ map row_title rows = map title items
     /\ map row_hot rows = map isHot items
     /\ Forall2 (fun row item => link_kept (link item) -> row_link row = link item)
          rows items)
  \/ (exists msg w',
        run h (fetchAndRenderSource h sourceKey) w = (Returned false, w')
        /\ fst (fst (endpoint_walk h config (feeds config) None w)) = None
        /\ card_of sourceKey w'
           = Some {| node_id := next_node w;
                     markup := ErrorCard sourceKey config msg;
                     click_listeners := 0 |}
        /\ (msg = "All proxies failed"
            \/ msg = "Failed to parse RSS XML"
            \/ msg = "No items found in feed")).
Proof.
  intros Hconfig Hcard Hnd _.
  rewrite run_fetchAndRenderSource, Hcard, Hconfig.
  pose proof (walk_page h config (feeds config) None w) as [Hp Hn].
  pose proof (walk_length h config (feeds config) None w) as Hlen.
  pose proof (walk_last_error h config (feeds config) None w) as Herr.
  destruct (endpoint_walk h config (feeds config) None w)
    as [[[items |] lastError] w1]; cbn [fst snd] in *.
  - left. specialize (Hlen items eq_refl).
    destruct items as [| first others]; [cbn in Hlen; lia |].
    pose proof (card_of_rendered h sourceKey config c first others w1) as Hc.
    exists (first :: others), first, (news_rows (first :: others) 0),
      (rendered h sourceKey config c (first :: others) w1).
    split; [reflexivity |]. split; [reflexivity |]. split; [exact Hlen |].
    split; [reflexivity |]. split.
    { rewrite Hc, Hn; [reflexivity | rewrite Hp; exact Hnd |].
      unfold querySelector_card. rewrite Hp. exact Hcard. }
    split; [apply news_rows_ranks |].
    destruct (news_rows_fields (first :: others) 0) as (Ht & _ & Hh).
    split; [exact Ht |]. split; [exact Hh | apply news_rows_links].
  - right. destruct Herr as (e & -> & He); [reflexivity | |].
    { eapply registered_feeds_nonempty. exact Hconfig. }
    exists (message e), (failed sourceKey config c (Some e) w1).
    split.
    { f_equal. }
    split; [reflexivity |]. split.
    + unfold failed. rewrite card_of_print.
      rewrite (card_of_write sourceKey c).
      * rewrite Hn. unfold createErrorCard.
        destruct He as [-> | [-> | ->]]; reflexivity.
      * rewrite Hp. exact Hnd.
      * unfold querySelector_card. rewrite Hp. exact Hcard.
      * reflexivity.
    + destruct He as [-> | [-> | ->]]; cbn [message Error]; tauto.
Qed.

(** On a network whose fifth request brings a feed of ten items, the call
    for "rfi" ends with a news card of eight rows in the node 8, the first
    node after the eight skeletons, with the label of an item dated at the
    parsing. *)
Lemma fetchAndRenderSource_settles_witness :
  let up := Fixture.host
              (fun (n : nat) (u : string) =>
                 if Nat.eqb n 4 then Response 200 (BodyText "<ten items/>")
                 else Response 503 (BodyText ""))
              false in
  exists items rows w',
    run up (fetchAndRenderSource up "rfi") Fixture.initial_world = (Returned true, w')
    /\ List.length items <= 8
    /\ option_map node_id (card_of "rfi" w') = Some 8
    /\ option_map click_listeners (card_of "rfi" w') = Some 1
    /\ map row_rank rows = seq 1 (List.length items)
    /\ map row_title rows = map title items.
Proof.
  cbn zeta.
  destruct (fetchAndRenderSource_settles
              (Fixture.host
                 (fun (n : nat) (u : string) =>
                    if Nat.eqb n 4 then Response 200 (BodyText "<ten items/>")
                    else Response 503 (BodyText ""))
                 false)
              "rfi"
              {| name := "法广"; icon := "📻"; color := "rfi"; tag := "国际视角";
                 feeds := [ "https://rsshub.app/rfi/cn"; "https://www.rfi.fr/cn/rss" ] |}
              3 Fixture.initial_world)
    as [(items & first & rows & w' & Hrun & _ & Hlen & _ & Hcard & Hranks & Htitles & _)
       | (msg & w' & _ & Hwalk & _)].
  - reflexivity.
  - reflexivity.
  - change (map node_id (page Fixture.initial_world)) with (seq 0 8).
    apply seq_NoDup.
  - apply plain_reset.
  - exists items, rows, w'. split; [exact Hrun |]. split; [apply Hlen |].
    rewrite Hcard. repeat split; assumption.
  - exfalso. vm_compute in Hwalk. discriminate Hwalk.
Defined.

(* ================================================================== *)
(** * More of the resolver: the other cards, the requests *)
(* ================================================================== *)



Lemma attempt_endpoint_requests (h : Host) (feedUrl : string) (w : World) :
  exists k,
    1 <= k
    /\ requests (snd (run h (attempt_endpoint h feedUrl) w))
       = requests w ++ firstn k (strategies feedUrl).
Proof.
  rewrite run_attempt_endpoint. unfold fetchWithProxy.
  rewrite run_fetchWithProxy_loop. cbn zeta.
  fold (strategies feedUrl).
  set (trace := attempts h (List.length (requests w)) (strategies feedUrl)).
  exists (List.length trace). split.
  - unfold trace, strategies. cbn [CORS_PROXIES map attempts List.length]. lia.
  - assert (Hreq : forall es,
               requests (log (map fst trace) es w)
               = requests w ++ firstn (List.length trace) (strategies feedUrl)).
    { intros es. cbn [log requests]. f_equal. apply attempts_prefix. }
    destruct (trace_body trace) as [xmlText |]; [| apply Hreq].
    destruct (fst (parseRSS h _ xmlText)) as [items | e]; [| apply Hreq].
    destruct (Nat.eqb (List.length items) 0); apply Hreq.
Qed.

Lemma walk_requests (h : Host) (config : FeedConfig) (feedUrls : list string)
  (lastError : option JSError) (w : World) :
  exists rs,
    requests (snd (endpoint_walk h config feedUrls lastError w)) = requests w ++ rs
    /\ tried_in_order feedUrls rs.
Proof.
  revert lastError w. induction feedUrls as [| feedUrl rest IH]; intros lastError w.
  - exists []. split; [cbn; rewrite app_nil_r; reflexivity | constructor].
  - cbn [endpoint_walk].
    set (w0 := print _ w).
    destruct (attempt_endpoint_requests h feedUrl w0) as (k & Hk & Hreq).
    destruct (run h (attempt_endpoint h feedUrl) w0) as [[items | e] w1];
      cbn [snd] in Hreq.
    + exists (firstn k (strategies feedUrl) ++ []). split.
      * cbn [snd]. rewrite app_nil_r. exact Hreq.
      * constructor; [exact Hk | constructor].
    + destruct (IH (Some e)
                  (print (ConsoleWarn ("❌ Failed to fetch " ++ name config
                            ++ " from " ++ feedUrl ++ ":") (message e)) w1))
        as (rs & Hrs & Hord).
      exists (firstn k (strategies feedUrl) ++ rs). split.
      * rewrite Hrs. cbn [print requests]. rewrite Hreq, app_assoc. reflexivity.
      * constructor; assumption.
Qed.

Lemma tried_in_order_length (feedUrls rs : list string) :
  tried_in_order feedUrls rs ->
  List.length rs <= List.length CORS_PROXIES * List.length feedUrls.
Proof.
  induction 1 as [feedUrls | feedUrl rest k rs Hk _ IH].
  - cbn. lia.
  - rewrite length_app, length_firstn. unfold strategies. rewrite length_map.
    cbn [List.length] in *. lia.
Qed.

Lemma rendered_requests (h : Host) (sourceKey : string) (config : FeedConfig)
  (c : nat) (items : list NewsItem) (w : World) :
  requests (rendered h sourceKey config c items w) = requests w.
Proof.
  unfold rendered. cbn zeta.
  destruct items; destruct (is_valid_date _); reflexivity.
Qed.

(** X3.  The requests of a resolution, run without another call in between:
    whatever the network does, it goes through the endpoints of its source
    in their declared order, leaves no endpoint out on the way and comes
    back to none, and for each endpoint it reaches makes the requests of the
    access strategies from the first on, in their order; so it makes at most
    three requests per endpoint.  For a key without configuration it makes
    no request. *)
Theorem fetchAndRenderSource_requests (h : Host) (sourceKey : string) (w : World) :
  exists rs,
    requests (snd (run h (fetchAndRenderSource h sourceKey) w)) = requests w ++ rs
    /\ match lookup_feed RSS_FEEDS sourceKey with
       | Some config =>
           tried_in_order (feeds config) rs
           /\ List.length rs <= 3 * List.length (feeds config)
       | None => rs = []
       end.
Proof.
  rewrite run_fetchAndRenderSource.
  assert (Hnone : exists rs,
             requests w = requests w ++ rs
             /\ match lookup_feed RSS_FEEDS sourceKey with
                | Some config =>
                    tried_in_order (feeds config) rs
                    /\ List.length rs <= 3 * List.length (feeds config)
                | None => rs = []
                end).
  { exists []. split; [rewrite app_nil_r; reflexivity |].
    destruct (lookup_feed RSS_FEEDS sourceKey); [| reflexivity].
    split; [constructor | cbn; lia]. }
  destruct (querySelector_card sourceKey w) as [c |]; [| exact Hnone].
  destruct (lookup_feed RSS_FEEDS sourceKey) as [config |]; [| exact Hnone].
  clear Hnone.
  destruct (walk_requests h config (feeds config) None w) as (rs & Hrs & Hord).
  exists rs.
  pose proof (tried_in_order_length _ _ Hord) as Hlen. cbn [CORS_PROXIES List.length] in Hlen.
  destruct (endpoint_walk h config (feeds config) None w)
    as [[[items |] lastError] w1]; cbn [fst snd] in *.
  - rewrite rendered_requests. repeat split; assumption.
  - unfold failed. cbn [print write_outerHTML requests]. repeat split; assumption.
Qed.

(** With the network down the call for "rfi" makes the six requests of its
    two endpoints. *)
Example fetchAndRenderSource_requests_offline :
  requests (snd (run (Fixture.host Fixture.offline false)
                   (fetchAndRenderSource (Fixture.host Fixture.offline false) "rfi")
                   Fixture.initial_world))
  = strategies "https://rsshub.app/rfi/cn" ++ strategies "https://www.rfi.fr/cn/rss".
Proof. vm_compute. reflexivity. Qed.

(* ================================================================== *)
(** * The launch of a cycle, the retry, the reset *)
(* ================================================================== *)

Lemma advance_loop_first (h : Host) (sourceKey : string) (config : FeedConfig)
  (c : nat) (feedUrl : string) (rest : list string) (lastError : option JSError)
  (w : World) :
  exists k,
    advance (fetchAndRenderSource_loop h sourceKey config c (feedUrl :: rest)
               lastError) w
    = (Pending feedUrl k,
       issue feedUrl
         (print (ConsoleLog ("📡 Fetching " ++ name config ++ " from "
                             ++ feedUrl ++ "...")) w)).
Proof. eexists. reflexivity. Qed.

Lemma launch_first_requests (h : Host) (entries : list (string * FeedConfig))
  (w : World) :
  Forall (fun entry => lookup_feed RSS_FEEDS (fst entry) = Some (snd entry)
                       /\ feeds (snd entry) <> []) entries ->
  forall w0, page w0 = page w ->
    page (snd (launch h (map fst entries) w0)) = page w
    /\ requests (snd (launch h (map fst entries) w0))
       = requests w0 ++ flat_map (first_request w) entries
    /\ Forall2 (fun entry call =>
                  match call with
                  | Pending url _ => first_request w entry = [url]
                  | Finished o => first_request w entry = [] /\ o = Returned false
                  end)
         entries (fst (launch h (map fst entries) w0)).
Proof.
  induction 1 as [| [key config] entries [Hlookup Hfeeds] _ IH]; intros w0 Hp;
    cbn [map launch flat_map fst snd].
  - rewrite app_nil_r. repeat split; [exact Hp | constructor].
  - cbn [fst snd] in Hlookup, Hfeeds.
    assert (Hq : querySelector_card key w0 = querySelector_card key w).
    { unfold querySelector_card. rewrite Hp. reflexivity. }
    unfold fetchAndRenderSource at 1 2 3. cbn [advance].
    unfold first_request at 1 3. cbn [fst snd]. rewrite Hq, Hlookup.
    destruct (querySelector_card key w) as [c |] eqn:Hc.
    + destruct (feeds config) as [| feedUrl rest] eqn:Hf; [congruence |].
      destruct (advance_loop_first h key config c feedUrl rest None w0) as [k Hk].
      rewrite Hk.
      set (w1 := issue feedUrl (print _ w0)).
      destruct (IH w1 Hp) as (Hpage & Hreq & Hcalls).
      destruct (launch h (map fst entries) w1) as [calls w2].
      cbn [fst snd] in *. split; [exact Hpage |]. split.
      * rewrite Hreq. unfold w1. cbn [issue print requests firstn app].
        rewrite <- app_assoc. reflexivity.
      * constructor; [| exact Hcalls].
        unfold first_request. cbn [fst snd]. rewrite Hc, Hf. reflexivity.
    + cbn [advance]. cbv beta iota.
      destruct (IH w0 Hp) as (Hpage & Hreq & Hcalls).
      destruct (launch h (map fst entries) w0) as [calls w2].
      cbn [fst snd app] in *. split; [exact Hpage |]. split; [exact Hreq |].
      constructor; [| exact Hcalls].
      unfold first_request. cbn [fst snd]. rewrite Hc. split; reflexivity.
Qed.

Lemma RSS_FEEDS_registered :
  Forall (fun entry => lookup_feed RSS_FEEDS (fst entry) = Some (snd entry)
                       /\ feeds (snd entry) <> []) RSS_FEEDS.
Proof.
  unfold RSS_FEEDS.
  repeat (apply Forall_cons; [split; [reflexivity | discriminate] |]).
  apply Forall_nil.
Qed.

(** X4.  The launch of a cycle (the synchronous part of [fetchAllSources]):
    before any response is awaited, it has handed to [fetch] one request
    for every source that has a card in the page, for the first endpoint of
    the source and without relay, in the order of the keys of [RSS_FEEDS];
    the call of each such source is suspended on that request, the call of
    a source without card has returned [false]; the page is untouched. *)
Theorem fetchAllSources_launch_requests (h : Host) (w : World) :
  page (snd (fetchAllSources_launch h w)) = page w
  /\ requests (snd (fetchAllSources_launch h w))
     = requests w ++ flat_map (first_request w) RSS_FEEDS
  /\ Forall2 (fun entry call =>
                match call with
                | Pending url _ => first_request w entry = [url]
                | Finished o => first_request w entry = [] /\ o = Returned false
                end)
       RSS_FEEDS (fst (fetchAllSources_launch h w)).
Proof.
  unfold fetchAllSources_launch.
  apply (launch_first_requests h RSS_FEEDS w RSS_FEEDS_registered
           (print (ConsoleLog "🌐 Fetching news from all sources...") w)).
  reflexivity.
Qed.

(** From the initial page: eight requests, one per source. *)
Example fetchAllSources_launch_initial :
  requests (snd (fetchAllSources_launch (Fixture.host Fixture.offline false)
                   Fixture.initial_world))
  = [ "https://rsshub.app/bloomberg"; "https://rsshub.app/reuters/world";
      "https://rsshub.app/apnews/topics/apf-topnews"; "https://rsshub.app/rfi/cn";
      "https://rsshub.app/ft/chinese/hotstoryby7day";
      "https://rsshub.app/wsj/en-us/world_news"; "https://rsshub.app/nikkei/cn/top";
      "https://rsshub.app/zaobao/realtime/china" ].
Proof. vm_compute. reflexivity. Qed.

(** What the card of a source holds once its resolution has run: the news
    card when the call returned [true], the error card when it returned
    [false], and not the card that was there. *)
Lemma resolution_markup (h : Host) (sourceKey : string) (config : FeedConfig)
  (c : nat) (w : World) :
  lookup_feed RSS_FEEDS sourceKey = Some config ->
  querySelector_card sourceKey w = Some c ->
  NoDup (map node_id (page w)) ->
  exists o w',
    run h (fetchAndRenderSource h sourceKey) w = (Returned o, w')
    /\ match option_map markup (card_of sourceKey w') with
       | Some (NewsCard _ _ rows _) => o = true /\ rows <> []
       | Some (ErrorCard _ _ _) => o = false
       | _ => False
       end.
Proof.
  intros Hconfig Hcard Hnd.
  rewrite run_fetchAndRenderSource, Hcard, Hconfig.
  pose proof (walk_page h config (feeds config) None w) as [Hp Hn].
  pose proof (walk_length h config (feeds config) None w) as Hlen.
  destruct (endpoint_walk h config (feeds config) None w)
    as [[[items |] lastError] w1]; cbn [fst snd] in *.
  - specialize (Hlen items eq_refl).
    destruct items as [| first others]; [cbn in Hlen; lia |].
    assert (Hc := card_of_rendered h sourceKey config c first others w1).
    rewrite Hp in Hc. specialize (Hc Hnd).
    unfold querySelector_card in Hc. rewrite Hp in Hc. specialize (Hc Hcard).
    eexists. eexists. split; [reflexivity |].
    rewrite Hc. cbn. split; [reflexivity | discriminate].
  - eexists. eexists. split; [reflexivity |].
    unfold failed. rewrite card_of_print.
    rewrite (card_of_write sourceKey c).
    + reflexivity.
    + rewrite Hp. exact Hnd.
    + unfold querySelector_card. rewrite Hp. exact Hcard.
    + reflexivity.
Qed.

Lemma querySelector_card_of (sourceKey : string) (w : World) :
  querySelector_card sourceKey w = option_map node_id (card_of sourceKey w).
Proof.
  unfold querySelector_card, card_of. destruct (find _ (page w)); reflexivity.
Qed.

(** X5.  [retryFeed] for a registered source whose card is in the page, run
    to its end without another call changing the page in between (no cycle
    and no reset of the grid while the retry is in flight): it replaces the
    card by the skeleton and is then the resolution of the source from that
    page; in this setting it returns without throwing, and the card it
    leaves is the news card or the error card of that resolution, never the
    skeleton.  (A retry whose card is replaced while it is in flight ends
    as the engine decides for a write to an element out of the page.) *)
Theorem retryFeed_settles (h : Host) (sourceKey : string) (config : FeedConfig)
  (c : nat) (w : World) :
  lookup_feed RSS_FEEDS sourceKey = Some config ->
  querySelector_card sourceKey w = Some c ->
  well_formed w ->
  exists o w',
    run h (fetchAndRenderSource h sourceKey)
      (write_outerHTML c (createSkeletonCard sourceKey config) w)
    = (Returned o, w')
    /\ run h (retryFeed h sourceKey) w = (Returned tt, w')
    /\ match option_map markup (card_of sourceKey w') with
       | Some (NewsCard _ _ rows _) => o = true /\ rows <> []
       | Some (ErrorCard _ _ _) => o = false
       | _ => False
       end.
Proof.
  intros Hconfig Hcard Hwf.
  set (ws := write_outerHTML c (createSkeletonCard sourceKey config) w).
  assert (Hwfs : well_formed ws).
  { apply (well_formed_mutation w); [| exact Hwf].
    destruct (keyed_start c sourceKey w Hwf Hcard) as [_ Hkey].
    apply mutation_write. intros d Hin Hid. apply Hkey; assumption. }
  assert (Hcards : querySelector_card sourceKey ws = Some (next_node w)).
  { rewrite querySelector_card_of. unfold ws.
    rewrite (card_of_write sourceKey c);
      [reflexivity | apply Hwf | exact Hcard | reflexivity]. }
  destruct (resolution_markup h sourceKey config (next_node w) ws Hconfig Hcards)
    as (o & w' & Hrun & Hmark); [apply Hwfs |].
  exists o, w'. split; [exact Hrun |]. split; [| exact Hmark].
  unfold retryFeed. cbn [run]. rewrite Hconfig, Hcard.
  rewrite run_bind, run_set_outerHTML_attached
    by (eapply querySelector_card_attached; exact Hcard).
  fold ws. rewrite run_bind, Hrun. reflexivity.
Qed.

(** With the network down, the retry of "rfi" ends on the error card. *)
Lemma retryFeed_settles_witness :
  exists w',
    run (Fixture.host Fixture.offline false)
      (retryFeed (Fixture.host Fixture.offline false) "rfi") Fixture.initial_world
    = (Returned tt, w')
    /\ match option_map markup (card_of "rfi" w') with
       | Some (ErrorCard _ _ msg) => msg = "All proxies failed"
       | _ => False
       end.
Proof.
  destruct (retryFeed_settles
              (Fixture.host Fixture.offline false) "rfi"
              {| name := "法广"; icon := "📻"; color := "rfi"; tag := "国际视角";
                 feeds := [ "https://rsshub.app/rfi/cn"; "https://www.rfi.fr/cn/rss" ] |}
              3 Fixture.initial_world)
    as (o & w' & Hres & Hretry & _).
  - reflexivity.
  - reflexivity.
  - apply initial_world_well_formed.
  - exists w'. split; [exact Hretry |].
    vm_compute in Hres. injection Hres as _ <-. vm_compute. reflexivity.
Defined.

Lemma skeletons_find (table : list (string * FeedConfig)) (id : nat)
  (sourceKey : string) :
  option_map markup
    (find (fun d => String.eqb (data_source d) sourceKey) (skeletons_from id table))
  = option_map (SkeletonCard sourceKey) (lookup_feed table sourceKey)
  /\ option_map click_listeners
       (find (fun d => String.eqb (data_source d) sourceKey) (skeletons_from id table))
     = option_map (fun _ => 0) (lookup_feed table sourceKey).
Proof.
  revert id. induction table as [| [key config] rest IH]; intros id;
    cbn [skeletons_from find lookup_feed].
  - split; reflexivity.
  - unfold data_source at 1 3. cbn [markup markup_source].
    destruct (String.eqb_spec key sourceKey) as [-> | _].
    + split; reflexivity.
    + apply IH.
Qed.

(** X7.  After [initializeCards], whatever the page held: the card of a key
    is the skeleton of that key with its configuration, without listeners,
    when the key is one of [RSS_FEEDS], and there is no card for any other
    key; the page has one card per source, its nodes are new and distinct,
    and every node created before is out of the page, so that a call still
    in flight from before the reset can no longer write to it. *)
Theorem initializeCards_resets (h : Host) (w : World) (sourceKey : string) :
  let w' := snd (run h initializeCards w) in
  fst (run h initializeCards w) = Returned tt
  /\ option_map markup (card_of sourceKey w')
     = option_map (SkeletonCard sourceKey) (lookup_feed RSS_FEEDS sourceKey)
  /\ option_map click_listeners (card_of sourceKey w')
     = option_map (fun _ => 0) (lookup_feed RSS_FEEDS sourceKey)
  /\ map data_source (page w') = map fst RSS_FEEDS
  /\ well_formed w'
  /\ forall c, c < next_node w -> attached c w' = false.
Proof.
  cbn zeta. unfold initializeCards. rewrite run_modify. cbn [fst snd].
  destruct (skeletons_find RSS_FEEDS (next_node w) sourceKey) as [Hm Hl].
  split; [reflexivity |]. split; [exact Hm |]. split; [exact Hl |].
  split; [| split].
  - cbn [reset_cards page]. generalize (next_node w). generalize RSS_FEEDS.
    induction l as [| [key config] rest IH]; intros id; cbn [skeletons_from map].
    + reflexivity.
    + rewrite IH. reflexivity.
  - split; cbn [reset_cards page next_node].
    + rewrite skeletons_ids. apply seq_NoDup.
    + apply Forall_forall. intros d Hin.
      apply (in_map node_id) in Hin. rewrite skeletons_ids in Hin.
      apply in_seq in Hin. lia.
  - intros c Hc. destruct (attached c (reset_cards w)) eqn:Ha; [| reflexivity].
    exfalso. apply attached_In in Ha. cbn [reset_cards page] in Ha.
    rewrite skeletons_ids in Ha. apply in_seq in Ha. lia.
Qed.

(* ================================================================== *)
(** * The items the parser returns *)
(* ================================================================== *)

Lemma pushed_item_trimmed (h : Host) (item : node) (index reads : nat) :
  index < 8 -> JSString.truthy (entry_title item) = true ->
  exists x,
    fst (parseRSS_callback h item index ([], reads)) = [x]
    /\ title x <> ""%string
    /\ JSString.trim (title x) = title x
    /\ JSString.trim (description x) = description x.
Proof.
  intros Hi Ht. unfold parseRSS_callback.
  destruct (Nat.leb_spec 8 index) as [Hge | _]; [lia |].
  fold (entry_title item). rewrite Ht. cbn [app fst].
  eexists. split; [reflexivity |]. cbn [title description].
  split; [| split].
  - intros He. rewrite He in Ht. discriminate Ht.
  - unfold entry_title. apply trim_trim.
  - apply trim_trim.
Qed.

Lemma collect_trimmed (h : Host) (reads index : nat) (l : list node) :
  index + List.length l <= 8 ->
  Forall (fun x => title x <> ""%string
                   /\ JSString.trim (title x) = title x
                   /\ JSString.trim (description x) = description x)
    (collect h reads index l).
Proof.
  revert reads index.
  induction l as [| e l IH]; intros reads index Hl; cbn [collect].
  - constructor.
  - cbn [List.length] in Hl. apply Forall_app. split; [| apply IH; lia].
    destruct (JSString.truthy (entry_title e)) eqn:Ht; [| constructor].
    destruct (pushed_item_trimmed h e index reads) as (x & Hx & Hprops);
      [lia | assumption |].
    rewrite Hx. constructor; [exact Hprops | constructor].
Qed.

(** The raw positions kept go up, so those under three come first, and
    there are at most three of them. *)
Lemma kept_positions_hot (index : nat) (l : list node) :
  exists k,
    k <= 3 - index
    /\ map (fun i => Nat.ltb i 3) (kept_positions index l)
       = repeat true k
         ++ repeat false (List.length (kept_positions index l) - k).
Proof.
  revert index. induction l as [| e l IH]; intros index; cbn [kept_positions].
  - exists 0. split; [lia | reflexivity].
  - destruct (IH (S index)) as (k & Hk & Hmap).
    destruct (JSString.truthy (entry_title e)); cbn [app].
    + cbn [map List.length]. destruct (Nat.ltb_spec index 3) as [Hlt | Hge].
      * exists (S k). split; [lia |]. cbn [repeat app Nat.sub].
        rewrite Hmap. reflexivity.
      * assert (k = 0) by lia. subst k. exists 0. split; [lia |].
        rewrite Hmap. rewrite !Nat.sub_0_r. reflexivity.
    + exists k. split; [lia | exact Hmap].
Qed.

(** X8. Whatever the document, the items [parseRSS] returns are at most
    eight, each has a title that is not empty and is trimmed, a trimmed
    description, and the items flagged hot come first and are at most
    three. *)
Theorem parseRSS_items_invariant (h : Host) (reads : nat) (xmlText : string)
  (items : list NewsItem) :
  fst (parseRSS h reads xmlText) = Returned items ->
  List.length items <= 8
  /\ Forall (fun x => title x <> ""%string
                      /\ JSString.trim (title x) = title x
                      /\ JSString.trim (description x) = description x) items
  /\ exists k,
       k <= 3
       /\ map isHot items = repeat true k ++ repeat false (List.length items - k).
Proof.
  intros Hret.
  destruct (DOM.document_querySelector ["parsererror"%string]
              (DOMParser_parseFromString h xmlText)) eqn:Hdoc.
  - rewrite parseRSS_malformed in Hret by congruence. discriminate Hret.
  - rewrite parseRSS_well_formed in Hret by assumption. cbn [fst] in Hret.
    set (window := firstn 8 (itemElements_of (DOMParser_parseFromString h xmlText)))
      in *.
    assert (Hw : 0 + List.length window <= 8) by (apply firstn_8_length).
    assert (Hitems : items = collect h reads 0 window) by congruence.
    clear Hret. subst items.
    split; [| split].
    + rewrite collect_length by assumption.
      pose proof (filter_length_le (fun e => JSString.truthy (entry_title e)) window).
      lia.
    + apply collect_trimmed. assumption.
    + destruct (kept_positions_hot 0 window) as (k & Hk & Hmap).
      exists k. split; [lia |].
      rewrite collect_isHot by assumption. rewrite Hmap.
      rewrite <- (length_map (fun i => Nat.ltb i 3) (kept_positions 0 window)).
      rewrite <- (collect_isHot h reads 0 window) by assumption.
      rewrite length_map. reflexivity.
Qed.

Lemma parseRSS_items_invariant_witness :
  exists items,
    fst (parseRSS (Fixture.host Fixture.offline false) 0 "<eight items, one blank/>")
    = Returned items
    /\ List.length items <= 8
    /\ Forall (fun x => title x <> ""%string
                        /\ JSString.trim (title x) = title x
                        /\ JSString.trim (description x) = description x) items
    /\ exists k,
         k <= 3
         /\ map isHot items = repeat true k ++ repeat false (List.length items - k).
Proof.
  eexists. split; [reflexivity |].
  apply (parseRSS_items_invariant (Fixture.host Fixture.offline false) 0
           "<eight items, one blank/>").
  reflexivity.
Defined.

(** X9. A document with a [parsererror] element makes [parseRSS] throw
    before the clock is read; any other document makes it return, the clock
    having been read once for each of the first eight entries, whether the
    entry is dated, and whether it is kept. *)
Theorem parseRSS_clock_reads (h : Host) (reads : nat) (xmlText : string) :
  match DOM.document_querySelector ["parsererror"%string]
          (DOMParser_parseFromString h xmlText) with
  | Some _ =>
      parseRSS h reads xmlText = (Threw (Error "Failed to parse RSS XML"), reads)
  | None =>
      exists items,
        parseRSS h reads xmlText
        = (Returned items,
           reads + Nat.min 8
                     (List.length
                        (itemElements_of (DOMParser_parseFromString h xmlText))))
        /\ List.length items
           <= Nat.min 8
                (List.length (itemElements_of (DOMParser_parseFromString h xmlText)))
  end.
Proof.
  destruct (DOM.document_querySelector ["parsererror"%string]
              (DOMParser_parseFromString h xmlText)) eqn:Hdoc.
  - apply parseRSS_malformed. congruence.
  - rewrite parseRSS_well_formed by assumption.
    set (window := firstn 8 (itemElements_of (DOMParser_parseFromString h xmlText))).
    assert (Hlen : List.length window
                   = Nat.min 8
                       (List.length
                          (itemElements_of (DOMParser_parseFromString h xmlText))))
      by (apply length_firstn).
    eexists. split; [rewrite Hlen; reflexivity |].
    rewrite collect_length by (rewrite Hlen; cbn [Nat.add]; apply Nat.le_min_l).
    rewrite <- Hlen. apply filter_length_le.
Qed.

(* ================================================================== *)
(** * The label of the relative time *)
(* ================================================================== *)

(** X10. Whatever it is handed, [formatTimeAgo] answers with one of four
    shapes: the text for "just updated", or a count followed by the text
    for minutes, hours or days; the count is never zero or negative, the
    minutes stay under sixty and the hours under twenty-four. *)
Theorem formatTimeAgo_label (now : Z) (date : JSValue) :
  formatTimeAgo now date = "刚刚更新"%string
  \/ (exists n, (1 <= n <= 59)%Z
                /\ formatTimeAgo now date = (JSString.of_Z n ++ "分钟前更新")%string)
  \/ (exists n, (1 <= n <= 23)%Z
                /\ formatTimeAgo now date = (JSString.of_Z n ++ "小时前更新")%string)
  \/ (exists n, (1 <= n)%Z
                /\ formatTimeAgo now date = (JSString.of_Z n ++ "天前更新")%string).
Proof.
  destruct date as [[t |] | s | z |]; try (left; reflexivity).
  unfold formatTimeAgo. cbv zeta.
  set (diffMins := ((now - t) / 60000)%Z).
  destruct (Z.ltb_spec diffMins 0) as [| Hpos]; [left; reflexivity |].
  destruct (Z.ltb_spec diffMins 1) as [| Hone]; [left; reflexivity |].
  destruct (Z.ltb_spec diffMins 60) as [Hmin | Hhour].
  { right. left. exists diffMins. split; [lia | reflexivity]. }
  assert (Hh : (1 <= diffMins / 60)%Z) by (apply Z.div_le_lower_bound; lia).
  destruct (Z.ltb_spec (diffMins / 60) 24) as [Hlt | Hday].
  { right. right. left. exists (diffMins / 60)%Z. split; [lia | reflexivity]. }
  right. right. right. exists (diffMins / 60 / 24)%Z.
  split; [apply Z.div_le_lower_bound; lia | reflexivity].
Qed.

(* ================================================================== *)
(** * One request *)
(* ================================================================== *)

(** X11. A call of [fetchRSS] hands its URL to [fetch] once and touches
    nothing else.  It returns a text exactly when the response has a status
    from 200 to 299 and its body is read, and the text is this body; a
    response with any other status makes it throw the error whose message
    carries the status, whatever the body; a rejection of [fetch] and a
    failure to read the body are thrown as they are. *)
Theorem fetchRSS_outcome (h : Host) (url : string) (w : World) :
  let r := fetch h (List.length (requests w)) url in
  snd (run h (fetchRSS url) w) = issue url w
  /\ (forall text,
        fst (run h (fetchRSS url) w) = Returned text
        <-> exists status,
              (200 <= status <= 299)%Z /\ r = Response status (BodyText text))
  /\ (forall status body,
        r = Response status body -> (status < 200 \/ 299 < status)%Z ->
        fst (run h (fetchRSS url) w)
        = Threw (Error ("HTTP error! status: " ++ JSString.of_Z status)))
  /\ (forall e, r = Rejected e -> fst (run h (fetchRSS url) w) = Threw e)
  /\ (forall status e,
        r = Response status (BodyFailed e) -> (200 <= status <= 299)%Z ->
        fst (run h (fetchRSS url) w) = Threw e).
Proof.
  cbv zeta. rewrite run_fetchRSS. cbn [fst snd].
  assert (Hok : forall status,
             response_ok status = true <-> (200 <= status <= 299)%Z).
  { intros status. unfold response_ok. rewrite andb_true_iff, !Z.leb_le. tauto. }
  split; [reflexivity |]. split; [| split; [| split]].
  - intros text. split.
    + destruct (fetch h (List.length (requests w)) url) as [e | status body];
        cbn [settled]; [discriminate |].
      destruct (response_ok status) eqn:Hs; cbn [negb]; [| discriminate].
      destruct body as [text' | e]; [| discriminate].
      intros [= ->]. exists status. split; [apply Hok; exact Hs | reflexivity].
    + intros (status & Hs & ->). cbn [settled].
      apply Hok in Hs. rewrite Hs. reflexivity.
  - intros status body -> Hs. cbn [settled].
    destruct (response_ok status) eqn:Hr; [| reflexivity].
    apply Hok in Hr. lia.
  - intros e ->. reflexivity.
  - intros status e -> Hs. cbn [settled]. apply Hok in Hs. rewrite Hs. reflexivity.
Qed.

(* ================================================================== *)
(** * The URLs handed to the relays *)
(* ================================================================== *)

Lemma hex_digit_code (n : nat) :
  n < 16 ->
  nat_of_ascii (JSString.hex_digit n) = if Nat.ltb n 10 then 48 + n else 55 + n.
Proof.
  intros Hn. unfold JSString.hex_digit. apply nat_ascii_embedding.
  destruct (Nat.ltb n 10); lia.
Qed.

Lemma hex_digit_unreserved (n : nat) :
  n < 16 -> JSString.uri_unreserved (JSString.hex_digit n) = true.
Proof.
  intros Hn. do 16 (destruct n as [| n]; [reflexivity |]). lia.
Qed.

Lemma hex_digit_injective (n m : nat) :
  n < 16 -> m < 16 -> JSString.hex_digit n = JSString.hex_digit m -> n = m.
Proof.
  intros Hn Hm Heq. apply (f_equal nat_of_ascii) in Heq.
  rewrite !hex_digit_code in Heq by assumption.
  destruct (Nat.ltb_spec n 10), (Nat.ltb_spec m 10); lia.
Qed.

Lemma byte_halves (c : ascii) :
  nat_of_ascii c / 16 < 16 /\ nat_of_ascii c mod 16 < 16.
Proof.
  pose proof (nat_ascii_bounded c) as Hc. split.
  - apply Nat.Div0.div_lt_upper_bound. lia.
  - apply Nat.mod_upper_bound. lia.
Qed.

Lemma encodeURIComponent_injective (a b : string) :
  JSString.encodeURIComponent a = JSString.encodeURIComponent b -> a = b.
Proof.
  revert b. induction a as [| c a IH]; intros [| d b];
    cbn [JSString.encodeURIComponent].
  - reflexivity.
  - destruct (JSString.uri_unreserved d); discriminate.
  - destruct (JSString.uri_unreserved c); discriminate.
  - destruct (JSString.uri_unreserved c) eqn:Hc, (JSString.uri_unreserved d) eqn:Hd.
    + intros [= -> He]. rewrite (IH b He). reflexivity.
    + intros [= -> _]. discriminate Hc.
    + intros [= <- _]. discriminate Hd.
    + intros [= Hhi Hlo He].
      destruct (byte_halves c) as [Hc1 Hc2], (byte_halves d) as [Hd1 Hd2].
      apply hex_digit_injective in Hhi; [| assumption ..].
      apply hex_digit_injective in Hlo; [| assumption ..].
      assert (Hcode : nat_of_ascii c = nat_of_ascii d).
      { pose proof (Nat.div_mod_eq (nat_of_ascii c) 16) as Hcd.
        pose proof (Nat.div_mod_eq (nat_of_ascii d) 16) as Hdd.
        assert (Hhi' : nat_of_ascii c / 16 = nat_of_ascii d / 16) by exact Hhi.
        assert (Hlo' : nat_of_ascii c mod 16 = nat_of_ascii d mod 16) by exact Hlo.
        rewrite Hhi', Hlo' in Hcd. congruence. }
      rewrite <- (ascii_nat_embedding c), <- (ascii_nat_embedding d), Hcode.
      rewrite (IH b He). reflexivity.
Qed.

Lemma append_injective (p a b : string) : (p ++ a)%string = (p ++ b)%string -> a = b.
Proof.
  induction p as [| c p IH]; cbn [append]; [trivial |].
  intros [= He]. apply IH. exact He.
Qed.

(** X12. Through any strategy, two feed URLs that make the same request are
    the same URL: what a relay is handed determines the feed it is asked
    for. *)
Theorem fetchUrl_of_injective (proxy a b : string) :
  fetchUrl_of proxy a = fetchUrl_of proxy b -> a = b.
Proof.
  unfold fetchUrl_of. destruct (JSString.truthy proxy); [| trivial].
  intros He. apply encodeURIComponent_injective.
  apply (append_injective proxy). exact He.
Qed.

Lemma fetchUrl_of_injective_witness :
  fetchUrl_of "https://corsproxy.io/?" "https://rsshub.app/rfi/cn"
  = "https://corsproxy.io/?https%3A%2F%2Frsshub.app%2Frfi%2Fcn"%string
  /\ "https://rsshub.app/rfi/cn"%string = "https://rsshub.app/rfi/cn"%string.
Proof.
  split; [reflexivity |].
  apply (fetchUrl_of_injective "https://corsproxy.io/?"
           "https://rsshub.app/rfi/cn" "https://rsshub.app/rfi/cn").
  reflexivity.
Defined.

(** X13. The direct strategy requests the feed URL as it is.  A relay is
    requested at its own address followed by the encoded feed URL, in which
    every character is one that [encodeURIComponent] leaves alone or a
    percent sign: no slash, colon, question mark, ampersand, equals sign or
    hash of the feed URL is left to be read as part of the relay's own
    address.  The encoding is at most three times as long as the URL, and
    not shorter. *)
Theorem encodeURIComponent_charset (url : string) :
  fetchUrl_of "" url = url
  /\ (forall proxy, proxy <> ""%string ->
        fetchUrl_of proxy url = (proxy ++ JSString.encodeURIComponent url)%string)
  /\ Forall (fun c => JSString.uri_unreserved c = true \/ c = "%"%char)
       (list_ascii_of_string (JSString.encodeURIComponent url))
  /\ Forall (fun c => ~ In c ["/"; ":"; "?"; "&"; "="; "#"; " "]%char)
       (list_ascii_of_string (JSString.encodeURIComponent url))
  /\ String.length url <= String.length (JSString.encodeURIComponent url)
     <= 3 * String.length url.
Proof.
  assert (Hset : Forall (fun c => JSString.uri_unreserved c = true \/ c = "%"%char)
                   (list_ascii_of_string (JSString.encodeURIComponent url))).
  { induction url as [| c url IH]; cbn [JSString.encodeURIComponent].
    - constructor.
    - destruct (byte_halves c) as [Hhi Hlo].
      destruct (JSString.uri_unreserved c) eqn:Hc; cbn [list_ascii_of_string].
      + constructor; [left; exact Hc | exact IH].
      + constructor; [right; reflexivity |].
        constructor; [left; apply hex_digit_unreserved; exact Hhi |].
        constructor; [left; apply hex_digit_unreserved; exact Hlo | exact IH]. }
  split; [reflexivity |]. split; [| split; [exact Hset | split]].
  - intros proxy Hp. unfold fetchUrl_of.
    destruct proxy; [congruence | reflexivity].
  - eapply Forall_impl; [| exact Hset]. cbn beta.
    intros c [Hc | ->] Hin.
    + cbn [In] in Hin.
      repeat (destruct Hin as [<- | Hin]; [discriminate Hc |]). exact Hin.
    + cbn [In] in Hin.
      repeat (destruct Hin as [Hin | Hin]; [discriminate Hin |]). exact Hin.
  - clear Hset.
    induction url as [| c url IH]; cbn [JSString.encodeURIComponent String.length].
    + lia.
    + destruct (JSString.uri_unreserved c); cbn [String.length]; lia.
Qed.

(* ================================================================== *)
(** * Escaping *)
(* ================================================================== *)

Example escapeHtml_example :
  escapeHtml "Q&A: <b>R&D</b> 'now'" = "Q&amp;A: &lt;b&gt;R&amp;D&lt;/b&gt; 'now'"%string
  /\ escapeHtml (JSString.bytes [49; 194; 160; 50; 34]) = JSString.bytes
       [49; 38; 110; 98; 115; 112; 59; 50; 34].
Proof. split; reflexivity. Qed.

Lemma escapeHtml_text_bounded (n : nat) (text : string) :
  String.length text <= n ->
  Forall (fun c => c <> "<"%char /\ c <> ">"%char)
    (list_ascii_of_string (escapeHtml text))
  /\ quotation_marks (escapeHtml text) = quotation_marks text
  /\ String.length text <= String.length (escapeHtml text).
Proof.
  revert text. induction n as [| n IH]; intros [| c rest] Hlen;
    cbn [String.length] in Hlen; try lia;
    try (split; [constructor | split; [reflexivity | apply Nat.le_refl]]).
  destruct (IH rest) as (Hr1 & Hr2 & Hr3); [lia |].
  cbn [escapeHtml].
  destruct (Ascii.eqb_spec c "&") as [-> | Hamp].
  { cbn [append list_ascii_of_string String.length]. unfold quotation_marks in *.
    cbn [list_ascii_of_string]. split; [| split; [exact Hr2 | lia]].
    repeat (constructor; [split; discriminate |]). exact Hr1. }
  destruct (Ascii.eqb_spec c "<") as [-> | Hlt].
  { cbn [append list_ascii_of_string String.length]. unfold quotation_marks in *.
    cbn [list_ascii_of_string]. split; [| split; [exact Hr2 | lia]].
    repeat (constructor; [split; discriminate |]). exact Hr1. }
  destruct (Ascii.eqb_spec c ">") as [-> | Hgt].
  { cbn [append list_ascii_of_string String.length]. unfold quotation_marks in *.
    cbn [list_ascii_of_string]. split; [| split; [exact Hr2 | lia]].
    repeat (constructor; [split; discriminate |]). exact Hr1. }
  assert (Hkeep :
            Forall (fun c => c <> "<"%char /\ c <> ">"%char)
              (list_ascii_of_string (String c (escapeHtml rest)))
            /\ quotation_marks (String c (escapeHtml rest))
               = quotation_marks (String c rest)
            /\ String.length (String c rest)
               <= String.length (String c (escapeHtml rest))).
  { cbn [list_ascii_of_string String.length]. unfold quotation_marks in *.
    cbn [list_ascii_of_string filter].
    split; [constructor; [split; assumption | exact Hr1] |].
    split; [| lia].
    destruct (Ascii.eqb (ascii_of_nat 34) c); cbn [List.length]; rewrite Hr2;
      reflexivity. }
  destruct rest as [| d rest'].
  { split; [| split; [reflexivity | apply Nat.le_refl]].
    constructor; [split; assumption | constructor]. }
  destruct (Ascii.eqb_spec c (ascii_of_nat 194)) as [-> | Hc]; [| exact Hkeep].
  destruct (Ascii.eqb_spec d (ascii_of_nat 160)) as [-> | Hd]; [| exact Hkeep].
  cbn [andb]. clear Hkeep Hr1 Hr2 Hr3.
  destruct (IH rest') as (Hr1 & Hr2 & Hr3); [cbn [String.length] in Hlen; lia |].
  cbn [append list_ascii_of_string String.length]. unfold quotation_marks in *.
  cbn [list_ascii_of_string]. split; [| split; [exact Hr2 | lia]].
  repeat (constructor; [split; discriminate |]). exact Hr1.
Qed.

(** X14. What [escapeHtml] returns holds no angle bracket, so that as an
    element's content it is read as text and opens no tag.  It holds as
    many quotation marks as the text escaped: these are left as they are,
    also where the result is written into a quoted attribute value.  It is
    never shorter than the text. *)
Theorem escapeHtml_text (text : string) :
  Forall (fun c => c <> "<"%char /\ c <> ">"%char)
    (list_ascii_of_string (escapeHtml text))
  /\ quotation_marks (escapeHtml text) = quotation_marks text
  /\ String.length text <= String.length (escapeHtml text).
Proof. apply (escapeHtml_text_bounded (String.length text)). apply Nat.le_refl. Qed.

(* ================================================================== *)
(** * One card per source, at all times *)
(* ================================================================== *)

Lemma skeletons_keys (id : nat) (table : list (string * FeedConfig)) :
  map data_source (skeletons_from id table) = map fst table.
Proof.
  revert id. induction table as [| [key config] rest IH]; intros id;
    cbn [skeletons_from map].
  - reflexivity.
  - rewrite IH. reflexivity.
Qed.

Lemma replace_node_keys (ref : nat) (new : CardElement) (cards : list CardElement) :
  (forall c, In c cards -> node_id c = ref -> data_source c = data_source new) ->
  map data_source (replace_node ref new cards) = map data_source cards.
Proof.
  induction cards as [| c rest IH]; intros Hkey; cbn [replace_node].
  - reflexivity.
  - destruct (Nat.eqb_spec (node_id c) ref) as [Hid | _]; cbn [map].
    + rewrite (Hkey c (or_introl eq_refl) Hid). reflexivity.
    + rewrite IH; [reflexivity |].
      intros d Hin. apply Hkey. right. exact Hin.
Qed.

Lemma listen_first_keys (sourceKey : string) (cards : list CardElement) :
  map data_source (listen_first sourceKey cards) = map data_source cards.
Proof.
  destruct (listen_first_markup sourceKey cards) as [Hm _].
  unfold data_source.
  rewrite <- (map_map markup markup_source), Hm, map_map. reflexivity.
Qed.

(** Every change of the page that the program makes leaves a page that had
    one card per source, in the order of [RSS_FEEDS], with one card per
    source in that order. *)
Lemma keys_mutation (w w' : World) :
  mutation w w' ->
  map data_source (page w) = map fst RSS_FEEDS ->
  map data_source (page w') = map fst RSS_FEEDS.
Proof.
  intros [ref m Hkey | | key | w1 Hp _] Hkeys.
  - cbn [write_outerHTML page]. rewrite replace_node_keys; [exact Hkeys |].
    intros c Hin Hid. apply Hkey; assumption.
  - cbn [reset_cards page]. apply skeletons_keys.
  - cbn [add_click_listeners page]. rewrite listen_first_keys. exact Hkeys.
  - rewrite Hp. exact Hkeys.
Qed.

Lemma keys_evolves (w w' : World) :
  evolves w w' ->
  map data_source (page w) = map fst RSS_FEEDS ->
  map data_source (page w') = map fst RSS_FEEDS.
Proof.
  induction 1 as [| w1 w2 _ IH Hm]; intros Hkeys.
  - exact Hkeys.
  - eapply keys_mutation; [exact Hm | apply IH; exact Hkeys].
Qed.








(* ================================================================== *)
(** * How a call that has lost its card ends *)
(* ================================================================== *)

Section Ends.

Variable c : nat.

















End Ends.






(* ================================================================== *)
(** * A resolution that fails, with the rest of the program in between *)
(* ================================================================== *)

Section Unfolds.

(** What the rest of the program may do while the call is suspended. *)
Variable between : World -> World -> Prop.

(** A call unfolds as its next step does. *)
Lemma unfolds_same_step (A : Type) (t' : task A) (w0 : World) (t : task A) (w : World)
  (rs : list FetchResult) (o : outcome A) (w' : World) :
  advance t' w0 = advance t w ->
  unfolds between t w rs o w' -> unfolds between t' w0 rs o w'.
Proof.
  intros Heq H. destruct H as [t w o w' Hadv | t w url k w1 r w2 rs o w' Hadv Hev H].
  - apply unfolds_finished. rewrite Heq. exact Hadv.
  - eapply unfolds_pending with (r := r); [rewrite Heq; exact Hadv | exact Hev | exact H].
Qed.



(** A call run alone unfolds, with the responses of the host, when doing
    nothing is among what the rest of the program may do. *)
Lemma run_unfolds (h : Host) (A : Type) (t : task A) (w : World) :
  (forall w1, between w1 w1) ->
  exists rs, unfolds between t w rs (fst (run h t w)) (snd (run h t w)).
Proof.
  intros Hrefl.
  revert w. induction t as [a | e | k IH | w0 t IH | url k IH]; intros w; cbn [run].
  - exists []. apply unfolds_finished. reflexivity.
  - exists []. apply unfolds_finished. reflexivity.
  - destruct (IH w w) as [rs H]. exists rs.
    eapply unfolds_same_step; [| exact H]. reflexivity.
  - destruct (IH w0) as [rs H]. exists rs.
    eapply unfolds_same_step; [| exact H]. reflexivity.
  - destruct (IH (fetch h (List.length (requests w)) url) (issue url w)) as [rs H].
    exists (fetch h (List.length (requests w)) url :: rs).
    eapply unfolds_pending with (r := fetch h (List.length (requests w)) url);
      [reflexivity | apply Hrefl | exact H].
Qed.












Section Barren.

Variable h : Host.
Variable sourceKey : string.
Variable config : FeedConfig.
Variable c : nat.





End Barren.

End Unfolds.





